(** * background_remover.py: geometry utilities, single-image pipeline and
      batch processor, embedded shallowly.

    Python integers are [Z], Python floats are IEEE-754 binary64 values
    ([spec_float] at precision 53, exponent bound 1024), raised exceptions are
    the [Raise] side of [result]. *)

From Stdlib Require Import ZArith Lia List Bool Ascii String.
From Stdlib Require Import Floats.SpecFloat.
From Stdlib Require Import QArith Qround Qminmax.
From Stdlib Require Import Reals Lra.
From stdpp Require Import base option list gmap strings pretty.

Local Open Scope Z_scope.

(** ** Exceptions and results *)

(** The subclasses of Python's [Exception] that the modelled code can meet.
    [ExternalError] stands for an error raised inside a third-party call
    (decoder, model inference, encoder, archive writer); its tag tells such
    errors apart. *)
Inductive exn :=
  | ZeroDivisionError
  | OverflowError
  | ValueError
  | IndexError
  | FileNotFoundError
  | ExternalError (tag : string).

Inductive result (A : Type) :=
  | Ok (a : A)
  | Raise (e : exn).
Arguments Ok {A} a.
Arguments Raise {A} e.

Definition rbind {A B} (r : result A) (k : A -> result B) : result B :=
  match r with
  | Ok a => k a
  | Raise e => Raise e
  end.

#[global] Instance result_ret : MRet result := fun A a => Ok a.
#[global] Instance result_bind : MBind result := fun A B k r => rbind r k.

(** ** Python floats *)

Module PyFloat.

Definition prec : Z := 53.
Definition emax : Z := 1024.

Abbreviation float := spec_float.

(** [float(n)] for an [int]: the nearest binary64 value, ties to even;
    [OverflowError] when [n] is too large. *)
Definition of_int (n : Z) : result float :=
  match binary_normalize prec emax n 0 false with
  | S754_infinity _ => Raise OverflowError
  | f => Ok f
  end.

(** An [int] as an exact operand of a division. *)
Definition exact (n : Z) : float :=
  match n with
  | Z0 => S754_zero false
  | Zpos p => S754_finite false p 0
  | Zneg p => S754_finite true p 0
  end.

(** [a / b] for two [int]s: the correctly rounded quotient,
    [ZeroDivisionError] for [b = 0]. *)
Definition int_truediv (a b : Z) : result float :=
  if b =? 0 then Raise ZeroDivisionError
  else match SFdiv prec emax (exact a) (exact b) with
       | S754_infinity _ => Raise OverflowError
       | q => Ok q
       end.

(** [n * x] for an [int] [n] and a [float] [x]: [n] is converted first. *)
Definition int_mul (n : Z) (x : float) : result float :=
  fn ← of_int n; Ok (SFmul prec emax fn x).

(** [min(a, b)] on floats: the builtin keeps its first argument unless the
    second compares strictly smaller. *)
Definition min (a b : float) : float :=
  if SFltb b a then b else a.

(** [int(x)]: truncation towards zero; infinities and NaN raise. *)
Definition to_int (x : float) : result Z :=
  match x with
  | S754_zero _ => Ok 0
  | S754_finite s m e =>
      let a := match e with
               | Zneg _ => Z.shiftr (Zpos m) (- e)
               | _ => Z.shiftl (Zpos m) e
               end in
      Ok (if s then - a else a)
  | S754_infinity _ => Raise OverflowError
  | S754_nan => Raise ValueError
  end.

End PyFloat.

(** ** Geometry utilities *)

(** [calculate_target_size], lines 34-53. *)
Definition calculate_target_size (original_size : Z * Z) : result (Z * Z) :=
  let '(orig_width, orig_height) := original_size in
  width_ratio ← PyFloat.int_truediv 1400 orig_width;
  height_ratio ← PyFloat.int_truediv 2400 orig_height;
  let scale := PyFloat.min width_ratio height_ratio in
  fw ← PyFloat.int_mul orig_width scale;
  new_width ← PyFloat.to_int fw;
  fh ← PyFloat.int_mul orig_height scale;
  new_height ← PyFloat.to_int fh;
  Ok (Z.min new_width 1400, Z.min new_height 2400).

(** The sizing rule as the specification words it, over exact rational
    arithmetic: [wRatio = 1400/originalWidth], [hRatio = 2400/originalHeight],
    [scale = min(wRatio, hRatio)], each side floored and clamped. *)
Definition spec_target_size (originalWidth originalHeight : Z) : Z * Z :=
  let wRatio := (1400 / inject_Z originalWidth)%Q in
  let hRatio := (2400 / inject_Z originalHeight)%Q in
  let scale := Qmin wRatio hRatio in
  (Z.min (Qfloor (inject_Z originalWidth * scale)) 1400,
   Z.min (Qfloor (inject_Z originalHeight * scale)) 2400).

(** ** Images

    The part of Pillow's [Image] that the pipeline touches: a mode, a size,
    the rows of pixels and the EXIF orientation tag. *)

Inductive Mode := L | LA | RGB | RGBA.

#[global] Instance Mode_eq_dec : EqDecision Mode.
Proof. solve_decision. Defined.

Definition has_alpha (m : Mode) : bool :=
  match m with LA | RGBA => true | L | RGB => false end.

(** A pixel is the list of its band values, alpha last when the mode has it. *)
Definition Pixel := list Z.

Record Image := {
  mode : Mode;
  width : Z;
  height : Z;
  data : list (list Pixel);
  orientation : option Z
}.

Definition size (image : Image) : Z * Z := (width image, height image).

Definition bands (m : Mode) : nat :=
  match m with L => 1 | LA => 2 | RGB => 3 | RGBA => 4 end%nat.

(** The size recorded in the image is the shape of its pixel rows, and every
    pixel has the bands of the mode. *)
Record wf_image (image : Image) : Prop := {
  wf_height : Z.of_nat (length (data image)) = height image;
  wf_width : Forall (fun row => Z.of_nat (length row) = width image) (data image);
  wf_width_nonneg : 0 <= width image;
  wf_bands : Forall (Forall (fun px : Pixel => length px = bands (mode image))) (data image)
}.

Definition alpha_of (m : Mode) (px : Pixel) : Z :=
  if has_alpha m then List.last px 0 else 255.

(** *** [Image.getbbox]

    The bounding box of the non-zero regions.  With the default
    [alpha_only=True], an image with an alpha channel is measured on that
    channel alone; any other image on all of its bands. *)

Definition has_data (m : Mode) (px : Pixel) : bool :=
  if has_alpha m then negb (List.last px 0 =? 0)
  else existsb (fun v => negb (v =? 0)) px.

Definition row_has_data (m : Mode) (row : list Pixel) : bool :=
  existsb (has_data m) row.

Fixpoint find_index {A} (p : A -> bool) (l : list A) : option nat :=
  match l with
  | [] => None
  | x :: l' => if p x then Some O else S <$> find_index p l'
  end.

Definition find_last_index {A} (p : A -> bool) (l : list A) : option nat :=
  (fun i => (length l - 1 - i)%nat) <$> find_index p (reverse l).

Definition getbbox (image : Image) : option (Z * Z * Z * Z) :=
  let m := mode image in
  let rows := data image in
  match find_index (row_has_data m) rows, find_last_index (row_has_data m) rows with
  | Some top, Some bottom =>
      let lefts := omap (find_index (has_data m)) rows in
      let rights := omap (find_last_index (has_data m)) rows in
      Some (Z.of_nat (foldr Nat.min (Z.to_nat (width image)) lefts),
            Z.of_nat top,
            Z.of_nat (foldr Nat.max O rights) + 1,
            Z.of_nat bottom + 1)
  | _, _ => None
  end.

(** *** [Image.crop], for a box that lies within the image (as every box
    returned by [getbbox] does). The new image keeps the mode and the
    metadata. *)
Definition crop (image : Image) (box : Z * Z * Z * Z) : Image :=
  let '(x0, y0, x1, y1) := box in
  {| mode := mode image;
     width := x1 - x0;
     height := y1 - y0;
     data := (fun row => take (Z.to_nat (x1 - x0)) (drop (Z.to_nat x0) row))
               <$> take (Z.to_nat (y1 - y0)) (drop (Z.to_nat y0) (data image));
     orientation := orientation image |}.

(** [trim_transparency], lines 29-32. *)
Definition trim_transparency (image : Image) : Image :=
  match getbbox image with
  | Some bbox => crop image bbox
  | None => image
  end.

(** *** [Image.transpose] *)

Inductive Transpose :=
  | FLIP_LEFT_RIGHT | FLIP_TOP_BOTTOM
  | ROTATE_90 | ROTATE_180 | ROTATE_270
  | TRANSPOSE | TRANSVERSE.

(** The columns of a pixel matrix of width [w], as rows. *)
Definition columns (w : nat) (rows : list (list Pixel)) : list (list Pixel) :=
  (fun x => omap (fun row : list Pixel => row !! x) rows) <$> seq 0 w.

Definition transpose_data (method : Transpose) (w : nat) (rows : list (list Pixel))
  : list (list Pixel) :=
  match method with
  | FLIP_LEFT_RIGHT => reverse <$> rows
  | FLIP_TOP_BOTTOM => reverse rows
  | ROTATE_180 => reverse (reverse <$> rows)
  | TRANSPOSE => columns w rows
  | ROTATE_90 => reverse (columns w rows)
  | ROTATE_270 => reverse <$> columns w rows
  | TRANSVERSE => reverse (reverse <$> columns w rows)
  end.

Definition swaps_axes (method : Transpose) : bool :=
  match method with
  | ROTATE_90 | ROTATE_270 | TRANSPOSE | TRANSVERSE => true
  | _ => false
  end.

Definition transpose (image : Image) (method : Transpose) : Image :=
  {| mode := mode image;
     width := if swaps_axes method then height image else width image;
     height := if swaps_axes method then width image else height image;
     data := transpose_data method (Z.to_nat (width image)) (data image);
     orientation := orientation image |}.

(** [ImageOps.exif_transpose]: the transposition that the orientation tag
    asks for, with the tag removed from the result; a copy otherwise. *)
Definition exif_method (o : option Z) : option Transpose :=
  match o with
  | Some 2 => Some FLIP_LEFT_RIGHT
  | Some 3 => Some ROTATE_180
  | Some 4 => Some FLIP_TOP_BOTTOM
  | Some 5 => Some TRANSPOSE
  | Some 6 => Some ROTATE_270
  | Some 7 => Some TRANSVERSE
  | Some 8 => Some ROTATE_90
  | _ => None
  end.

Definition exif_transpose (image : Image) : Image :=
  match exif_method (orientation image) with
  | Some method =>
      let transposed := transpose image method in
      {| mode := mode transposed; width := width transposed;
         height := height transposed; data := data transposed;
         orientation := None |}
  | None => image
  end.

(** [auto_rotate], lines 55-57. *)
Definition auto_rotate (image : Image) : Image :=
  exif_transpose image.

(** [ensure_portrait_mode], lines 59-63. *)
Definition ensure_portrait_mode (image : Image) : Image :=
  if height image <? width image then transpose image ROTATE_270 else image.

(** *** [Image.new], [Image.convert] and [Image.paste] *)

Definition Image_new (m : Mode) (size : Z * Z) (color : Pixel) : Image :=
  {| mode := m;
     width := size.1;
     height := size.2;
     data := replicate (Z.to_nat size.2) (replicate (Z.to_nat size.1) color);
     orientation := None |}.

(** The colour bands of a pixel, as RGB. *)
Definition to_rgb (m : Mode) (p : Pixel) : Pixel :=
  match m, p with
  | L, [l] => [l; l; l]
  | LA, [l; _] => [l; l; l]
  | RGB, [r; g; b] => [r; g; b]
  | RGBA, [r; g; b; _] => [r; g; b]
  | _, _ => [0; 0; 0]
  end.

Definition convert_RGBA (image : Image) : Image :=
  {| mode := RGBA;
     width := width image;
     height := height image;
     data := fmap (M := list) (fun p => to_rgb (mode image) p ++ [alpha_of (mode image) p])
               <$> data image;
     orientation := orientation image |}.

(** Pillow's 8-bit blend: [(v + 128 + ((v + 128) >> 8)) >> 8] for
    [v = old * (255 - a) + new * a]. *)
Definition blend (a old new : Z) : Z :=
  let t := old * (255 - a) + new * a + 128 in
  Z.shiftr (Z.shiftr t 8 + t) 8.

Definition getpixel (image : Image) (x y : nat) : option Pixel :=
  row ← data image !! y; row !! x.

(** [canvas.paste(im, (x, y), mask)] for an RGB canvas: inside the box of
    [im] the canvas takes the colour of [im], blended through the alpha band
    of [mask] when one is given; the size and mode of the canvas stay. *)
Definition paste (canvas im : Image) (at_ : Z * Z) (mask : option Image) : Image :=
  let '(x0, y0) := at_ in
  let paste_pixel (cy cx : nat) (old : Pixel) : Pixel :=
    let x := Z.of_nat cx - x0 in
    let y := Z.of_nat cy - y0 in
    if (0 <=? x) && (x <? width im) && (0 <=? y) && (y <? height im) then
      match getpixel im (Z.to_nat x) (Z.to_nat y) with
      | Some p =>
          let colour := to_rgb (mode im) p in
          match mask with
          | None => colour
          | Some mk =>
              match getpixel mk (Z.to_nat x) (Z.to_nat y) with
              | Some q => zip_with (blend (alpha_of (mode mk) q)) old colour
              | None => old
              end
          end
      | None => old
      end
    else old in
  {| mode := mode canvas;
     width := width canvas;
     height := height canvas;
     data := imap (fun cy row => imap (paste_pixel cy) row) (data canvas);
     orientation := orientation canvas |}.

Arguments Image_new : simpl never.
Arguments paste : simpl never.

(** ** Single-image pipeline *)

(** The configuration that [HiInterface] is built from. *)
Record HiInterface := {
  object_type : string;
  batch_size_seg : Z;
  batch_size_matting : Z;
  device : string;
  seg_mask_size : Z;
  fp16 : bool
}.

(** What the program takes from its libraries and from the machine. Errors
    raised in there are [Raise] results or faults. *)
Record Env := {
  (** [torch.cuda.is_available()] *)
  cuda_is_available : bool;
  (** calling the background-removal model on a list of images: as many
      images, background made transparent, or an error *)
  carvekit : HiInterface -> list Image -> result (list Image);
  (** the pixels that Pillow's LANCZOS filter computes for a new size *)
  lanczos : Image -> Z -> Z -> list (list Pixel);
  (** [Image.open(path)] followed by the decoding of the file *)
  Image_open : string -> result Image;
  (** the error, if any, of [image.save(directory/filename, "PNG")] *)
  save_fault : string -> string -> Image -> option exn;
  (** the error, if any, of opening the archive at a path for writing *)
  zip_open_fault : string -> option exn;
  (** the error, if any, of adding the member with this name to the archive *)
  zip_write_fault : string -> option exn;
  (** the fresh names that [tempfile] picks *)
  temp_zip_name : string;
  temp_dir_name : string
}.

Section Pipeline.

Variable env : Env.

(** [initialize_interface], lines 15-27. *)
Definition initialize_interface (use_gpu : bool) : HiInterface :=
  let device :=
    if use_gpu then (if cuda_is_available env then "cuda" else "cpu")
    else "cpu" in
  {| object_type := "object";
     batch_size_seg := 2;
     batch_size_matting := 1;
     device := device;
     seg_mask_size := 640;
     fp16 := if decide (device = "cuda") then true else false |}.

(** [Image.resize(size, Image.LANCZOS)]: a copy when the size is the
    image's own; [ValueError] when a side of the new size is below 1. *)
Definition resize (image : Image) (new_size : Z * Z) : result Image :=
  if decide (size image = new_size) then Ok image
  else if (new_size.1 <? 1) || (new_size.2 <? 1) then Raise ValueError
  else Ok {| mode := mode image;
             width := new_size.1;
             height := new_size.2;
             data := lanczos env image new_size.1 new_size.2;
             orientation := orientation image |}.

(** [l[0]]. *)
Definition item0 {A} (l : list A) : result A :=
  match l with
  | x :: _ => Ok x
  | [] => Raise IndexError
  end.

(** [process_image], lines 65-90. *)
Definition process_image (image : Image) (interface : HiInterface) : result Image :=
  let image_prep := ensure_portrait_mode image in
  outputs ← carvekit env interface [image_prep];
  bg_removed ← item0 outputs;
  let trimmed := trim_transparency bg_removed in
  let rotated := auto_rotate trimmed in
  target_size ← calculate_target_size (size rotated);
  resized ← resize rotated target_size;
  let canvas := Image_new RGB (2048, 2732) [255; 255; 255] in
  let x := (2048 - width resized) / 2 in
  let y := (2732 - height resized) / 2 in
  let canvas := paste canvas resized (x, y)
                  (if decide (mode resized = RGBA) then Some (convert_RGBA resized)
                   else None) in
  Ok canvas.

End Pipeline.

(** ** Paths *)

Module Path.

Fixpoint split_on (sep : ascii) (s : string) : list string :=
  match s with
  | EmptyString => [EmptyString]
  | String c s' =>
      if decide (c = sep) then EmptyString :: split_on sep s'
      else match split_on sep s' with
           | part :: parts => String c part :: parts
           | [] => [String c EmptyString]
           end
  end.

(** The final component of a POSIX path: empty and ["."] components do not
    count. *)
Definition name (p : string) : string :=
  List.last (filter (fun part => part <> "" /\ part <> ".") (split_on "/" p)) "".

(** The position of the last ["."] of a name. *)
Fixpoint rfind_dot (s : string) : option nat :=
  match s with
  | EmptyString => None
  | String c s' =>
      match rfind_dot s' with
      | Some i => Some (S i)
      | None => if decide (c = "."%char) then Some O else None
      end
  end.

(** [Path(p).stem]: the name without its last suffix; a leading or a
    trailing dot starts no suffix. *)
Definition stem (p : string) : string :=
  let n := name p in
  match rfind_dot n with
  | Some i =>
      if decide (0 < i /\ i < String.length n - 1)%nat then substring 0 i n else n
  | None => n
  end.

End Path.

(** ** Batch processor *)

(** A regular file under a path: as created, or a ZIP archive with its
    members in the order they were added. *)
Inductive File :=
  | Blank
  | ZipArchive (members : list (string * Image)).

(** The part of the machine that the batch processor changes: the regular
    files it creates, its temporary directories with the images saved in
    them, and what was printed. *)
Record World := {
  files : gmap string File;
  directories : gmap string (gmap string Image);
  console : list string
}.

Definition M (A : Type) : Type := World -> result A * World.

Definition mret {A} (a : A) : M A := fun w => (Ok a, w).

Definition mbind' {A B} (m : M A) (k : A -> M B) : M B :=
  fun w => match m w with
           | (Ok a, w') => k a w'
           | (Raise e, w') => (Raise e, w')
           end.

#[global] Instance M_ret : MRet M := @mret.
#[global] Instance M_bind : MBind M := fun A B k m => mbind' m k.

Definition raise {A} (e : exn) : M A := fun w => (Raise e, w).

Definition lift {A} (r : result A) : M A := fun w => (r, w).

(** [try: body except Exception as e: handler e]. *)
Definition try_except {A} (body : M A) (handler : exn -> M A) : M A :=
  fun w => match body w with
           | (Ok a, w') => (Ok a, w')
           | (Raise e, w') => handler e w'
           end.

(** [try: body finally: cleanup]. *)
Definition try_finally {A} (body : M A) (cleanup : M unit) : M A :=
  fun w => match body w with
           | (r, w') =>
               match cleanup w' with
               | (Ok _, w'') => (r, w'')
               | (Raise e, w'') => (Raise e, w'')
               end
           end.

(** [for x in l: body x]. *)
Fixpoint for_each {A} (l : list A) (body : A -> M unit) : M unit :=
  match l with
  | [] => mret tt
  | x :: l' => _ ← body x; for_each l' body
  end.

Definition exn_str (e : exn) : string :=
  match e with
  | ZeroDivisionError => "division by zero"
  | OverflowError => "int too large to convert to float"
  | ValueError => "height and width must be > 0"
  | IndexError => "list index out of range"
  | FileNotFoundError => "No such file or directory"
  | ExternalError tag => tag
  end.

Record NamedTemporaryFile := { name : string }.

Section Batch.

Variable env : Env.

(** [tempfile.NamedTemporaryFile(delete=False, suffix=".zip")]: a new,
    empty file that stays on disk. *)
Definition NamedTemporaryFile_new : M NamedTemporaryFile :=
  fun w => (Ok {| name := temp_zip_name env |},
            {| files := <[temp_zip_name env := Blank]> (files w);
               directories := directories w;
               console := console w |}).

(** [with tempfile.TemporaryDirectory() as temp_dir: body]: a new, empty
    directory, removed with its content when the block is left, whether
    by its end or by an exception. *)
Definition with_TemporaryDirectory {A} (body : string -> M A) : M A :=
  fun w =>
    let temp_dir := temp_dir_name env in
    let w1 := {| files := files w;
                 directories := <[temp_dir := ∅]> (directories w);
                 console := console w |} in
    match body temp_dir w1 with
    | (r, w2) => (r, {| files := files w2;
                        directories := delete temp_dir (directories w2);
                        console := console w2 |})
    end.

(** [image.save(os.path.join(directory, filename), "PNG")]. *)
Definition save (image : Image) (directory filename : string) : M unit :=
  fun w =>
    match save_fault env directory filename image with
    | Some e => (Raise e, w)
    | None =>
        match directories w !! directory with
        | Some d => (Ok tt, {| files := files w;
                               directories := <[directory := <[filename := image]> d]>
                                                (directories w);
                               console := console w |})
        | None => (Raise FileNotFoundError, w)
        end
    end.

Definition print (line : string) : M unit :=
  fun w => (Ok tt, {| files := files w;
                      directories := directories w;
                      console := console w ++ [line] |}).

(** The [files] that [os.walk(directory)] yields for a directory without
    subdirectories; nothing for a directory that does not exist. *)
Definition os_walk_files (directory : string) : M (list string) :=
  fun w => (Ok (match directories w !! directory with
                | Some d => (map_to_list d).*1
                | None => []
                end), w).

(** [zipfile.ZipFile(path, 'w', zipfile.ZIP_DEFLATED)]: the file becomes
    an archive without members. *)
Definition ZipFile_open (path : string) : M unit :=
  fun w =>
    match zip_open_fault env path with
    | Some e => (Raise e, w)
    | None => (Ok tt, {| files := <[path := ZipArchive []]> (files w);
                         directories := directories w;
                         console := console w |})
    end.

(** [zipf.write(os.path.join(directory, file), arcname=arcname)]. *)
Definition ZipFile_write (path directory file arcname : string) : M unit :=
  fun w =>
    match zip_write_fault env arcname with
    | Some e => (Raise e, w)
    | None =>
        match directories w !! directory ≫= (.!! file), files w !! path with
        | Some image, Some (ZipArchive members) =>
            (Ok tt, {| files := <[path := ZipArchive (members ++ [(arcname, image)])]> (files w);
                       directories := directories w;
                       console := console w |})
        | _, _ => (Raise FileNotFoundError, w)
        end
    end.

(** [os.remove(path)]. *)
Definition os_remove (path : string) : M unit :=
  fun w =>
    match files w !! path with
    | Some _ => (Ok tt, {| files := delete path (files w);
                           directories := directories w;
                           console := console w |})
    | None => (Raise FileNotFoundError, w)
    end.

(** Lines 106-115: every input is decoded, processed and saved; an error
    on one input is printed and the loop goes on. *)
Definition stage_inputs (interface : HiInterface) (temp_dir : string)
    (input_paths : list string) : M unit :=
  for_each input_paths (fun input_path =>
    try_except
      (img ← lift (Image_open env input_path);
       processed ← lift (process_image env img interface);
       let filename := Path.stem input_path +:+ "_processed.png" in
       save processed temp_dir filename)
      (fun e => print ("Error processing " +:+ input_path +:+ ": " +:+ exn_str e))).

(** Lines 118-124: the archive is opened for writing and receives every
    file of the directory under its own name. *)
Definition write_archive (zip_path temp_dir : string) : M unit :=
  _ ← ZipFile_open zip_path;
  files ← os_walk_files temp_dir;
  for_each files (fun file => ZipFile_write zip_path temp_dir file file).

(** [_process_files], lines 97-133. *)
Definition _process_files (input_paths : list string) (use_gpu : bool)
    : M NamedTemporaryFile :=
  let interface := initialize_interface env use_gpu in
  temp_zip ← NamedTemporaryFile_new;
  try_finally
    (try_except
       (_ ← with_TemporaryDirectory (fun temp_dir =>
              _ ← stage_inputs interface temp_dir input_paths;
              write_archive (name temp_zip) temp_dir);
        mret temp_zip)
       (fun e => _ ← os_remove (name temp_zip); raise e))
    (mret tt).

End Batch.

(** ** The observable

    [rx.of(input_paths).pipe(ops.map(f))] sends a subscriber the value of
    [f] and then the completion, or the error that [f] raised and nothing
    after it. *)

Inductive Notification :=
  | OnNext (value : NamedTemporaryFile)
  | OnError (error : exn)
  | OnCompleted.

(** [process_files], lines 92-95 of [background_remover.py]: what a
    subscription to the observable runs and receives. *)
Definition process_files (env : Env) (input_paths : list string) (use_gpu : bool)
    : World -> list Notification * World :=
  fun w =>
    match _process_files env input_paths use_gpu w with
    | (Ok temp_zip, w') => ([OnNext temp_zip; OnCompleted], w')
    | (Raise e, w') => ([OnError e], w')
    end.

(** ** The application window

    [FileUploaderApp] of [app.py]: the attributes that its event handlers
    read and write, and the handlers. Geometry, fonts and colours are left
    out. *)

Module FileUploaderApp.

Inductive Dialog :=
  | showinfo (title message : string)
  | showwarning (title message : string)
  | showerror (title message : string).

Inductive WidgetState := normal | disabled.

(** The subscription that [subscribe] returns. *)
Record Disposable := { is_disposed : bool }.

Record State := {
  valid_files : list string;
  (** the lines of [file_listbox] *)
  file_listbox : list string;
  current_zip_path : option NamedTemporaryFile;
  background_process : option Disposable;
  (** the [BooleanVar] behind the checkbox *)
  use_gpu : bool;
  (** the state of [browse_button], [submit_button] and [gpu_checkbox] *)
  controls : WidgetState;
  (** the attribute [disabled_overlay]: absent, or a label that is placed
      ([true]) or destroyed ([false]) *)
  disabled_overlay : option bool;
  (** whether [download_frame] is placed *)
  download_frame_placed : bool;
  (** whether [root.destroy()] was called *)
  destroyed : bool;
  (** the dialogs shown so far *)
  messagebox : list Dialog
}.

(** What the handlers take from the operating system. *)
Record Desktop := {
  (** [os.path.normpath] *)
  normpath : string -> string;
  (** [os.path.basename] *)
  basename : string -> string;
  (** [str.lower] *)
  lower : string -> string;
  (** the error, if any, of [shutil.copy2(src, dst)] *)
  copy2_fault : string -> string -> option exn
}.

(** [__init__], lines 13-27. *)
Definition init : State :=
  {| valid_files := [];
     file_listbox := [];
     current_zip_path := None;
     background_process := None;
     use_gpu := false;
     controls := normal;
     disabled_overlay := None;
     download_frame_placed := false;
     destroyed := false;
     messagebox := [] |}.

Definition show (dialog : Dialog) (app : State) : State :=
  {| valid_files := valid_files app;
     file_listbox := file_listbox app;
     current_zip_path := current_zip_path app;
     background_process := background_process app;
     use_gpu := use_gpu app;
     controls := controls app;
     disabled_overlay := disabled_overlay app;
     download_frame_placed := download_frame_placed app;
     destroyed := destroyed app;
     messagebox := messagebox app ++ [dialog] |}.

(** [s.endswith(suffix)]. *)
Definition endswith (s suffix : string) : bool :=
  let n := String.length s in
  let k := String.length suffix in
  (k <=? n)%nat && bool_decide (substring (n - k) k s = suffix).

Definition supported_file_types : list string := [".png"; ".jpeg"; ".jpg"; ".heic"].

Section Handlers.

Variable desktop : Desktop.

(** [clean_path.lower().endswith(self.supported_file_types)]. *)
Definition supported (clean_path : string) : bool :=
  existsb (endswith (lower desktop clean_path)) supported_file_types.

(** [set_ui_state], lines 139-162. *)
Definition set_ui_state (processing : bool) (app : State) : State :=
  {| valid_files := valid_files app;
     file_listbox := file_listbox app;
     current_zip_path := current_zip_path app;
     background_process := background_process app;
     use_gpu := use_gpu app;
     controls := if processing then disabled else normal;
     disabled_overlay :=
       if processing then
         match disabled_overlay app with
         | None => Some true
         | Some placed => Some placed
         end
       else
         match disabled_overlay app with
         | None => None
         | Some _ => Some false
         end;
     download_frame_placed := download_frame_placed app;
     destroyed := destroyed app;
     messagebox := messagebox app |}.

(** One round of the loop of [add_files], lines 181-191. *)
Definition add_file (existing_files : list string) (app : State) (path : string) : State :=
  let clean_path := normpath desktop path in
  if supported clean_path then
    if bool_decide (clean_path ∈ existing_files) then app
    else {| valid_files := valid_files app ++ [clean_path];
            file_listbox := file_listbox app ++ [basename desktop clean_path];
            current_zip_path := current_zip_path app;
            background_process := background_process app;
            use_gpu := use_gpu app;
            controls := controls app;
            disabled_overlay := disabled_overlay app;
            download_frame_placed := download_frame_placed app;
            destroyed := destroyed app;
            messagebox := messagebox app |}
  else show (showwarning "Unsupported File Type"
               ("The file '" +:+ basename desktop clean_path +:+ "' is not supported."))
            app.

(** [add_files], lines 178-191: [existing_files] is taken once, before the
    loop. *)
Definition add_files (file_paths : list string) (app : State) : State :=
  let existing_files := valid_files app in
  foldl (add_file existing_files) app file_paths.

(** [browse_files], lines 164-171, for the answer of the file dialog. *)
Definition browse_files (file_paths : list string) (app : State) : State :=
  match file_paths with
  | [] => app
  | _ => add_files file_paths app
  end.

(** [handle_drop], lines 173-176, for the paths of the event. *)
Definition handle_drop (file_paths : list string) (app : State) : State :=
  add_files file_paths app.

(** [process_files], lines 193-215: the new state and, when a batch is
    started, the arguments that the observable is built from. Building the
    observable and subscribing to it on the thread pool run nothing of the
    batch in this thread and are taken not to raise. *)
Definition process_files (app : State) : State * option (list string * bool) :=
  match valid_files app with
  | [] => (show (showinfo "No Files" "Please select files first.") app, None)
  | _ =>
      let app := set_ui_state true app in
      let app := show (showinfo "Processing Started"
                         ("Processing " +:+ pretty (length (valid_files app))
                          +:+ " file(s). Please hold on to your tits..."))
                      app in
      ({| valid_files := valid_files app;
          file_listbox := file_listbox app;
          current_zip_path := current_zip_path app;
          background_process := Some {| is_disposed := false |};
          use_gpu := use_gpu app;
          controls := controls app;
          disabled_overlay := disabled_overlay app;
          download_frame_placed := download_frame_placed app;
          destroyed := destroyed app;
          messagebox := messagebox app |},
       Some (valid_files app, use_gpu app))
  end.

(** [enable_download], lines 225-232. *)
Definition enable_download (zip_path : NamedTemporaryFile) (app : State) : State :=
  show (showinfo "Processing Complete" "Files ready! Click the download button to save.")
    {| valid_files := valid_files app;
       file_listbox := file_listbox app;
       current_zip_path := Some zip_path;
       background_process := background_process app;
       use_gpu := use_gpu app;
       controls := controls app;
       disabled_overlay := disabled_overlay app;
       download_frame_placed := true;
       destroyed := destroyed app;
       messagebox := messagebox app |}.

(** [os.path.exists(path)]. *)
Definition os_path_exists (path : string) : M bool :=
  fun w => (Ok (bool_decide (is_Some (files w !! path))), w).

(** [shutil.copy2(src, dst)]. *)
Definition copy2 (src dst : string) : M unit :=
  fun w =>
    match copy2_fault desktop src dst with
    | Some e => (Raise e, w)
    | None =>
        match files w !! src with
        | Some file => (Ok tt, {| files := <[dst := file]> (files w);
                                  directories := directories w;
                                  console := console w |})
        | None => (Raise FileNotFoundError, w)
        end
    end.

(** [reset], lines 254-266. *)
Definition reset (app : State) : M State :=
  let background_process :=
    match background_process app with
    | Some _ => Some {| is_disposed := true |}
    | None => None
    end in
  _ ← match current_zip_path app with
      | Some zip =>
          present ← os_path_exists (name zip);
          if (present : bool) then os_remove (name zip) else mret tt
      | None => mret tt
      end;
  let app := set_ui_state false
               {| valid_files := [];
                  file_listbox := [];
                  current_zip_path := None;
                  background_process := background_process;
                  use_gpu := use_gpu app;
                  controls := controls app;
                  disabled_overlay := disabled_overlay app;
                  download_frame_placed := false;
                  destroyed := destroyed app;
                  messagebox := messagebox app |} in
  mret {| valid_files := valid_files app;
          file_listbox := file_listbox app;
          current_zip_path := current_zip_path app;
          background_process := FileUploaderApp.background_process app;
          use_gpu := false;
          controls := controls app;
          disabled_overlay := disabled_overlay app;
          download_frame_placed := download_frame_placed app;
          destroyed := destroyed app;
          messagebox := messagebox app |}.

(** [handle_error], lines 217-223. *)
Definition handle_error (error : exn) (app : State) : M State :=
  reset (show (showerror "Processing Error"
                 ("An error occurred: " +:+ exn_str error
                  +:+ String "010"%char "Please try again."))
              app).

(** [download_files], lines 234-252, for the answer of the save dialog
    (empty when the user cancels). *)
Definition download_files (save_path : string) (app : State) : M State :=
  let unavailable := show (showerror "Error" "No files available for download.") app in
  match current_zip_path app with
  | None => mret unavailable
  | Some zip =>
      present ← os_path_exists (name zip);
      if negb present then mret unavailable
      else if bool_decide (save_path = "") then mret app
      else
        try_except
          (_ ← copy2 (name zip) save_path;
           reset (show (showinfo "Success" "Files downloaded successfully!") app))
          (fun e => mret (show (showerror "Download Error"
                                  ("Failed to save files: " +:+ exn_str e))
                               app))
  end.

(** [on_close], lines 268-271. *)
Definition on_close (app : State) : M State :=
  app ← reset app;
  mret {| valid_files := valid_files app;
          file_listbox := file_listbox app;
          current_zip_path := current_zip_path app;
          background_process := background_process app;
          use_gpu := use_gpu app;
          controls := controls app;
          disabled_overlay := disabled_overlay app;
          download_frame_placed := download_frame_placed app;
          destroyed := true;
          messagebox := messagebox app |}.

(** What the main loop dispatches: the answers of the dialogs, the clicks,
    and the callbacks that the subscription of lines 206-212 schedules. *)
Inductive Event :=
  | Browse (file_paths : list string)
  | Drop (file_paths : list string)
  | Tick (value : bool)
  | Submit
  | ClearAll
  | Download (save_path : string)
  | Notify (notification : Notification)
  | Close.

Definition handle (event : Event) (app : State) : M State :=
  match event with
  | Browse file_paths => mret (browse_files file_paths app)
  | Drop file_paths => mret (handle_drop file_paths app)
  | Tick value =>
      mret {| valid_files := valid_files app;
              file_listbox := file_listbox app;
              current_zip_path := current_zip_path app;
              background_process := background_process app;
              use_gpu := value;
              controls := controls app;
              disabled_overlay := disabled_overlay app;
              download_frame_placed := download_frame_placed app;
              destroyed := destroyed app;
              messagebox := messagebox app |}
  | Submit => mret (process_files app).1
  | ClearAll => reset app
  | Download save_path => download_files save_path app
  | Notify (OnNext zip_path) => mret (enable_download zip_path app)
  | Notify (OnError error) => handle_error error app
  | Notify OnCompleted => mret (set_ui_state false app)
  | Close => on_close app
  end.

(** [root.mainloop()] over the events of a session: it ends with the
    events, or when the window is destroyed. *)
Fixpoint mainloop (events : list Event) (app : State) : M State :=
  match events with
  | [] => mret app
  | event :: events =>
      if destroyed app then mret app
      else app ← handle event app; mainloop events app
  end.

End Handlers.

End FileUploaderApp.

(** ** Vocabulary of the properties *)

(** *** The value of a float *)

Module Binary64.

Local Open Scope R_scope.

Definition bpow (e : Z) : R := powerRZ 2 e.

(** The real number that a float stands for (0 for the special values). *)
Definition F2R (f : PyFloat.float) : R :=
  match f with
  | S754_finite s m e => (if s then -1 else 1) * IZR (Zpos m) * bpow e
  | _ => 0
  end.

(** The unit roundoff bound used throughout: [2^-52]. *)
Definition eps : R := / 4503599627370496.

(** [v] is a binary64 rounding of [t]: within one unit in the last place
    of a 53-bit mantissa. *)
Definition approx (v t : R) : Prop := v * (1 - eps) <= t <= v * (1 + eps).

(** A positive float with a 53-bit mantissa. *)
Definition normal (f : PyFloat.float) : Prop :=
  exists (m : positive) (e : Z),
    f = S754_finite false m e /\ (2 ^ 52 <= Zpos m < 2 ^ 53)%Z.

End Binary64.

(** *** Transparency *)

Definition fully_transparent (image : Image) : Prop :=
  has_alpha (mode image) = true /\
  Forall (Forall (fun p : Pixel => alpha_of (mode image) p = 0)) (data image).

Definition fully_opaque (image : Image) : Prop :=
  Forall (Forall (fun p : Pixel => alpha_of (mode image) p = 255)) (data image).

(** The pixel at column [x] of row [y] exists and counts as data for
    [getbbox]. *)
Definition pixel_data (image : Image) (x y : nat) : Prop :=
  exists p, getpixel image x y = Some p /\ has_data (mode image) p = true.

(** The box with the corners [(l, t)] and [(r, b)], both inside, is the
    bounding box of the data of an image: all data lies in it and each of
    its four edges touches data. *)
Definition bbox_fits (image : Image) (l t r b : nat) : Prop :=
  (forall x y, pixel_data image x y -> (l <= x <= r)%nat /\ (t <= y <= b)%nat) /\
  (exists x, pixel_data image x t) /\ (exists x, pixel_data image x b) /\
  (exists y, pixel_data image l y) /\ (exists y, pixel_data image r y).

(** *** What the batch does with one input *)

Section Items.

Variable env : Env.

(** What one input yields: decoded and processed, or the error. *)
Definition item_result (interface : HiInterface) (input_path : string) : result Image :=
  img ← Image_open env input_path; process_image env img interface.

Definition output_name (input_path : string) : string :=
  Path.stem input_path +:+ "_processed.png".

(** An input succeeds when it is decoded, processed and saved. *)
Definition item_ok (interface : HiInterface) (temp_dir input_path : string) : bool :=
  match item_result interface input_path with
  | Ok processed =>
      match save_fault env temp_dir (output_name input_path) processed with
      | None => true
      | Some _ => false
      end
  | Raise _ => false
  end.

(** The staging directory after one more input. *)
Definition stage_step (interface : HiInterface) (temp_dir : string)
    (d : gmap string Image) (input_path : string) : gmap string Image :=
  match item_result interface input_path with
  | Ok processed =>
      match save_fault env temp_dir (output_name input_path) processed with
      | None => <[output_name input_path := processed]> d
      | Some _ => d
      end
  | Raise _ => d
  end.

(** The error, if any, that the loop catches for one input. *)
Definition item_error (interface : HiInterface) (temp_dir input_path : string)
    : option exn :=
  match item_result interface input_path with
  | Ok processed => save_fault env temp_dir (output_name input_path) processed
  | Raise e => Some e
  end.

(** The line that is printed for an input that failed, line 114. *)
Definition error_line (input_path : string) (e : exn) : string :=
  "Error processing " +:+ input_path +:+ ": " +:+ exn_str e.

(** The world in which the writing of the archive starts: the temporary
    file and directory exist and every input has been staged. *)
Definition archive_start (input_paths : list string) (use_gpu : bool) (w : World)
    : World :=
  (stage_inputs env (initialize_interface env use_gpu) (temp_dir_name env) input_paths
     {| files := <[temp_zip_name env := Blank]> (files w);
        directories := <[temp_dir_name env := ∅]> (directories w);
        console := console w |}).2.

End Items.

(** *** The subject on the canvas *)

(** Lines 77-81 of [process_image]: the output of the model, trimmed,
    rotated and resized, as it is pasted on the canvas. *)
Definition resized_subject (env : Env) (bg_removed : Image) : result Image :=
  let rotated := auto_rotate (trim_transparency bg_removed) in
  target_size ← calculate_target_size (size rotated);
  resize env rotated target_size.

(** *** Sample images and environments *)

Definition transparent_2x2 : Image :=
  {| mode := RGBA; width := 2; height := 2;
     data := [[[0; 0; 0; 0]; [17; 34; 51; 0]]; [[255; 255; 255; 0]; [0; 0; 0; 0]]];
     orientation := None |}.

(** A black column beside a white one, in a mode without alpha: every pixel
    is opaque, and the black column is cut off. *)
Definition black_white_rgb : Image :=
  {| mode := RGB; width := 2; height := 1;
     data := [[[0; 0; 0]; [255; 255; 255]]];
     orientation := None |}.

Definition opaque_2x1 : Image :=
  {| mode := RGBA; width := 2; height := 1;
     data := [[[0; 0; 0; 255]; [255; 255; 255; 255]]];
     orientation := None |}.

(** An environment without faults: the model returns its input, the
    resampling filter paints opaque black. *)
Definition quiet_env : Env :=
  {| cuda_is_available := false;
     carvekit := fun _ images => Ok images;
     lanczos := fun _ w h => replicate (Z.to_nat h) (replicate (Z.to_nat w) [0; 0; 0; 255]);
     Image_open := fun _ => Ok opaque_2x1;
     save_fault := fun _ _ _ => None;
     zip_open_fault := fun _ => None;
     zip_write_fault := fun _ => None;
     temp_zip_name := "/tmp/tmpk3v9.zip";
     temp_dir_name := "/tmp/tmpw41d" |}.

(** An environment in which the archive cannot be written to. *)
Definition full_disk_env : Env :=
  {| cuda_is_available := false;
     carvekit := fun _ images => Ok images;
     lanczos := fun _ w h => replicate (Z.to_nat h) (replicate (Z.to_nat w) [0; 0; 0; 255]);
     Image_open := fun _ => Raise (ExternalError "cannot identify image file");
     save_fault := fun _ _ _ => None;
     zip_open_fault := fun _ => Some (ExternalError "No space left on device");
     zip_write_fault := fun _ => None;
     temp_zip_name := "/tmp/tmpk3v9.zip";
     temp_dir_name := "/tmp/tmpw41d" |}.

(** An image that its orientation tag wants turned. *)
Definition sideways_2x1 : Image :=
  {| mode := RGBA; width := 2; height := 1;
     data := [[[10; 20; 30; 255]; [40; 50; 60; 255]]];
     orientation := Some 6 |}.

(** An opaque strip one pixel wide and 2401 pixels high. *)
Definition sliver_1x2401 : Image :=
  {| mode := RGBA; width := 1; height := 2401;
     data := replicate 2401 [[0; 0; 0; 255]];
     orientation := None |}.

(** What the resampling filter of [quiet_env] makes of [opaque_2x1], turned
    upright. *)
Definition black_1200x2400 : Image :=
  {| mode := RGBA; width := 1200; height := 2400;
     data := replicate (Z.to_nat 2400) (replicate (Z.to_nat 1200) [0; 0; 0; 255]);
     orientation := None |}.

(** Lower case for the letters of ASCII. *)
Definition ascii_lower (c : ascii) : ascii :=
  let n := nat_of_ascii c in
  if (65 <=? n)%nat && (n <=? 90)%nat then ascii_of_nat (n + 32) else c.

Fixpoint string_lower (s : string) : string :=
  match s with
  | EmptyString => EmptyString
  | String c s' => String (ascii_lower c) (string_lower s')
  end.

(** A POSIX system on which copying never fails, for ASCII paths that are
    already normal. *)
Definition posix_desktop : FileUploaderApp.Desktop :=
  {| FileUploaderApp.normpath := fun path => path;
     FileUploaderApp.basename := Path.name;
     FileUploaderApp.lower := string_lower;
     FileUploaderApp.copy2_fault := fun _ _ => None |}.

(** Two different files with the same stem. *)
Definition same_stem_inputs : list string := ["/photos/a/x.png"; "/photos/b/x.png"].


(** * Properties *)

(** ** The sizing rule *)

Lemma rbind_Ok {A B} (r : result A) (k : A -> result B) (b : B) :
  r ≫= k = Ok b -> exists a, r = Ok a /\ k a = Ok b.
Proof. destruct r as [a|e]; [eauto | discriminate]. Qed.

Lemma Ok_inj {A} (a b : A) : Ok a = Ok b -> a = b.
Proof. intros H. congruence. Qed.

Lemma int_truediv_zero (a : Z) : PyFloat.int_truediv a 0 = Raise ZeroDivisionError.
Proof. reflexivity. Qed.

Lemma int_truediv_Ok_nonzero (a b : Z) (q : PyFloat.float) :
  PyFloat.int_truediv a b = Ok q -> b <> 0.
Proof. intros H ->. discriminate. Qed.

(** C6: the rule can upscale: an input inside the 1400 x 2400 box for which
    a returned side is strictly larger than the original one. *)
Theorem calculate_target_size_can_upscale :
  exists w h w' h' : Z,
    0 < w <= 1400 /\ 0 < h <= 2400 /\
    calculate_target_size (w, h) = Ok (w', h') /\ (w < w' \/ h < h').
Proof.
  exists 700, 1200, 1400, 2400.
  split; [lia|]. split; [lia|]. split; [vm_compute; reflexivity | lia].
Qed.

(** ** Binary64 rounding

    Facts about [binary_round_aux], the rounding step shared by division,
    multiplication and conversion, at precision 53. *)

Module Rounding.

Import PyFloat Binary64.

Lemma digits2_pos_size (p : positive) : digits2_pos p = Pos.size p.
Proof. induction p; simpl; congruence. Qed.

Lemma Zdigits2_log2 (m : Z) : 0 < m -> Zdigits2 m = Z.log2 m + 1.
Proof.
  destruct m as [|p|p]; try lia. intros _. simpl.
  rewrite digits2_pos_size. destruct p; simpl; lia.
Qed.

Lemma Zdigits2_bounds (m : Z) :
  0 < m -> 2 ^ (Zdigits2 m - 1) <= m < 2 ^ Zdigits2 m.
Proof.
  intros Hm. rewrite Zdigits2_log2 by lia.
  replace (Z.log2 m + 1 - 1) with (Z.log2 m) by lia.
  apply (Z.log2_spec m Hm).
Qed.

Lemma Zdigits2_unique (m d : Z) :
  2 ^ (d - 1) <= m < 2 ^ d -> 0 < d -> Zdigits2 m = d.
Proof.
  intros H Hd.
  assert (0 < m) by (pose proof (Z.pow_pos_nonneg 2 (d - 1)); lia).
  rewrite Zdigits2_log2 by lia.
  rewrite (Z.log2_unique m (d - 1)); [lia | lia |].
  replace (Z.succ (d - 1)) with d by lia. exact H.
Qed.

Lemma Zdigits2_nonneg (m : Z) : 0 <= Zdigits2 m.
Proof. destruct m; simpl; lia. Qed.

Lemma Zdigits2_pos (m : Z) : 0 < m -> 1 <= Zdigits2 m.
Proof. destruct m; simpl; lia. Qed.

Lemma Zdigits2_le (m n : Z) : 0 < m < 2 ^ n -> 0 <= n -> Zdigits2 m <= n.
Proof.
  intros Hm Hn. destruct (Z_le_gt_dec (Zdigits2 m) n) as [|Hgt]; [assumption|].
  pose proof (Zdigits2_bounds m ltac:(lia)).
  assert (2 ^ n <= 2 ^ (Zdigits2 m - 1)) by (apply Z.pow_le_mono_r; lia).
  lia.
Qed.

Lemma shr_1_m (r : shr_record) : 0 <= shr_m r -> shr_m (shr_1 r) = shr_m r / 2.
Proof.
  destruct r as [m r s]. simpl. intros Hm.
  destruct m as [|[p|p|]|p]; simpl; try lia; try reflexivity.
  - apply Z.div_unique with 1; lia.
  - apply Z.div_unique with 0; lia.
Qed.

Lemma iter_pos_shr_m (p : positive) (r : shr_record) :
  0 <= shr_m r -> shr_m (SpecFloat.iter_pos shr_1 p r) = shr_m r / 2 ^ Zpos p.
Proof.
  revert r. induction p as [p IH|p IH|]; intros r Hr; simpl SpecFloat.iter_pos.
  - assert (H1 : 0 <= shr_m (shr_1 r)) by (rewrite shr_1_m by lia; apply Z.div_pos; lia).
    assert (H2 : 0 <= shr_m (SpecFloat.iter_pos shr_1 p (shr_1 r)))
      by (rewrite IH by lia; apply Z.div_pos; lia).
    rewrite IH, IH, shr_1_m by lia.
    assert (Hp : 0 < 2 ^ Zpos p) by (apply Z.pow_pos_nonneg; lia).
    rewrite !Z.div_div by lia. f_equal.
    replace (Zpos p~1) with (1 + Zpos p + Zpos p) by lia.
    rewrite !Z.pow_add_r, Z.pow_1_r by lia. lia.
  - assert (H2 : 0 <= shr_m (SpecFloat.iter_pos shr_1 p r))
      by (rewrite IH by lia; apply Z.div_pos; lia).
    rewrite IH, IH by lia.
    assert (Hp : 0 < 2 ^ Zpos p) by (apply Z.pow_pos_nonneg; lia).
    rewrite !Z.div_div by lia. f_equal.
    replace (Zpos p~0) with (Zpos p + Zpos p) by lia.
    rewrite !Z.pow_add_r by lia. lia.
  - rewrite shr_1_m by lia. reflexivity.
Qed.

Lemma fexp_eq (x : Z) : fexp prec emax x = Z.max (x - 53) (-1074).
Proof. reflexivity. Qed.

Lemma shr_record_of_loc_m (m : Z) (l : location) : shr_m (shr_record_of_loc m l) = m.
Proof. destruct l as [|[]]; reflexivity. Qed.

Lemma shr_fexp_spec (m e : Z) (l : location) :
  0 <= m ->
  let n := Z.max 0 (fexp prec emax (Zdigits2 m + e) - e) in
  shr_m (shr_fexp prec emax m e l).1 = m / 2 ^ n /\
  (shr_fexp prec emax m e l).2 = e + n.
Proof.
  intros Hm n. subst n. unfold shr_fexp, shr.
  destruct (fexp prec emax (Zdigits2 m + e) - e) as [|p|p]; simpl fst; simpl snd.
  - rewrite shr_record_of_loc_m. simpl. rewrite Z.div_1_r. lia.
  - rewrite iter_pos_shr_m by (rewrite shr_record_of_loc_m; lia).
    rewrite shr_record_of_loc_m.
    replace (Z.max 0 (Zpos p)) with (Zpos p) by lia. split; reflexivity.
  - rewrite shr_record_of_loc_m.
    replace (Z.max 0 (Zneg p)) with 0 by lia. simpl. rewrite Z.div_1_r. lia.
Qed.

Lemma round_nearest_even_cases (m : Z) (l : location) :
  round_nearest_even m l = m \/ round_nearest_even m l = m + 1.
Proof.
  destruct l as [|[]]; simpl; auto. destruct (Z.even m); auto.
Qed.

(** Rounding a mantissa of at least 53 bits in the normal range: the
    result is a normal number one unit in the last place around the
    mantissa. *)
Lemma binary_round_aux_normal (s : bool) (mx ex : Z) (lx : location) :
  0 < mx -> 53 <= Zdigits2 mx ->
  -1074 <= Zdigits2 mx + ex - 53 -> Zdigits2 mx + ex <= 1023 ->
  exists (m : positive) (k : Z),
    binary_round_aux prec emax s mx ex lx = S754_finite s m (ex + k) /\
    (k = Zdigits2 mx - 53 \/ k = Zdigits2 mx - 52) /\
    2 ^ 52 <= Zpos m < 2 ^ 53 /\
    (Zpos m - 1) * 2 ^ k <= mx /\ mx + 1 <= (Zpos m + 1) * 2 ^ k.
Proof.
  intros Hmx Hd Hlo Hhi.
  set (d := Zdigits2 mx) in *.
  unfold binary_round_aux.
  destruct (shr_fexp_spec mx ex lx ltac:(lia)) as [Hm1 He1].
  destruct (shr_fexp prec emax mx ex lx) as [r1 e1]. simpl in Hm1, He1.
  fold d in Hm1, He1. rewrite fexp_eq in Hm1, He1.
  replace (Z.max 0 (Z.max (d + ex - 53) (-1074) - ex)) with (d - 53) in Hm1, He1 by lia.
  set (n1 := d - 53) in *.
  assert (Hpn : 0 < 2 ^ n1) by (apply Z.pow_pos_nonneg; lia).
  pose proof (Zdigits2_bounds mx Hmx) as Hb. fold d in Hb.
  assert (Hsplit : 2 ^ (d - 1) = 2 ^ 52 * 2 ^ n1 /\ 2 ^ d = 2 ^ 53 * 2 ^ n1).
  { split; rewrite <- Z.pow_add_r by lia; f_equal; lia. }
  destruct Hsplit as [Hs1 Hs2].
  set (m1 := shr_m r1) in *.
  assert (Hm1lo : m1 * 2 ^ n1 <= mx) by (rewrite Hm1, Z.mul_comm; apply Z.mul_div_le; lia).
  assert (Hm1hi : mx < (m1 + 1) * 2 ^ n1).
  { rewrite Hm1, Z.mul_comm.
    pose proof (Z.mul_succ_div_gt mx (2 ^ n1) Hpn). lia. }
  assert (Hm1b : 2 ^ 52 <= m1 < 2 ^ 53) by nia.
  set (m2 := round_nearest_even m1 (loc_of_shr_record r1)).
  assert (Hm2 : m2 = m1 \/ m2 = m1 + 1) by apply round_nearest_even_cases.
  destruct (shr_fexp_spec m2 e1 loc_Exact ltac:(lia)) as [Hm3 He3].
  destruct (shr_fexp prec emax m2 e1 loc_Exact) as [r3 e3]. simpl in Hm3, He3.
  rewrite fexp_eq in Hm3, He3.
  destruct (Z.eq_dec m2 (2 ^ 53)) as [Hc|Hc].
  - assert (Hd2 : Zdigits2 m2 = 54) by (apply Zdigits2_unique; [rewrite Hc; simpl; lia | lia]).
    rewrite Hd2 in Hm3, He3.
    replace (Z.max 0 (Z.max (54 + e1 - 53) (-1074) - e1)) with 1 in Hm3, He3 by lia.
    rewrite Hc in Hm3. change (2 ^ 53 / 2 ^ 1) with (2 ^ 52) in Hm3.
    rewrite Hm3. change (2 ^ 52) with (Zpos (2 ^ 52)%positive).
    exists (2 ^ 52)%positive, (n1 + 1).
    replace (e3 <=? emax - prec) with true by (symmetry; apply Z.leb_le; unfold emax, prec; lia).
    split; [f_equal; lia|]. split; [right; lia|].
    split; [simpl; lia|].
    rewrite Z.pow_add_r, Z.pow_1_r by lia.
    change (Zpos (2 ^ 52)%positive) with (2 ^ 52). nia.
  - assert (Hd2 : Zdigits2 m2 = 53) by (apply Zdigits2_unique; [simpl; lia | lia]).
    rewrite Hd2 in Hm3, He3.
    replace (Z.max 0 (Z.max (53 + e1 - 53) (-1074) - e1)) with 0 in Hm3, He3 by lia.
    rewrite Z.pow_0_r, Z.div_1_r in Hm3. rewrite Hm3.
    destruct m2 as [|m|m] eqn:Em2; try (simpl in *; lia).
    exists m, n1.
    replace (e3 <=? emax - prec) with true by (symmetry; apply Z.leb_le; unfold emax, prec; lia).
    split; [f_equal; lia|]. split; [left; lia|].
    split; [simpl in *; lia|]. nia.
Qed.

(** A mantissa of exactly 53 bits is kept as it is. *)
Lemma binary_round_aux_exact (s : bool) (m : positive) (e : Z) :
  Zdigits2 (Zpos m) = 53 -> -1074 <= e <= 971 ->
  binary_round_aux prec emax s (Zpos m) e loc_Exact = S754_finite s m e.
Proof.
  intros Hd He. unfold binary_round_aux, shr_fexp.
  rewrite Hd, fexp_eq.
  replace (Z.max (53 + e - 53) (-1074) - e) with 0 by lia.
  simpl shr. cbv iota. simpl round_nearest_even. unfold shr_fexp.
  rewrite Hd, fexp_eq.
  replace (Z.max (53 + e - 53) (-1074) - e) with 0 by lia.
  simpl.
  replace (e <=? emax - prec) with true
    by (symmetry; apply Z.leb_le; unfold emax, prec; lia).
  reflexivity.
Qed.

Lemma Pos_iter_xO (p n : positive) : Zpos (Pos.iter xO p n) = Zpos p * 2 ^ Zpos n.
Proof.
  induction n as [|n IH] using Pos.peano_ind.
  - simpl. lia.
  - rewrite Pos.iter_succ, Pos2Z.inj_xO, IH, Pos2Z.inj_succ, Z.pow_succ_r by lia. lia.
Qed.

(** Rounding never overflows when the number is below [2^1023]. *)
Lemma binary_round_aux_not_infinity (s s' : bool) (m e : Z) (l : location) :
  0 <= m -> e <= 970 -> Zdigits2 m + e <= 1023 ->
  binary_round_aux prec emax s m e l <> S754_infinity s'.
Proof.
  intros Hm He Hd. unfold binary_round_aux.
  destruct (shr_fexp_spec m e l Hm) as [Hm1 He1].
  destruct (shr_fexp prec emax m e l) as [r1 e1]. simpl in Hm1, He1.
  rewrite fexp_eq in Hm1, He1.
  set (n1 := Z.max 0 (Z.max (Zdigits2 m + e - 53) (-1074) - e)) in *.
  assert (Hpn : 0 < 2 ^ n1) by (apply Z.pow_pos_nonneg; lia).
  set (m1 := shr_m r1) in *.
  assert (Hm1nn : 0 <= m1) by (rewrite Hm1; apply Z.div_pos; lia).
  set (m2 := round_nearest_even m1 (loc_of_shr_record r1)).
  assert (Hm2 : m2 = m1 \/ m2 = m1 + 1) by apply round_nearest_even_cases.
  destruct (shr_fexp_spec m2 e1 loc_Exact ltac:(lia)) as [Hm3 He3].
  destruct (shr_fexp prec emax m2 e1 loc_Exact) as [r3 e3]. simpl in Hm3, He3.
  rewrite fexp_eq in He3.
  assert (Hd2 : Zdigits2 m2 + e1 <= 1024).
  { destruct (Z.eq_dec m1 0) as [H0|H0].
    - assert (Zdigits2 m2 <= 1) by (destruct Hm2 as [->| ->]; rewrite H0; simpl; lia).
      lia.
    - assert (Hle : m1 * 2 ^ n1 <= m) by (rewrite Hm1, Z.mul_comm; apply Z.mul_div_le; lia).
      assert (Hmpos : 0 < m) by nia.
      pose proof (Zdigits2_bounds m Hmpos) as Hb.
      assert (Hn1 : n1 < Zdigits2 m).
      { apply (Z.pow_lt_mono_r_iff 2); [lia | apply Zdigits2_nonneg | nia]. }
      assert (Hsplit : 2 ^ Zdigits2 m = 2 ^ (Zdigits2 m - n1) * 2 ^ n1)
        by (rewrite <- Z.pow_add_r by lia; f_equal; lia).
      assert (Hm1lt : m1 < 2 ^ (Zdigits2 m - n1)) by nia.
      assert (Zdigits2 m2 <= Zdigits2 m - n1 + 1).
      { apply Zdigits2_le; [|lia].
        rewrite Z.pow_add_r, Z.pow_1_r by lia. lia. }
      lia. }
  destruct (shr_m r3) as [|p|p] eqn:E3.
  - discriminate.
  - replace (e3 <=? emax - prec) with true; [discriminate|].
    symmetry. apply Z.leb_le. unfold emax, prec. lia.
  - discriminate.
Qed.

(** A quotient of a numerator below [2^53] by a non-zero integer is
    never too large for a float. *)
Lemma int_truediv_total (a b : Z) :
  0 < a < 2 ^ 53 -> b <> 0 -> exists q, int_truediv a b = Ok q.
Proof.
  intros Ha Hb. unfold int_truediv.
  replace (b =? 0) with false by (symmetry; apply Z.eqb_neq; lia).
  assert (Hcore : forall (sx : bool) (pb : positive),
            exists q, match binary_round_aux prec emax sx
                              (SFdiv_core_binary prec emax a 0 (Zpos pb) 0).1.1
                              (SFdiv_core_binary prec emax a 0 (Zpos pb) 0).1.2
                              (SFdiv_core_binary prec emax a 0 (Zpos pb) 0).2 with
                      | S754_infinity _ => Raise OverflowError
                      | q => Ok q
                      end = Ok q).
  { intros sx pb.
    set (c := SFdiv_core_binary prec emax a 0 (Zpos pb) 0).
    assert (Hc : 0 <= c.1.1 /\ c.1.2 <= 0 /\ Zdigits2 c.1.1 + c.1.2 <= 53).
    { unfold c, SFdiv_core_binary. rewrite !Z.add_0_r, fexp_eq.
      change (0 - 0) with 0.
      set (e' := Z.min (Z.max (Zdigits2 a - Zdigits2 (Zpos pb) - 53) (-1074)) 0).
      assert (He' : e' <= 0) by (unfold e'; lia).
      replace (0 - e') with (- e') by lia.
      set (m' := match - e' with Zpos _ => Z.shiftl a (- e') | 0 => a | Zneg _ => 0 end).
      assert (Hm' : m' = a * 2 ^ (- e')).
      { unfold m'. destruct (- e') as [|p|p] eqn:E; try lia.
        rewrite Z.shiftl_mul_pow2 by lia. reflexivity. }
      assert (Hq : (Z.div_eucl m' (Zpos pb)).1 = m' / Zpos pb) by reflexivity.
      destruct (Z.div_eucl m' (Zpos pb)) as [q r]. simpl in Hq. simpl.
      assert (Hp : 0 < 2 ^ (- e')) by (apply Z.pow_pos_nonneg; lia).
      assert (Hq0 : 0 <= q) by (rewrite Hq; apply Z.div_pos; nia).
      split; [exact Hq0|]. split; [exact He'|].
      destruct (Z.eq_dec q 0) as [->|Hqn]; [simpl; lia|].
      assert (Hqle : q <= m') by (rewrite Hq; apply Z.div_le_upper_bound; nia).
      assert (Zdigits2 q <= 53 + - e'); [|lia].
      apply Zdigits2_le; [|lia].
      rewrite Z.pow_add_r by lia. nia. }
    destruct Hc as (Hc1 & Hc2 & Hc3).
    destruct (binary_round_aux prec emax sx c.1.1 c.1.2 c.2) as [z|z| |z m e] eqn:E;
      try (eexists; reflexivity).
    exfalso. revert E. apply binary_round_aux_not_infinity; lia. }
  destruct a as [|pa|pa]; try lia.
  destruct b as [|pb|pb]; try lia; simpl exact; unfold SFdiv;
    destruct (Hcore (xorb false false) pb) as [q Hq];
    destruct (Hcore (xorb false true) pb) as [q' Hq'];
    destruct (SFdiv_core_binary prec emax (Zpos pa) 0 (Zpos pb) 0) as [[mz ez] lz];
    simpl in Hq, Hq'; eauto.
Qed.

(** ** Values *)

Local Open Scope R_scope.

Lemma bpow_pos (e : Z) : 0 < bpow e.
Proof. apply powerRZ_lt. lra. Qed.

Lemma bpow_add (a b : Z) : bpow (a + b) = bpow a * bpow b.
Proof. apply powerRZ_add. lra. Qed.

Lemma bpow_IZR (n : Z) : (0 <= n)%Z -> bpow n = IZR (2 ^ n).
Proof.
  intros Hn. unfold bpow.
  rewrite <- (Z2Nat.id n Hn) at 1. rewrite <- pow_powerRZ.
  rewrite pow_IZR, Z2Nat.id by lia. reflexivity.
Qed.

Lemma bpow_neg (n : Z) : bpow (- n) = / bpow n.
Proof. apply powerRZ_neg'. Qed.

Lemma IZR_pow52 : IZR (2 ^ 52) = 4503599627370496.
Proof. reflexivity. Qed.

Lemma binary_round_aux_approx (mx ex : Z) (lx : location) (t : R) :
  (0 < mx)%Z -> (53 <= Zdigits2 mx)%Z ->
  (-1074 <= Zdigits2 mx + ex - 53)%Z -> (Zdigits2 mx + ex <= 1023)%Z ->
  IZR mx * bpow ex <= t <= IZR (mx + 1) * bpow ex ->
  exists (m : positive) (e : Z),
    binary_round_aux prec emax false mx ex lx = S754_finite false m e /\
    (2 ^ 52 <= Zpos m < 2 ^ 53)%Z /\
    (Zdigits2 mx + ex - 53 <= e <= Zdigits2 mx + ex - 52)%Z /\
    approx (IZR (Zpos m) * bpow e) t.
Proof.
  intros Hmx Hd Hlo Hhi Ht.
  destruct (binary_round_aux_normal false mx ex lx Hmx Hd Hlo Hhi)
    as (m & k & Hr & Hk & Hm & Hl & Hu).
  exists m, (ex + k)%Z. split; [exact Hr|]. split; [exact Hm|]. split; [lia|].
  assert (Hk0 : (0 <= k)%Z) by lia.
  rewrite bpow_add, (bpow_IZR k Hk0).
  pose proof (bpow_pos ex) as HP.
  assert (HK : 0 < IZR (2 ^ k)) by (apply IZR_lt, Z.pow_pos_nonneg; lia).
  apply IZR_le in Hl, Hu. rewrite mult_IZR in Hl, Hu.
  rewrite minus_IZR in Hl. rewrite !plus_IZR in Hu.
  destruct Hm as [Hm _]. apply IZR_le in Hm. rewrite IZR_pow52 in Hm.
  set (M := IZR (Zpos m)) in *. set (K := IZR (2 ^ k)) in *.
  set (P := bpow ex) in *. set (X := IZR mx) in *.
  rewrite plus_IZR in Ht. fold X in Ht.
  assert (Hu' : P * K <= M * (P * K) * eps).
  { unfold eps. assert (0 < P * K) by (apply Rmult_lt_0_compat; lra).
    assert (1 <= M * / 4503599627370496) by lra. nra. }
  assert (H1 : (M - 1) * K * P <= X * P) by (apply Rmult_le_compat_r; lra).
  assert (H2 : (X + 1) * P <= (M + 1) * K * P) by (apply Rmult_le_compat_r; lra).
  unfold approx. split; nra.
Qed.

(** The quotient that [SFdiv] hands to the rounding step, for two
    integers: at least 53 bits of [a / b]. *)
Lemma SFdiv_core_binary_int (a b : Z) :
  (0 < a)%Z -> (0 < b)%Z ->
  let s := (53 + Zdigits2 b - Zdigits2 a)%Z in
  (1 <= s <= 1074)%Z ->
  exists l, SFdiv_core_binary prec emax a 0 b 0 = ((a * 2 ^ s / b)%Z, (- s)%Z, l).
Proof.
  intros Ha Hb s Hs. unfold SFdiv_core_binary.
  rewrite !Z.add_0_r, fexp_eq. change (0 - 0)%Z with 0%Z.
  replace (Z.min (Z.max (Zdigits2 a - Zdigits2 b - 53) (-1074)) 0) with (- s)%Z
    by (subst s; lia).
  replace (0 - - s)%Z with s by lia.
  destruct s as [|p|p] eqn:Es; try lia.
  rewrite Z.shiftl_mul_pow2 by lia.
  unfold Z.div. destruct (Z.div_eucl (a * 2 ^ Zpos p) b) as [q r].
  eexists. reflexivity.
Qed.

Lemma int_truediv_approx (a b : Z) :
  (0 < a)%Z -> (0 < b)%Z ->
  (-1000 <= Zdigits2 a - Zdigits2 b <= 52)%Z ->
  exists (m : positive) (e : Z),
    int_truediv a b = Ok (S754_finite false m e) /\
    (2 ^ 52 <= Zpos m < 2 ^ 53)%Z /\
    (Zdigits2 a - Zdigits2 b - 53 <= e <= Zdigits2 a - Zdigits2 b - 51)%Z /\
    approx (IZR (Zpos m) * bpow e) (IZR a / IZR b).
Proof.
  intros Ha Hb Hd.
  set (s := (53 + Zdigits2 b - Zdigits2 a)%Z).
  destruct (SFdiv_core_binary_int a b Ha Hb ltac:(fold s; lia)) as [l Hcore].
  fold s in Hcore.
  set (q := (a * 2 ^ s / b)%Z) in *.
  assert (Hps : (0 < 2 ^ s)%Z) by (apply Z.pow_pos_nonneg; lia).
  pose proof (Zdigits2_bounds a Ha) as Hba.
  pose proof (Zdigits2_bounds b Hb) as Hbb.
  pose proof (Zdigits2_pos a Ha) as Hda.
  pose proof (Zdigits2_pos b Hb) as Hdb.
  assert (Hqlo : (q * b <= a * 2 ^ s)%Z)
    by (unfold q; rewrite Z.mul_comm; apply Z.mul_div_le; lia).
  assert (Hqhi : (a * 2 ^ s < (q + 1) * b)%Z).
  { unfold q. pose proof (Z.mul_succ_div_gt (a * 2 ^ s) b Hb). lia. }
  assert (Hq : (2 ^ 52 <= q < 2 ^ 54)%Z).
  { assert (E1 : (2 ^ (Zdigits2 a - 1) * 2 ^ s = 2 ^ 52 * 2 ^ Zdigits2 b)%Z).
    { rewrite <- !Z.pow_add_r by lia. f_equal. unfold s. lia. }
    assert (E2 : (2 ^ Zdigits2 a * 2 ^ s = 2 ^ 54 * 2 ^ (Zdigits2 b - 1))%Z).
    { rewrite <- !Z.pow_add_r by lia. f_equal. unfold s. lia. }
    split.
    - apply Z.div_le_lower_bound; [lia|]. nia.
    - apply Z.div_lt_upper_bound; [lia|]. nia. }
  assert (Hdq : (53 <= Zdigits2 q <= 54)%Z).
  { destruct (Z_lt_le_dec q (2 ^ 53)).
    - rewrite (Zdigits2_unique q 53); [lia | simpl; lia | lia].
    - rewrite (Zdigits2_unique q 54); [lia | simpl; lia | lia]. }
  destruct (binary_round_aux_approx q (- s) l (IZR a / IZR b))
    as (m & e & Hr & Hm & He & Hap); try lia.
  { assert (HB : 0 < IZR b) by (apply IZR_lt; lia).
    assert (HS : 0 < IZR (2 ^ s)) by (apply IZR_lt; lia).
    rewrite bpow_neg, (bpow_IZR s) by lia.
    apply IZR_le in Hqlo. apply IZR_lt in Hqhi.
    rewrite !mult_IZR in Hqlo, Hqhi. rewrite !plus_IZR in *.
    set (Q := IZR q) in *. set (A := IZR a) in *. set (B := IZR b) in *.
    set (S := IZR (2 ^ s)) in *.
    assert (HBS : 0 < B * S) by (apply Rmult_lt_0_compat; lra).
    split.
    - apply Rmult_le_reg_r with (B * S); [exact HBS|].
      replace (Q * / S * (B * S)) with (Q * B) by (field; lra).
      replace (A / B * (B * S)) with (A * S) by (field; lra). lra.
    - apply Rmult_le_reg_r with (B * S); [exact HBS|].
      replace ((Q + 1) * / S * (B * S)) with ((Q + 1) * B) by (field; lra).
      replace (A / B * (B * S)) with (A * S) by (field; lra). lra. }
  exists m, e.
  split.
  - unfold int_truediv.
    replace (b =? 0)%Z with false by (symmetry; apply Z.eqb_neq; lia).
    destruct a as [|pa|pa]; try lia. destruct b as [|pb|pb]; try lia.
    simpl exact. unfold SFdiv. rewrite Hcore. simpl xorb. rewrite Hr. reflexivity.
  - split; [exact Hm|]. split; [unfold s in He; lia | exact Hap].
Qed.

Lemma bpow_ge_1 (n : Z) : (0 <= n)%Z -> 1 <= bpow n.
Proof.
  intros Hn. rewrite (bpow_IZR n Hn). apply IZR_le.
  pose proof (Z.pow_pos_nonneg 2 n). lia.
Qed.

Lemma bpow_le (a b : Z) : (a <= b)%Z -> bpow a <= bpow b.
Proof.
  intros H. replace b with (a + (b - a))%Z by lia. rewrite bpow_add.
  pose proof (bpow_pos a). pose proof (bpow_ge_1 (b - a) ltac:(lia)). nra.
Qed.

Lemma bpow_1 : bpow 1 = 2.
Proof. unfold bpow. simpl. lra. Qed.

Lemma normal_pos (f : float) : normal f -> 0 < F2R f.
Proof.
  intros (m & e & -> & Hm). simpl.
  pose proof (bpow_pos e). assert (0 < IZR (Zpos m)) by (apply IZR_lt; lia). nra.
Qed.

(** [float(n)] is exact for an integer of at most 53 bits. *)
Lemma of_int_exact (w : Z) :
  (0 < w < 2 ^ 53)%Z ->
  exists (m : positive) (e : Z),
    of_int w = Ok (S754_finite false m e) /\
    (2 ^ 52 <= Zpos m < 2 ^ 53)%Z /\ e = (Zdigits2 w - 53)%Z /\
    IZR (Zpos m) * bpow e = IZR w.
Proof.
  intros Hw. destruct w as [|p|p]; try lia.
  pose proof (Zdigits2_bounds (Zpos p) ltac:(lia)) as Hb.
  pose proof (Zdigits2_pos (Zpos p) ltac:(lia)) as Hd1.
  assert (Hd : (Zdigits2 (Zpos p) <= 53)%Z).
  { destruct (Z_le_gt_dec (Zdigits2 (Zpos p)) 53) as [|Hgt]; [assumption|].
    assert (2 ^ 53 <= 2 ^ (Zdigits2 (Zpos p) - 1))%Z by (apply Z.pow_le_mono_r; lia).
    lia. }
  unfold of_int, binary_normalize, binary_round, shl_align.
  change (Zpos (digits2_pos p)) with (Zdigits2 (Zpos p)).
  set (d := Zdigits2 (Zpos p)) in *.
  rewrite Z.add_0_r, fexp_eq.
  replace (Z.max (d - 53) (-1074) - 0)%Z with (d - 53)%Z by lia.
  destruct (d - 53)%Z as [|q|q] eqn:Eq; try lia.
  - assert (d = 53%Z) by lia.
    rewrite binary_round_aux_exact by (fold d; lia).
    exists p, 0%Z. split; [reflexivity|]. split; [|split; [lia|]].
    + replace 52%Z with (d - 1)%Z by lia. replace 53%Z with d by lia. exact Hb.
    + unfold bpow. simpl. lra.
  - assert (Hq : Zpos q = (53 - d)%Z) by lia.
    replace (Z.max (Z.neg q) (-1074)) with (d - 53)%Z by lia.
    assert (Hmz : Zpos (Pos.iter xO p q) = (Zpos p * 2 ^ (53 - d))%Z)
      by (rewrite Pos_iter_xO, Hq; reflexivity).
    assert (Hp2 : (0 < 2 ^ (53 - d))%Z) by (apply Z.pow_pos_nonneg; lia).
    assert (E1 : (2 ^ (d - 1) * 2 ^ (53 - d) = 2 ^ 52)%Z)
      by (rewrite <- Z.pow_add_r by lia; f_equal; lia).
    assert (E2 : (2 ^ d * 2 ^ (53 - d) = 2 ^ 53)%Z)
      by (rewrite <- Z.pow_add_r by lia; f_equal; lia).
    assert (Hrange : (2 ^ 52 <= Zpos (Pos.iter xO p q) < 2 ^ 53)%Z) by (rewrite Hmz; nia).
    rewrite binary_round_aux_exact; [|apply Zdigits2_unique; [exact Hrange | lia] | lia].
    exists (Pos.iter xO p q), (d - 53)%Z.
    split; [reflexivity|]. split; [exact Hrange|]. split; [exact Eq|].
    rewrite Hmz, mult_IZR.
    replace (d - 53)%Z with (- (53 - d))%Z by lia.
    rewrite bpow_neg, (bpow_IZR (53 - d)) by lia.
    field. apply not_0_IZR. lia.
Qed.

(** [n * x] is a rounding of the exact product. *)
Lemma int_mul_approx (w : Z) (ms : positive) (es : Z) :
  (0 < w < 2 ^ 53)%Z -> (2 ^ 52 <= Zpos ms < 2 ^ 53)%Z -> (-900 <= es <= 900)%Z ->
  exists (m : positive) (e : Z),
    int_mul w (S754_finite false ms es) = Ok (S754_finite false m e) /\
    (2 ^ 52 <= Zpos m < 2 ^ 53)%Z /\
    approx (IZR (Zpos m) * bpow e) (IZR w * (IZR (Zpos ms) * bpow es)).
Proof.
  intros Hw Hms Hes.
  destruct (of_int_exact w Hw) as (mw & ew & Hfw & Hmw & Hew & Hvw).
  pose proof (Zdigits2_pos w ltac:(lia)) as Hd1.
  assert (Hdw : (Zdigits2 w <= 53)%Z).
  { destruct (Z_le_gt_dec (Zdigits2 w) 53) as [|Hgt]; [assumption|].
    pose proof (Zdigits2_bounds w ltac:(lia)).
    assert (2 ^ 53 <= 2 ^ (Zdigits2 w - 1))%Z by (apply Z.pow_le_mono_r; lia).
    lia. }
  set (mx := (Zpos mw * Zpos ms)%Z).
  assert (Hmx : (2 ^ 104 <= mx < 2 ^ 106)%Z).
  { unfold mx. change (2 ^ 104)%Z with (2 ^ 52 * 2 ^ 52)%Z.
    change (2 ^ 106)%Z with (2 ^ 53 * 2 ^ 53)%Z. nia. }
  assert (Hdx : (105 <= Zdigits2 mx <= 106)%Z).
  { destruct (Z_lt_le_dec mx (2 ^ 105)).
    - rewrite (Zdigits2_unique mx 105); [lia | simpl; lia | lia].
    - rewrite (Zdigits2_unique mx 106); [lia | simpl; lia | lia]. }
  destruct (binary_round_aux_approx mx (ew + es) loc_Exact
              (IZR w * (IZR (Zpos ms) * bpow es)))
    as (m & e & Hr & Hm & He & Hap); try lia.
  { rewrite <- Hvw. unfold mx. rewrite plus_IZR, mult_IZR, bpow_add.
    pose proof (bpow_pos ew). pose proof (bpow_pos es).
    assert (0 < bpow ew * bpow es) by (apply Rmult_lt_0_compat; lra).
    split; nra. }
  exists m, e. split; [|split; [exact Hm | exact Hap]].
  unfold int_mul. rewrite Hfw. simpl. f_equal. exact Hr.
Qed.

(** The order of normal floats is the order of their values. *)
Lemma SFltb_normal (a b : float) :
  normal a -> normal b ->
  if SFltb a b then F2R a < F2R b else F2R b <= F2R a.
Proof.
  intros (ma & ea & -> & Hma) (mb & eb & -> & Hmb).
  unfold SFltb, SFcompare. simpl F2R. rewrite !Rmult_1_l.
  assert (HA : 4503599627370496 <= IZR (Zpos ma) <= 9007199254740992 - 1).
  { split; [apply (IZR_le (2 ^ 52)); lia|].
    change (9007199254740992 - 1) with (IZR (2 ^ 53) - IZR 1).
    rewrite <- minus_IZR. apply IZR_le. lia. }
  assert (HB : 4503599627370496 <= IZR (Zpos mb) <= 9007199254740992 - 1).
  { split; [apply (IZR_le (2 ^ 52)); lia|].
    change (9007199254740992 - 1) with (IZR (2 ^ 53) - IZR 1).
    rewrite <- minus_IZR. apply IZR_le. lia. }
  destruct (Z.compare_spec ea eb) as [->|Hlt|Hgt].
  - pose proof (bpow_pos eb).
    rewrite Pos.compare_cont_spec.
    destruct (Pos.compare_spec ma mb) as [->|Hlt|Hgt]; simpl.
    + lra.
    + apply Rmult_lt_compat_r; [lra|]. apply IZR_lt. lia.
    + apply Rmult_le_compat_r; [lra|]. apply IZR_le. lia.
  - pose proof (bpow_pos ea).
    pose proof (bpow_le (ea + 1) eb ltac:(lia)) as Hle.
    rewrite bpow_add, bpow_1 in Hle. nra.
  - pose proof (bpow_pos eb).
    pose proof (bpow_le (eb + 1) ea ltac:(lia)) as Hle.
    rewrite bpow_add, bpow_1 in Hle. nra.
Qed.

Lemma min_normal (a b : float) :
  normal a -> normal b ->
  (PyFloat.min a b = a \/ PyFloat.min a b = b) /\
  F2R (PyFloat.min a b) <= F2R a /\ F2R (PyFloat.min a b) <= F2R b.
Proof.
  intros Ha Hb. pose proof (SFltb_normal b a Hb Ha) as H.
  unfold PyFloat.min. destruct (SFltb b a); split; auto; lra.
Qed.

(** [int(x)] is the floor of a positive float. *)
Lemma to_int_floor (m : positive) (e : Z) :
  exists r : Z,
    to_int (S754_finite false m e) = Ok r /\
    IZR r <= IZR (Zpos m) * bpow e < IZR r + 1.
Proof.
  unfold to_int. destruct e as [|p|p].
  - exists (Zpos m). split; [reflexivity|]. unfold bpow. simpl. lra.
  - exists (Zpos m * 2 ^ Zpos p)%Z. split.
    + rewrite Z.shiftl_mul_pow2 by lia. reflexivity.
    + rewrite mult_IZR, (bpow_IZR (Zpos p)) by lia. lra.
  - exists (Zpos m / 2 ^ Zpos p)%Z. split.
    + rewrite Z.shiftr_div_pow2 by lia. reflexivity.
    + assert (Hp : (0 < 2 ^ Zpos p)%Z) by (apply Z.pow_pos_nonneg; lia).
      pose proof (Z.mul_div_le (Zpos m) (2 ^ Zpos p) Hp) as Hlo.
      pose proof (Z.mul_succ_div_gt (Zpos m) (2 ^ Zpos p) Hp) as Hhi.
      set (r := (Zpos m / 2 ^ Zpos p)%Z) in *.
      apply IZR_le in Hlo. apply IZR_lt in Hhi.
      rewrite mult_IZR in Hlo, Hhi. unfold Z.succ in Hhi. rewrite plus_IZR in Hhi.
      change (Zneg p) with (- Zpos p)%Z.
      rewrite bpow_neg, (bpow_IZR (Zpos p)) by lia.
      assert (HP : 0 < IZR (2 ^ Zpos p)) by (apply IZR_lt; lia).
      set (P := IZR (2 ^ Zpos p)) in *. set (M := IZR (Zpos m)) in *.
      split.
      * apply Rmult_le_reg_r with P; [exact HP|].
        replace (M * / P * P) with M by (field; lra). lra.
      * apply Rmult_lt_reg_r with P; [exact HP|].
        replace (M * / P * P) with M by (field; lra). lra.
Qed.

(** The scale factor: a normal float that rounds the smaller of the two
    exact ratios. *)
Lemma scale_approx (w h : Z) :
  (0 < w < 2 ^ 31)%Z -> (0 < h < 2 ^ 31)%Z ->
  exists (qw qh : float) (ms : positive) (es : Z),
    int_truediv 1400 w = Ok qw /\ int_truediv 2400 h = Ok qh /\
    PyFloat.min qw qh = S754_finite false ms es /\
    (2 ^ 52 <= Zpos ms < 2 ^ 53)%Z /\ (-80 <= es <= 0)%Z /\
    let vs := IZR (Zpos ms) * bpow es in
    let rm := Rmin (1400 / IZR w) (2400 / IZR h) in
    vs * (1 - eps) <= rm <= vs * (1 + eps).
Proof.
  intros Hw Hh.
  pose proof (Zdigits2_le w 31 Hw ltac:(lia)) as Hdw.
  pose proof (Zdigits2_le h 31 Hh ltac:(lia)) as Hdh.
  pose proof (Zdigits2_pos w ltac:(lia)) as Hdw1.
  pose proof (Zdigits2_pos h ltac:(lia)) as Hdh1.
  destruct (int_truediv_approx 1400 w) as (mw & ew & Hqw & Hmw & Hew & Haw);
    [lia | lia | change (Zdigits2 1400) with 11%Z; lia |].
  destruct (int_truediv_approx 2400 h) as (mh & eh & Hqh & Hmh & Heh & Hah);
    [lia | lia | change (Zdigits2 2400) with 12%Z; lia |].
  change (Zdigits2 1400) with 11%Z in Hew. change (Zdigits2 2400) with 12%Z in Heh.
  set (qw := S754_finite false mw ew) in *. set (qh := S754_finite false mh eh) in *.
  assert (Hnw : normal qw) by (exists mw, ew; auto).
  assert (Hnh : normal qh) by (exists mh, eh; auto).
  destruct (min_normal qw qh Hnw Hnh) as (Hcase & Hle1 & Hle2).
  unfold approx in Haw, Hah.
  replace (IZR (Zpos mw) * bpow ew) with (F2R qw) in Haw by (simpl; lra).
  replace (IZR (Zpos mh) * bpow eh) with (F2R qh) in Hah by (simpl; lra).
  assert (Heps : 0 < eps < 1) by (unfold eps; lra).
  exists qw, qh.
  destruct Hcase as [Hc|Hc].
  - exists mw, ew. rewrite Hc.
    split; [exact Hqw|]. split; [exact Hqh|]. split; [reflexivity|].
    split; [exact Hmw|]. split; [lia|].
    cbv zeta. rewrite Hc in Hle2.
    replace (IZR (Zpos mw) * bpow ew) with (F2R qw) by (simpl; lra).
    unfold Rmin. destruct (Rle_dec (1400 / IZR w) (2400 / IZR h)); split; nra.
  - exists mh, eh. rewrite Hc.
    split; [exact Hqw|]. split; [exact Hqh|]. split; [reflexivity|].
    split; [exact Hmh|]. split; [lia|].
    cbv zeta. rewrite Hc in Hle1.
    replace (IZR (Zpos mh) * bpow eh) with (F2R qh) by (simpl; lra).
    unfold Rmin. destruct (Rle_dec (1400 / IZR w) (2400 / IZR h)); split; nra.
Qed.

(** Truncating a twice-rounded product [x * (a / b)]: the floor of the
    exact value, or one less. *)
Lemma truncation_bracket (n b r : Z) (v : R) :
  (0 < b < 2 ^ 31)%Z -> (0 <= n)%Z -> (n / b <= 2400)%Z ->
  0 < v ->
  v * ((1 - eps) * (1 - eps)) <= IZR n / IZR b <= v * ((1 + eps) * (1 + eps)) ->
  IZR r <= v < IZR r + 1 ->
  (n / b - 1 <= r <= n / b)%Z.
Proof.
  intros Hb Hn Hk Hv He Hr.
  set (k := (n / b)%Z) in *.
  assert (Hk0 : (0 <= k)%Z) by (apply Z.div_pos; lia).
  assert (Hklo : (k * b <= n)%Z) by (unfold k; rewrite Z.mul_comm; apply Z.mul_div_le; lia).
  assert (Hkhi : (n + 1 <= (k + 1) * b)%Z).
  { unfold k. pose proof (Z.mul_succ_div_gt n b ltac:(lia)). lia. }
  assert (HB : 1 <= IZR b <= 2147483648).
  { split; [apply (IZR_le 1); lia | apply (IZR_le b (2 ^ 31)); lia]. }
  apply IZR_le in Hklo, Hkhi, Hk, Hk0.
  rewrite mult_IZR in Hklo, Hkhi. rewrite !plus_IZR in Hkhi.
  set (K := IZR k) in *. set (N := IZR n) in *. set (B := IZR b) in *.
  set (E := N / B) in *.
  assert (HE : K <= E /\ E + / B <= K + 1).
  { unfold E. split.
    - apply Rmult_le_reg_r with B; [lra|].
      replace (N / B * B) with N by (field; lra). lra.
    - apply Rmult_le_reg_r with B; [lra|].
      replace ((N / B + / B) * B) with (N + 1) by (field; lra). lra. }
  assert (HiB : / 2147483648 <= / B) by (apply Rinv_le_contravar; lra).
  assert (Hlt : IZR r < K + 1).
  { destruct (Rlt_le_dec v (K + 1)) as [|Hge]; [lra|]. exfalso.
    unfold eps in He. nra. }
  assert (Hgt : K - 2 < IZR r).
  { destruct (Rlt_le_dec (K - 1) v) as [|Hle]; [lra|]. exfalso.
    unfold eps in He. nra. }
  unfold K in Hlt, Hgt.
  change 1 with (IZR 1) in Hlt. change 2 with (IZR 2) in Hgt.
  rewrite <- plus_IZR in Hlt. rewrite <- minus_IZR in Hgt.
  apply lt_IZR in Hlt, Hgt. lia.
Qed.

(** One side of the result: the product with the scale factor, truncated. *)
Lemma side_bracket (x a b : Z) (ms : positive) (es : Z) :
  (0 < x < 2 ^ 31)%Z -> (0 < b < 2 ^ 31)%Z -> (0 <= a)%Z ->
  (x * a / b <= 2400)%Z ->
  (2 ^ 52 <= Zpos ms < 2 ^ 53)%Z -> (-80 <= es <= 0)%Z ->
  IZR (Zpos ms) * bpow es * (1 - eps) <= IZR a / IZR b
    <= IZR (Zpos ms) * bpow es * (1 + eps) ->
  exists (fx : float) (r : Z),
    int_mul x (S754_finite false ms es) = Ok fx /\
    to_int fx = Ok r /\
    (x * a / b - 1 <= r <= x * a / b)%Z.
Proof.
  intros Hx Hb Ha Hk Hms Hes Hs.
  destruct (int_mul_approx x ms es ltac:(lia) Hms ltac:(lia))
    as (m & e & Hmul & Hm & Hap).
  destruct (to_int_floor m e) as (r & Hr & Hfl).
  exists (S754_finite false m e), r.
  split; [exact Hmul|]. split; [exact Hr|].
  set (v := IZR (Zpos m) * bpow e) in *.
  set (vs := IZR (Zpos ms) * bpow es) in *.
  assert (Hv : 0 < v).
  { unfold v. pose proof (bpow_pos e).
    assert (0 < IZR (Zpos m)) by (apply IZR_lt; lia). nra. }
  assert (HX : 0 < IZR x) by (apply IZR_lt; lia).
  assert (HB : 0 < IZR b) by (apply IZR_lt; lia).
  assert (Heps : 0 < eps < 1) by (unfold eps; lra).
  apply (truncation_bracket (x * a) b r v); try assumption; try lia.
  rewrite mult_IZR.
  replace (IZR x * IZR a / IZR b) with (IZR x * (IZR a / IZR b)) by (field; lra).
  unfold approx in Hap. split.
  - apply Rle_trans with (IZR x * vs * (1 - eps)); [nra|].
    rewrite Rmult_assoc. apply Rmult_le_compat_l; lra.
  - apply Rle_trans with (IZR x * vs * (1 + eps)); [|nra].
    rewrite Rmult_assoc. apply Rmult_le_compat_l; lra.
Qed.

Lemma Rmin_ratio_l (w h : Z) :
  (0 < w)%Z -> (0 < h)%Z -> (1400 * h <= 2400 * w)%Z ->
  Rmin (1400 / IZR w) (2400 / IZR h) = IZR 1400 / IZR w.
Proof.
  intros Hw Hh Hle. apply Rmin_left.
  assert (HW : 0 < IZR w) by (apply IZR_lt; lia).
  assert (HH : 0 < IZR h) by (apply IZR_lt; lia).
  apply IZR_le in Hle. rewrite !mult_IZR in Hle.
  apply Rmult_le_reg_r with (IZR w * IZR h); [nra|].
  replace (1400 / IZR w * (IZR w * IZR h)) with (1400 * IZR h) by (field; lra).
  replace (2400 / IZR h * (IZR w * IZR h)) with (2400 * IZR w) by (field; lra).
  exact Hle.
Qed.

Lemma Rmin_ratio_r (w h : Z) :
  (0 < w)%Z -> (0 < h)%Z -> (2400 * w <= 1400 * h)%Z ->
  Rmin (1400 / IZR w) (2400 / IZR h) = IZR 2400 / IZR h.
Proof.
  intros Hw Hh Hle. apply Rmin_right.
  assert (HW : 0 < IZR w) by (apply IZR_lt; lia).
  assert (HH : 0 < IZR h) by (apply IZR_lt; lia).
  apply IZR_le in Hle. rewrite !mult_IZR in Hle.
  apply Rmult_le_reg_r with (IZR w * IZR h); [nra|].
  replace (1400 / IZR w * (IZR w * IZR h)) with (1400 * IZR h) by (field; lra).
  replace (2400 / IZR h * (IZR w * IZR h)) with (2400 * IZR w) by (field; lra).
  exact Hle.
Qed.

End Rounding.

Lemma Qfloor_scaled (x a : Z) (b : positive) :
  Qfloor (inject_Z x * (inject_Z a / inject_Z (Zpos b))) = x * a / Zpos b.
Proof.
  unfold Qfloor, Qdiv, Qmult, Qinv, inject_Z. simpl. f_equal; lia.
Qed.

(** The rational rule in integer arithmetic. *)
Lemma spec_target_size_closed (w h : Z) :
  0 < w -> 0 < h ->
  spec_target_size w h =
  if 1400 * h <=? 2400 * w
  then (Z.min (w * 1400 / w) 1400, Z.min (h * 1400 / w) 2400)
  else (Z.min (w * 2400 / h) 1400, Z.min (h * 2400 / h) 2400).
Proof.
  intros Hw Hh. destruct w as [|p|p]; try lia. destruct h as [|q|q]; try lia.
  unfold spec_target_size. cbv zeta.
  unfold Qmin, GenericMinMax.gmin, Qcompare. simpl Qnum. simpl Qden.
  unfold Z.leb.
  change 1400%Q with (inject_Z 1400). change 2400%Q with (inject_Z 2400).
  rewrite !Z.mul_1_r, !Pos.mul_1_l.
  destruct (1400 * Z.pos q ?= 2400 * Z.pos p); rewrite !Qfloor_scaled; reflexivity.
Qed.

(** For positive sides below [2^31] the function returns, and each side
    of its result is the side that the rule gives over exact rational
    arithmetic, or one less. *)
Lemma calculate_target_size_bracket (w h : Z) :
  0 < w < 2 ^ 31 -> 0 < h < 2 ^ 31 ->
  exists w' h' : Z,
    calculate_target_size (w, h) = Ok (w', h') /\
    (spec_target_size w h).1 - 1 <= w' <= (spec_target_size w h).1 /\
    (spec_target_size w h).2 - 1 <= h' <= (spec_target_size w h).2.
Proof.
  intros Hw Hh.
  destruct (Rounding.scale_approx w h Hw Hh)
    as (qw & qh & ms & es & Hqw & Hqh & Hmin & Hms & Hes & Hs).
  cbv zeta in Hs.
  rewrite spec_target_size_closed by lia.
  assert (Hkw : w * 1400 / w = 1400) by (rewrite Z.mul_comm; apply Z.div_mul; lia).
  assert (Hkh : h * 2400 / h = 2400) by (rewrite Z.mul_comm; apply Z.div_mul; lia).
  unfold calculate_target_size. rewrite Hqw, Hqh. simpl. rewrite Hmin.
  destruct (Z.leb_spec (1400 * h) (2400 * w)) as [Hle|Hgt].
  - rewrite (Rounding.Rmin_ratio_l w h) in Hs by lia.
    assert (Hb : h * 1400 / w <= 2400) by (apply Z.div_le_upper_bound; lia).
    destruct (Rounding.side_bracket w 1400 w ms es) as (fw & rw & Hfw & Hrw & Hbw);
      try assumption; try lia.
    destruct (Rounding.side_bracket h 1400 w ms es) as (fh & rh & Hfh & Hrh & Hbh);
      try assumption; try lia.
    rewrite Hfw. simpl. rewrite Hrw. simpl. rewrite Hfh. simpl. rewrite Hrh. simpl.
    eexists _, _. split; [reflexivity|]. simpl. lia.
  - rewrite (Rounding.Rmin_ratio_r w h) in Hs by lia.
    assert (Hb : w * 2400 / h <= 1400) by (apply Z.div_le_upper_bound; lia).
    destruct (Rounding.side_bracket w 2400 h ms es) as (fw & rw & Hfw & Hrw & Hbw);
      try assumption; try lia.
    destruct (Rounding.side_bracket h 2400 h ms es) as (fh & rh & Hfh & Hrh & Hbh);
      try assumption; try lia.
    rewrite Hfw. simpl. rewrite Hrw. simpl. rewrite Hfh. simpl. rewrite Hrh. simpl.
    eexists _, _. split; [reflexivity|]. simpl. lia.
Qed.

(** C3 as stated fails at the input (340, 340): over exact rational
    arithmetic the rule gives (1400, 1400); the function, which rounds the
    ratio and the products to binary64 before it truncates them, returns
    (1399, 1399). *)
Lemma calculate_target_size_not_exact :
  spec_target_size 340 340 = (1400, 1400) /\
  calculate_target_size (340, 340) = Ok (1399, 1399) /\
  calculate_target_size (340, 340) <> Ok (spec_target_size 340 340).
Proof.
  assert (H1 : spec_target_size 340 340 = (1400, 1400)) by (vm_compute; reflexivity).
  assert (H2 : calculate_target_size (340, 340) = Ok (1399, 1399))
    by (vm_compute; reflexivity).
  split; [exact H1|]. split; [exact H2|].
  rewrite H1, H2. discriminate.
Qed.

(** C3, amended: for positive sides below [2^31] the function returns a
    pair, and each of its sides is the side that the rule gives over exact
    rational arithmetic, or one less: the ratios and the products are
    rounded to binary64 before they are truncated. *)
Theorem calculate_target_size_near_exact (w h : Z) :
  0 < w < 2 ^ 31 -> 0 < h < 2 ^ 31 ->
  exists w' h' : Z,
    calculate_target_size (w, h) = Ok (w', h') /\
    (spec_target_size w h).1 - 1 <= w' <= (spec_target_size w h).1 /\
    (spec_target_size w h).2 - 1 <= h' <= (spec_target_size w h).2.
Proof.
  intros Hw Hh.
  destruct (calculate_target_size_bracket w h Hw Hh) as (w' & h' & Hc & Hbw & Hbh).
  exists w', h'. split; [exact Hc|]. split; [exact Hbw | exact Hbh].
Qed.

Lemma calculate_target_size_near_exact_witness :
  exists w' h' : Z,
    calculate_target_size (3024, 4032) = Ok (w', h') /\
    (spec_target_size 3024 4032).1 - 1 <= w' <= (spec_target_size 3024 4032).1 /\
    (spec_target_size 3024 4032).2 - 1 <= h' <= (spec_target_size 3024 4032).2.
Proof. apply (calculate_target_size_near_exact 3024 4032); lia. Defined.

(** C7: for positive sides, whatever pair the function returns lies in the
    1400 x 2400 box; and for sides below [2^31] it does return a pair. *)
Theorem calculate_target_size_within_box (w h : Z) :
  0 < w -> 0 < h ->
  (forall w' h', calculate_target_size (w, h) = Ok (w', h') ->
                 w' <= 1400 /\ h' <= 2400) /\
  (w < 2 ^ 31 -> h < 2 ^ 31 ->
   exists w' h', calculate_target_size (w, h) = Ok (w', h')).
Proof.
  intros Hw Hh. split.
  - intros w' h' H. unfold calculate_target_size in H.
    repeat (apply rbind_Ok in H; destruct H as (? & _ & H)).
    injection H as <- <-. lia.
  - intros Hw' Hh'.
    destruct (calculate_target_size_bracket w h) as (w' & h' & H & _); [lia | lia |].
    eauto.
Qed.

Lemma calculate_target_size_within_box_witness :
  calculate_target_size (3000, 4000) = Ok (1400, 1866) /\
  1400 <= 1400 /\ 1866 <= 2400.
Proof.
  assert (H : calculate_target_size (3000, 4000) = Ok (1400, 1866))
    by (vm_compute; reflexivity).
  split; [exact H|].
  apply (proj1 (calculate_target_size_within_box 3000 4000 ltac:(lia) ltac:(lia)) _ _ H).
Defined.

(** C10: a side of zero raises [ZeroDivisionError]; so among image sizes
    (sides that are not negative) only those with both sides strictly
    positive let the function return a value. *)
Theorem calculate_target_size_zero_side (w h : Z) :
  (w = 0 \/ h = 0 -> calculate_target_size (w, h) = Raise ZeroDivisionError) /\
  (0 <= w -> 0 <= h ->
   forall r, calculate_target_size (w, h) = Ok r -> 0 < w /\ 0 < h).
Proof.
  assert (Hz : w = 0 \/ h = 0 -> calculate_target_size (w, h) = Raise ZeroDivisionError).
  { intros [-> | ->]; [reflexivity|].
    unfold calculate_target_size.
    destruct (Z.eq_dec w 0) as [->|Hw]; [reflexivity|].
    destruct (Rounding.int_truediv_total 1400 w) as [q ->]; [lia | exact Hw |].
    reflexivity. }
  split; [exact Hz|].
  intros Hw Hh r Hr.
  destruct (Z.eq_dec w 0) as [->|]; [rewrite Hz in Hr by auto; discriminate|].
  destruct (Z.eq_dec h 0) as [->|]; [rewrite Hz in Hr by auto; discriminate|].
  lia.
Qed.

Lemma calculate_target_size_zero_side_witness :
  calculate_target_size (0, 600) = Raise ZeroDivisionError /\
  calculate_target_size (800, 0) = Raise ZeroDivisionError /\
  (0 < 800 /\ 0 < 600).
Proof.
  split; [apply (proj1 (calculate_target_size_zero_side 0 600)); left; reflexivity|].
  split; [apply (proj1 (calculate_target_size_zero_side 800 0)); right; reflexivity|].
  apply (proj2 (calculate_target_size_zero_side 800 600) ltac:(lia) ltac:(lia) (1400, 1050)).
  vm_compute. reflexivity.
Defined.

(** ** Trimming *)

Section FindIndex.

Context {A : Type} (p : A -> bool).

Lemma find_index_none (l : list A) :
  Forall (fun x => p x = false) l -> find_index p l = None.
Proof.
  induction 1 as [|x l Hx _ IH]; simpl; [reflexivity|].
  rewrite Hx, IH. reflexivity.
Qed.

Lemma find_index_head (x : A) (l : list A) :
  p x = true -> find_index p (x :: l) = Some O.
Proof. intros Hx. simpl. rewrite Hx. reflexivity. Qed.

Lemma find_index_all (l : list A) :
  Forall (fun x => p x = true) l -> l <> [] -> find_index p l = Some O.
Proof.
  intros Hall Hne. destruct l as [|x l]; [congruence|].
  apply find_index_head. exact (Forall_inv Hall).
Qed.

Lemma find_last_index_all (l : list A) :
  Forall (fun x => p x = true) l -> l <> [] ->
  find_last_index p l = Some (length l - 1)%nat.
Proof.
  intros Hall Hne. unfold find_last_index.
  rewrite find_index_all.
  - simpl. f_equal. lia.
  - apply Forall_reverse. exact Hall.
  - intros Hr. apply Hne. apply (f_equal reverse) in Hr.
    rewrite reverse_involutive in Hr. exact Hr.
Qed.

End FindIndex.

Lemma omap_const {A B} (f : A -> option B) (c : B) (l : list A) :
  Forall (fun x => f x = Some c) l -> omap f l = replicate (length l) c.
Proof.
  induction 1 as [|x l Hx _ IH]; simpl; [reflexivity|].
  rewrite Hx. simpl. f_equal. exact IH.
Qed.

Lemma foldr_min_replicate_0 (n m : nat) : foldr Nat.min m (replicate (S n) O) = O.
Proof. reflexivity. Qed.

Lemma foldr_max_replicate (n c : nat) : foldr Nat.max O (replicate (S n) c) = c.
Proof.
  induction n as [|n IH]; simpl in *; [lia|]. rewrite IH. lia.
Qed.

Lemma existsb_Forall_false {A} (p : A -> bool) (l : list A) :
  Forall (fun x => p x = false) l -> existsb p l = false.
Proof.
  induction 1 as [|x l Hx _ IH]; simpl; [reflexivity|]. rewrite Hx, IH. reflexivity.
Qed.

(** The bounding box of an image without data is [None]. *)
Lemma getbbox_no_data (image : Image) :
  Forall (Forall (fun p => has_data (mode image) p = false)) (data image) ->
  getbbox image = None.
Proof.
  intros H. unfold getbbox. rewrite find_index_none; [reflexivity|].
  eapply Forall_impl; [exact H|]. intros row Hrow.
  unfold row_has_data. apply existsb_Forall_false. exact Hrow.
Qed.

(** C8: a fully transparent image has no bounding box and is returned as it
    is. *)
Theorem trim_transparency_fully_transparent (image : Image) :
  fully_transparent image -> trim_transparency image = image.
Proof.
  intros [Ha Hall]. unfold trim_transparency.
  rewrite getbbox_no_data; [reflexivity|].
  eapply Forall_impl; [exact Hall|]. intros row Hrow.
  eapply Forall_impl; [exact Hrow|]. intros p Hp. simpl in Hp.
  unfold has_data, alpha_of in *. rewrite Ha in *. rewrite Hp. reflexivity.
Qed.

Lemma trim_transparency_fully_transparent_witness :
  fully_transparent transparent_2x2 /\
  trim_transparency transparent_2x2 = transparent_2x2.
Proof.
  assert (H : fully_transparent transparent_2x2)
    by (split; [reflexivity | repeat constructor]).
  split; [exact H | apply (trim_transparency_fully_transparent transparent_2x2 H)].
Defined.

(** The bounding box of an image whose every pixel has data is the whole
    image. *)
Lemma getbbox_all_data (image : Image) :
  wf_image image -> 0 < width image -> 0 < height image ->
  Forall (Forall (fun p => has_data (mode image) p = true)) (data image) ->
  getbbox image = Some (0, 0, width image, height image).
Proof.
  intros [Hh Hw Hw0 _] Hwpos Hhpos Hall.
  destruct image as [m w h rows o]. simpl in *.
  assert (Hne : rows <> []) by (intros ->; simpl in Hh; lia).
  assert (Hrows : Forall (fun row => row_has_data m row = true) rows).
  { rewrite Forall_forall in *. intros row Hin.
    specialize (Hall row Hin). specialize (Hw row Hin).
    destruct row as [|p row]; [simpl in Hw; lia|].
    unfold row_has_data. simpl. rewrite (Forall_inv Hall). reflexivity. }
  assert (Hl : Forall (fun row => find_index (has_data m) row = Some O) rows).
  { rewrite Forall_forall in *. intros row Hin.
    apply find_index_all; [exact (Hall row Hin)|].
    intros ->. specialize (Hw [] Hin). simpl in Hw. lia. }
  assert (Hr : Forall (fun row => find_last_index (has_data m) row
                                  = Some (Z.to_nat w - 1)%nat) rows).
  { rewrite Forall_forall in *. intros row Hin.
    rewrite find_last_index_all; [|exact (Hall row Hin)|].
    - f_equal. specialize (Hw row Hin). lia.
    - intros ->. specialize (Hw [] Hin). simpl in Hw. lia. }
  unfold getbbox. simpl.
  rewrite (find_index_all _ rows Hrows Hne), (find_last_index_all _ rows Hrows Hne).
  rewrite (omap_const _ _ _ Hl), (omap_const _ _ _ Hr).
  destruct rows as [|row rows]; [congruence|]. simpl length.
  rewrite foldr_min_replicate_0, foldr_max_replicate.
  assert (E1 : Z.of_nat (Z.to_nat w - 1) + 1 = w) by lia.
  assert (E2 : Z.of_nat (S (length rows) - 1) + 1 = h)
    by (rewrite length_cons in Hh; lia).
  rewrite E1, E2. reflexivity.
Qed.

Lemma crop_whole (image : Image) :
  wf_image image ->
  crop image (0, 0, width image, height image) = image.
Proof.
  intros [Hh Hw Hw0 _]. destruct image as [m w h rows o]. simpl in *.
  unfold crop. simpl. f_equal; try lia.
  rewrite !Z.sub_0_r. change (Z.to_nat 0) with O. rewrite drop_0.
  rewrite take_ge by lia.
  rewrite <- (list_fmap_id rows) at 2. apply Forall_fmap_ext.
  eapply Forall_impl; [exact Hw|]. intros row Hrow. simpl in *.
  rewrite drop_0, take_ge by lia. reflexivity.
Qed.

(** C5 as stated fails at this image: it is well formed and fully opaque,
    and [trim_transparency] returns an image one pixel wide. *)
Lemma trim_transparency_crops_opaque_rgb :
  wf_image black_white_rgb /\ fully_opaque black_white_rgb /\
  width (trim_transparency black_white_rgb) = 1 /\
  trim_transparency black_white_rgb <> black_white_rgb.
Proof.
  split; [constructor; simpl; repeat constructor; lia|].
  split; [repeat constructor|].
  split; [reflexivity|]. intros H. apply (f_equal width) in H. discriminate.
Qed.

(** C5, amended: a fully opaque image that has an alpha channel comes back
    unchanged. *)
Theorem trim_transparency_fully_opaque (image : Image) :
  wf_image image -> has_alpha (mode image) = true -> fully_opaque image ->
  trim_transparency image = image.
Proof.
  intros Hwf Ha Hop. unfold trim_transparency.
  assert (Hall : Forall (Forall (fun p => has_data (mode image) p = true)) (data image)).
  { eapply Forall_impl; [exact Hop|]. intros row Hrow.
    eapply Forall_impl; [exact Hrow|]. intros p Hp. simpl in Hp.
    unfold has_data, alpha_of in *. rewrite Ha in *. rewrite Hp. reflexivity. }
  destruct Hwf as [Hh Hw Hw0 Hb].
  destruct (data image) as [|row rows] eqn:Erows.
  { unfold getbbox. rewrite Erows. reflexivity. }
  destruct (Z.eq_dec (width image) 0) as [Hz|Hnz].
  { rewrite getbbox_no_data; [reflexivity|]. rewrite Erows.
    eapply Forall_impl; [exact Hw|]. intros r Hr. simpl in Hr.
    destruct r; [constructor | simpl in Hr; lia]. }
  assert (Hwf : wf_image image) by (constructor; rewrite ?Erows; assumption).
  rewrite getbbox_all_data; [apply crop_whole; exact Hwf | exact Hwf | lia | | ].
  - rewrite <- Hh. simpl. lia.
  - rewrite Erows. exact Hall.
Qed.

Lemma trim_transparency_fully_opaque_witness :
  wf_image opaque_2x1 /\ has_alpha (mode opaque_2x1) = true /\
  fully_opaque opaque_2x1 /\ trim_transparency opaque_2x1 = opaque_2x1.
Proof.
  assert (Hwf : wf_image opaque_2x1) by (constructor; simpl; repeat constructor; lia).
  assert (Hop : fully_opaque opaque_2x1) by repeat constructor.
  split; [exact Hwf|]. split; [reflexivity|]. split; [exact Hop|].
  apply (trim_transparency_fully_opaque opaque_2x1 Hwf eq_refl Hop).
Defined.

(** ** The canvas *)

Lemma Forall_imap {A B} (P : A -> Prop) (Q : B -> Prop) (f : nat -> A -> B) (l : list A) :
  (forall i x, P x -> Q (f i x)) -> Forall P l -> Forall Q (imap f l).
Proof.
  revert f. induction l as [|x l IH]; intros f Hf Hl; simpl; [constructor|].
  inversion Hl; subst. constructor; [auto|]. apply IH; [|assumption].
  intros i y. apply Hf.
Qed.

Lemma to_rgb_length (m : Mode) (p : Pixel) : length (to_rgb m p) = 3%nat.
Proof.
  destruct m; destruct p as [|a [|b [|c [|d [|e p]]]]]; reflexivity.
Qed.

Lemma wf_Image_new (m : Mode) (new_size : Z * Z) (color : Pixel) :
  0 <= new_size.1 -> 0 <= new_size.2 -> length color = bands m ->
  wf_image (Image_new m new_size color).
Proof.
  intros Hw Hh Hc. unfold Image_new. constructor; simpl.
  - rewrite length_replicate. lia.
  - apply Forall_replicate. rewrite length_replicate. lia.
  - exact Hw.
  - apply Forall_replicate, Forall_replicate. exact Hc.
Qed.

(** Pasting changes pixels of the canvas, never its shape. *)
Lemma paste_wf (canvas im : Image) (at_ : Z * Z) (mask : option Image) :
  wf_image canvas -> mode canvas = RGB -> wf_image (paste canvas im at_ mask).
Proof.
  intros [Hh Hw Hw0 Hb] Hm. destruct at_ as [x0 y0]. unfold paste.
  constructor; simpl.
  - rewrite length_imap. exact Hh.
  - eapply Forall_imap; [|exact Hw]. intros i row Hrow. simpl.
    rewrite length_imap. exact Hrow.
  - exact Hw0.
  - eapply Forall_imap; [|exact Hb]. intros cy row Hrow. simpl.
    eapply Forall_imap; [|exact Hrow]. intros cx old Hold. simpl in *.
    rewrite Hm in *. simpl in Hold.
    destruct ((0 <=? Z.of_nat cx - x0) && (Z.of_nat cx - x0 <? width im)
              && (0 <=? Z.of_nat cy - y0) && (Z.of_nat cy - y0 <? height im));
      [|exact Hold].
    destruct (getpixel im _ _) as [p|]; [|exact Hold].
    destruct mask as [mk|]; [|apply to_rgb_length].
    destruct (getpixel mk _ _) as [q|]; [|exact Hold].
    rewrite length_zip_with, Hold, to_rgb_length. reflexivity.
Qed.

Lemma paste_size (canvas im : Image) (at_ : Z * Z) (mask : option Image) :
  size (paste canvas im at_ mask) = size canvas /\
  mode (paste canvas im at_ mask) = mode canvas.
Proof. destruct at_. split; reflexivity. Qed.

Lemma resize_Ok (env : Env) (image : Image) (new_size : Z * Z) :
  1 <= new_size.1 -> 1 <= new_size.2 ->
  exists resized, resize env image new_size = Ok resized.
Proof.
  intros H1 H2. unfold resize. destruct (decide (size image = new_size)); [eauto|].
  replace (new_size.1 <? 1) with false by (symmetry; apply Z.ltb_ge; lia).
  replace (new_size.2 <? 1) with false by (symmetry; apply Z.ltb_ge; lia).
  simpl. eauto.
Qed.

(** A subject whose sides are within 1 : 700 and 1200 : 1 of each other
    gets a target size of at least 1 x 1. *)
Lemma calculate_target_size_positive (w h : Z) :
  0 < w < 2 ^ 31 -> 0 < h < 2 ^ 31 -> h <= 1200 * w -> w <= 700 * h ->
  exists tw th, calculate_target_size (w, h) = Ok (tw, th) /\ 1 <= tw /\ 1 <= th.
Proof.
  intros Hw Hh H1 H2.
  destruct (calculate_target_size_bracket w h Hw Hh) as (tw & th & Hc & Hbw & Hbh).
  exists tw, th. split; [exact Hc|].
  rewrite spec_target_size_closed in Hbw, Hbh by lia.
  assert (Hkw : w * 1400 / w = 1400) by (rewrite Z.mul_comm; apply Z.div_mul; lia).
  assert (Hkh : h * 2400 / h = 2400) by (rewrite Z.mul_comm; apply Z.div_mul; lia).
  assert (Ha : 2 <= h * 1400 / w) by (apply Z.div_le_lower_bound; lia).
  assert (Hb : 2 <= w * 2400 / h) by (apply Z.div_le_lower_bound; lia).
  destruct (1400 * h <=? 2400 * w); simpl in Hbw, Hbh; lia.
Qed.

(** Whatever [process_image] returns is the pasted-on white canvas. *)
Lemma process_image_invariant (env : Env) (image : Image) (interface : HiInterface)
    (canvas : Image) :
  process_image env image interface = Ok canvas ->
  size canvas = (2048, 2732) /\ mode canvas = RGB /\ wf_image canvas.
Proof.
  intros H. unfold process_image in H.
  repeat (apply rbind_Ok in H; destruct H as (? & _ & H)).
  apply Ok_inj in H. subst canvas.
  match goal with |- context [paste ?c ?i ?a ?m] =>
    destruct (paste_size c i a m) as [Hs Hm];
    pose proof (paste_wf c i a m) as Hwf
  end.
  rewrite Hs, Hm. split; [reflexivity|]. split; [reflexivity|].
  apply Hwf; [|reflexivity]. apply wf_Image_new; simpl; [lia | lia | reflexivity].
Qed.

(** [process_image] returns when the model does and the subject is neither
    too thin nor too flat to keep a pixel. *)
Lemma process_image_returns (env : Env) (image : Image) (interface : HiInterface)
    (out : Image) (rest : list Image) :
  carvekit env interface [ensure_portrait_mode image] = Ok (out :: rest) ->
  let subject := auto_rotate (trim_transparency out) in
  0 < width subject < 2 ^ 31 -> 0 < height subject < 2 ^ 31 ->
  height subject <= 1200 * width subject ->
  width subject <= 700 * height subject ->
  exists canvas, process_image env image interface = Ok canvas.
Proof.
  intros Hcall subject Hw Hh H1 H2.
  destruct (calculate_target_size_positive _ _ Hw Hh H1 H2) as (tw & th & Hc & Htw & Hth).
  destruct (resize_Ok env subject (tw, th) Htw Hth) as [resized Hr].
  unfold process_image. rewrite Hcall.
  cbn [mbind result_bind rbind item0]. fold subject.
  change (size subject) with (width subject, height subject). rewrite Hc.
  cbn [mbind result_bind rbind]. rewrite Hr.
  cbn [mbind result_bind rbind]. eauto.
Qed.

(** C1: every image that [process_image] returns is a well-formed
    2048 x 2732 canvas in mode RGB, whatever the input was; and it does
    return one whenever the background removal yields an image whose
    trimmed and rotated subject has sides within 1 : 700 and 1200 : 1. *)
Theorem process_image_canvas (env : Env) (image : Image) (interface : HiInterface) :
  (forall canvas,
     process_image env image interface = Ok canvas ->
     size canvas = (2048, 2732) /\ mode canvas = RGB /\ wf_image canvas) /\
  (forall out rest,
     carvekit env interface [ensure_portrait_mode image] = Ok (out :: rest) ->
     let subject := auto_rotate (trim_transparency out) in
     0 < width subject < 2 ^ 31 -> 0 < height subject < 2 ^ 31 ->
     height subject <= 1200 * width subject ->
     width subject <= 700 * height subject ->
     exists canvas, process_image env image interface = Ok canvas).
Proof.
  split.
  - apply process_image_invariant.
  - apply process_image_returns.
Qed.

Lemma process_image_canvas_witness :
  exists canvas,
    process_image quiet_env opaque_2x1 (initialize_interface quiet_env false) = Ok canvas /\
    size canvas = (2048, 2732) /\ mode canvas = RGB /\ wf_image canvas.
Proof.
  pose proof (process_image_canvas quiet_env opaque_2x1
                (initialize_interface quiet_env false)) as [Hinv Hret].
  destruct (Hret (ensure_portrait_mode opaque_2x1) [] eq_refl) as [canvas Hc];
    [vm_compute; split; congruence | vm_compute; split; congruence
    | vm_compute; congruence | vm_compute; congruence |].
  exists canvas. split; [exact Hc | exact (Hinv canvas Hc)].
Defined.

(** ** The batch *)

Lemma for_each_cons {A} (x : A) (l : list A) (body : A -> M unit) (w : World) :
  for_each (x :: l) body w =
  match body x w with
  | (Ok _, w') => for_each l body w'
  | (Raise e, w') => (Raise e, w')
  end.
Proof. reflexivity. Qed.

Section BatchFacts.

Variable env : Env.

(** The staging loop never raises: it leaves the files alone and fills
    the directory input by input. *)
Lemma stage_inputs_spec (interface : HiInterface) (temp_dir : string)
    (input_paths : list string) (w : World) (d : gmap string Image) :
  directories w !! temp_dir = Some d ->
  exists w',
    stage_inputs env interface temp_dir input_paths w = (Ok tt, w') /\
    files w' = files w /\
    directories w' =
      <[temp_dir := foldl (stage_step env interface temp_dir) d input_paths]> (directories w).
Proof.
  revert w d. induction input_paths as [|path paths IH]; intros w d Hd.
  - exists w. simpl. split; [reflexivity|]. split; [reflexivity|].
    symmetry. apply insert_id. exact Hd.
  - assert (Hstep : exists w1,
              try_except
                (img ← lift (Image_open env path);
                 processed ← lift (process_image env img interface);
                 save env processed temp_dir (Path.stem path +:+ "_processed.png"))
                (fun e => print ("Error processing " +:+ path +:+ ": " +:+ exn_str e)) w
              = (Ok tt, w1) /\
              files w1 = files w /\
              directories w1 = <[temp_dir := stage_step env interface temp_dir d path]>
                                 (directories w)).
    { unfold stage_step, item_result, try_except, lift, save, print, output_name.
      unfold mbind, M_bind, mbind', result_bind, rbind.
      destruct (Image_open env path) as [img|e]; simpl.
      - destruct (process_image env img interface) as [processed|e]; simpl.
        + destruct (save_fault env temp_dir _ processed) as [e|]; simpl.
          * eexists. split; [reflexivity|]. simpl. split; [reflexivity|].
            symmetry. apply insert_id. exact Hd.
          * rewrite Hd. eexists. split; [reflexivity|]. simpl. auto.
        + eexists. split; [reflexivity|]. simpl. split; [reflexivity|].
          symmetry. apply insert_id. exact Hd.
      - eexists. split; [reflexivity|]. simpl. split; [reflexivity|].
        symmetry. apply insert_id. exact Hd. }
    destruct Hstep as (w1 & Hrun & Hf1 & Hd1).
    destruct (IH w1 (stage_step env interface temp_dir d path)) as (w2 & Hrun2 & Hf2 & Hd2).
    { rewrite Hd1. apply lookup_insert_eq. }
    exists w2. split; [|split].
    + unfold stage_inputs in *. rewrite for_each_cons. cbv beta.
      rewrite Hrun. exact Hrun2.
    + congruence.
    + rewrite Hd2, Hd1, insert_insert_eq. reflexivity.
Qed.

(** Adding the files of a directory to the archive one by one. *)
Lemma write_members_spec (zip_path temp_dir : string) (d : gmap string Image)
    (kvs : list (string * Image)) (w : World) (members : list (string * Image)) :
  (forall f, zip_write_fault env f = None) ->
  directories w !! temp_dir = Some d ->
  Forall (fun kv => d !! kv.1 = Some kv.2) kvs ->
  files w !! zip_path = Some (ZipArchive members) ->
  exists w',
    for_each kvs.*1 (fun file => ZipFile_write env zip_path temp_dir file file) w
      = (Ok tt, w') /\
    files w' = <[zip_path := ZipArchive (members ++ kvs)]> (files w) /\
    directories w' = directories w.
Proof.
  intros Hq Hd. revert w members Hd.
  induction kvs as [|[f img] kvs IH]; intros w members Hd Hall Hz.
  - exists w. simpl. rewrite app_nil_r. split; [reflexivity|].
    split; [symmetry; apply insert_id; exact Hz | reflexivity].
  - inversion Hall as [|? ? Hf Hrest]; subst. simpl in Hf.
    set (w1 := {| files := <[zip_path := ZipArchive (members ++ [(f, img)])]> (files w);
                  directories := directories w;
                  console := console w |}).
    assert (Hrun : ZipFile_write env zip_path temp_dir f f w = (Ok tt, w1)).
    { unfold ZipFile_write. rewrite Hq, Hd. simpl. rewrite Hf, Hz. reflexivity. }
    destruct (IH w1 (members ++ [(f, img)])) as (w2 & Hrun2 & Hf2 & Hd2);
      [exact Hd | exact Hrest | apply lookup_insert_eq |].
    exists w2. split; [|split].
    + rewrite fmap_cons, for_each_cons. cbv beta. simpl fst.
      rewrite Hrun. exact Hrun2.
    + rewrite Hf2. simpl. rewrite insert_insert_eq, <- app_assoc. reflexivity.
    + rewrite Hd2. reflexivity.
Qed.

(** Without faults the archive receives exactly the files of the
    directory. *)
Lemma write_archive_spec (zip_path temp_dir : string) (d : gmap string Image)
    (w : World) :
  zip_open_fault env zip_path = None ->
  (forall f, zip_write_fault env f = None) ->
  directories w !! temp_dir = Some d ->
  exists w',
    write_archive env zip_path temp_dir w = (Ok tt, w') /\
    files w' = <[zip_path := ZipArchive (map_to_list d)]> (files w) /\
    directories w' = directories w.
Proof.
  intros Ho Hq Hd.
  set (w1 := {| files := <[zip_path := ZipArchive []]> (files w);
                directories := directories w;
                console := console w |}).
  destruct (write_members_spec zip_path temp_dir d (map_to_list d) w1 []) as
    (w2 & Hrun & Hf & Hdd); try assumption.
  - apply Forall_forall. intros [f img] Hin. simpl.
    apply elem_of_map_to_list. exact Hin.
  - apply lookup_insert_eq.
  - exists w2. split; [|split].
    + unfold write_archive, ZipFile_open, os_walk_files.
      unfold mbind, M_bind, mbind'. rewrite Ho. fold w1.
      change (directories w1) with (directories w). rewrite Hd. exact Hrun.
    + rewrite Hf. simpl. rewrite insert_insert_eq. reflexivity.
    + rewrite Hdd. reflexivity.
Qed.

Lemma archive_start_spec (input_paths : list string) (use_gpu : bool) (w : World) :
  let interface := initialize_interface env use_gpu in
  let w0 := {| files := <[temp_zip_name env := Blank]> (files w);
               directories := <[temp_dir_name env := ∅]> (directories w);
               console := console w |} in
  stage_inputs env interface (temp_dir_name env) input_paths w0
    = (Ok tt, archive_start env input_paths use_gpu w) /\
  files (archive_start env input_paths use_gpu w)
    = <[temp_zip_name env := Blank]> (files w) /\
  directories (archive_start env input_paths use_gpu w) !! temp_dir_name env
    = Some (foldl (stage_step env interface (temp_dir_name env)) ∅ input_paths).
Proof.
  intros interface w0.
  destruct (stage_inputs_spec interface (temp_dir_name env) input_paths w0 ∅)
    as (w1 & Hrun & Hf & Hd); [apply lookup_insert_eq|].
  unfold archive_start. fold interface. fold w0. rewrite Hrun. simpl.
  split; [reflexivity|]. split; [exact Hf|].
  rewrite Hd. apply lookup_insert_eq.
Qed.

(** [_process_files] in terms of the two blocks of its [try]. *)
Lemma process_files_unfold (input_paths : list string) (use_gpu : bool) (w : World) :
  _process_files env input_paths use_gpu w =
  let zip := temp_zip_name env in
  match write_archive env zip (temp_dir_name env) (archive_start env input_paths use_gpu w) with
  | (Ok _, w2) =>
      (Ok {| name := zip |},
       {| files := files w2;
          directories := delete (temp_dir_name env) (directories w2);
          console := console w2 |})
  | (Raise e, w2) =>
      let w3 := {| files := files w2;
                   directories := delete (temp_dir_name env) (directories w2);
                   console := console w2 |} in
      match os_remove zip w3 with
      | (Ok _, w4) => (Raise e, w4)
      | (Raise e', w4) => (Raise e', w4)
      end
  end.
Proof.
  destruct (archive_start_spec input_paths use_gpu w) as (Hrun & _ & _).
  cbv zeta in Hrun.
  unfold _process_files, NamedTemporaryFile_new, try_finally, try_except,
    with_TemporaryDirectory.
  unfold mbind, M_bind, mbind', mret, M_ret, raise.
  cbn [name files directories console]. rewrite Hrun. cbv beta iota zeta.
  destruct (write_archive env (temp_zip_name env) (temp_dir_name env)
              (archive_start env input_paths use_gpu w)) as [[[]|e] w2].
  - reflexivity.
  - destruct (os_remove (temp_zip_name env) _) as [[[]|e'] w4]; reflexivity.
Qed.

(** The archive file is there from the creation of the temporary file to
    the end of the writing. *)
Lemma write_members_keep_file (zip_path temp_dir : string) (l : list string)
    (w : World) :
  is_Some (files w !! zip_path) ->
  is_Some (files (for_each l (fun file => ZipFile_write env zip_path temp_dir file file)
                    w).2 !! zip_path).
Proof.
  revert w. induction l as [|f l IH]; intros w Hz; [exact Hz|].
  rewrite for_each_cons. cbv beta. unfold ZipFile_write at 1.
  destruct (zip_write_fault env f); [exact Hz|].
  destruct (directories w !! temp_dir ≫= (.!! f)); [|exact Hz].
  destruct (files w !! zip_path) as [[|members]|] eqn:E.
  - cbn [snd]. rewrite E. eauto.
  - apply IH. cbn [files]. rewrite lookup_insert_eq. eauto.
  - cbn [snd]. rewrite E. exact Hz.
Qed.

Lemma write_archive_keeps_file (zip_path temp_dir : string) (w : World) :
  is_Some (files w !! zip_path) ->
  is_Some (files (write_archive env zip_path temp_dir w).2 !! zip_path).
Proof.
  intros Hz. unfold write_archive, ZipFile_open, os_walk_files.
  unfold mbind, M_bind, mbind'.
  destruct (zip_open_fault env zip_path); [exact Hz|].
  apply write_members_keep_file. cbn [files]. rewrite lookup_insert_eq. eauto.
Qed.

End BatchFacts.

(** C9: for the empty list of inputs, when the archive can be opened for
    writing, [_process_files] returns the temporary file, and that file is
    an archive without members. *)
Theorem process_files_empty (env : Env) (use_gpu : bool) (w : World) :
  zip_open_fault env (temp_zip_name env) = None ->
  exists w',
    _process_files env [] use_gpu w = (Ok {| name := temp_zip_name env |}, w') /\
    files w' !! temp_zip_name env = Some (ZipArchive []).
Proof.
  intros Ho. rewrite process_files_unfold. cbv zeta.
  unfold archive_start. simpl stage_inputs. unfold mret. simpl snd.
  unfold write_archive, ZipFile_open, os_walk_files.
  unfold mbind, M_bind, mbind'. rewrite Ho. simpl directories.
  rewrite lookup_insert_eq, map_to_list_empty. simpl.
  eexists. split; [reflexivity|]. simpl. apply lookup_insert_eq.
Qed.

Lemma process_files_empty_witness :
  exists w',
    _process_files quiet_env [] false
      {| files := ∅; directories := ∅; console := [] |}
      = (Ok {| name := "/tmp/tmpk3v9.zip" |}, w') /\
    files w' !! "/tmp/tmpk3v9.zip" = Some (ZipArchive []).
Proof.
  apply (process_files_empty quiet_env false
           {| files := ∅; directories := ∅; console := [] |}).
  reflexivity.
Defined.

(** C4: when the writing of the archive raises an error, [_process_files]
    raises that error, and the temporary archive file is gone. *)
Theorem archive_failure_removes_file (env : Env) (input_paths : list string)
    (use_gpu : bool) (w : World) (e : exn) :
  (write_archive env (temp_zip_name env) (temp_dir_name env)
     (archive_start env input_paths use_gpu w)).1 = Raise e ->
  exists w',
    _process_files env input_paths use_gpu w = (Raise e, w') /\
    files w' !! temp_zip_name env = None.
Proof.
  intros Hfail. rewrite process_files_unfold. cbv zeta.
  pose proof (write_archive_keeps_file env (temp_zip_name env) (temp_dir_name env)
                (archive_start env input_paths use_gpu w)) as Hkeep.
  destruct (archive_start_spec env input_paths use_gpu w) as (_ & Hf & _).
  rewrite Hf, lookup_insert_eq in Hkeep. specialize (Hkeep ltac:(eauto)).
  destruct (write_archive env (temp_zip_name env) (temp_dir_name env)
              (archive_start env input_paths use_gpu w)) as [[u|e'] w2];
    simpl in Hfail, Hkeep; [discriminate|].
  injection Hfail as ->.
  unfold os_remove. simpl files. destruct Hkeep as [f Hfile]. rewrite Hfile.
  eexists. split; [reflexivity|]. simpl. apply lookup_delete_eq.
Qed.

Lemma archive_failure_removes_file_witness :
  exists w',
    _process_files full_disk_env ["/in/a.png"] false
      {| files := ∅; directories := ∅; console := [] |}
      = (Raise (ExternalError "No space left on device"), w') /\
    files w' !! "/tmp/tmpk3v9.zip" = None.
Proof.
  apply (archive_failure_removes_file full_disk_env ["/in/a.png"] false
           {| files := ∅; directories := ∅; console := [] |}).
  reflexivity.
Defined.

(** ** One archive member per success *)

Section Members.

Variable env : Env.
Variable use_gpu : bool.

Let interface := initialize_interface env use_gpu.
Let temp_dir := temp_dir_name env.

Lemma stage_step_ok (d : gmap string Image) (path : string) :
  item_ok env interface temp_dir path = true ->
  exists processed, stage_step env interface temp_dir d path
                    = <[output_name path := processed]> d.
Proof.
  unfold item_ok, stage_step. destruct (item_result env interface path) as [c|e];
    [|discriminate].
  destruct (save_fault env temp_dir (output_name path) c); [discriminate|]. eauto.
Qed.

Lemma stage_step_failed (d : gmap string Image) (path : string) :
  item_ok env interface temp_dir path = false ->
  stage_step env interface temp_dir d path = d.
Proof.
  unfold item_ok, stage_step. destruct (item_result env interface path) as [c|e];
    [|reflexivity].
  destruct (save_fault env temp_dir (output_name path) c); [reflexivity|discriminate].
Qed.

(** The names in the staging directory are the output names of the
    inputs that succeeded. *)
Lemma staged_dom (paths : list string) (d : gmap string Image) :
  dom (foldl (stage_step env interface temp_dir) d paths) =
  dom d ∪ list_to_set (output_name <$> filter (fun p => item_ok env interface temp_dir p = true) paths).
Proof.
  revert d. induction paths as [|path paths IH]; intros d; simpl.
  - rewrite (right_id_L ∅ (∪)). reflexivity.
  - rewrite IH. destruct (item_ok env interface temp_dir path) eqn:Hok.
    + destruct (stage_step_ok d path Hok) as [c ->].
      rewrite filter_cons_True by exact Hok.
      rewrite dom_insert_L, fmap_cons, list_to_set_cons.
      rewrite (comm_L (∪) {[output_name path]} (dom d)), (assoc_L (∪)). reflexivity.
    + rewrite (stage_step_failed d path Hok).
      rewrite filter_cons_False by (rewrite Hok; discriminate). reflexivity.
Qed.

(** Without archive faults, [_process_files] returns the temporary file,
    and its members are the files of the staging directory. *)
Lemma process_files_members (input_paths : list string) (w : World) :
  zip_open_fault env (temp_zip_name env) = None ->
  (forall f, zip_write_fault env f = None) ->
  exists w',
    _process_files env input_paths use_gpu w
      = (Ok {| name := temp_zip_name env |}, w') /\
    files w' !! temp_zip_name env
      = Some (ZipArchive (map_to_list (foldl (stage_step env interface temp_dir) ∅
                                         input_paths))).
Proof.
  intros Ho Hq. rewrite process_files_unfold. cbv zeta.
  destruct (archive_start_spec env input_paths use_gpu w) as (_ & Hf & Hd).
  destruct (write_archive_spec env (temp_zip_name env) (temp_dir_name env) _ _ Ho Hq Hd)
    as (w2 & Hrun & Hf2 & _).
  rewrite Hrun. eexists. split; [reflexivity|].
  cbn [files]. rewrite Hf2. apply lookup_insert_eq.
Qed.

(** X13: When the inputs that succeed have pairwise different output names,
    the archive has one member for each of them, under that name: [N - M]
    members for [N] inputs of which [M] fail. *)
Lemma process_files_one_member_per_success (input_paths : list string) (w : World) :
  let succeeded := filter (fun p => item_ok env interface temp_dir p = true) input_paths in
  zip_open_fault env (temp_zip_name env) = None ->
  (forall f, zip_write_fault env f = None) ->
  NoDup (output_name <$> succeeded) ->
  exists w' members,
    _process_files env input_paths use_gpu w
      = (Ok {| name := temp_zip_name env |}, w') /\
    files w' !! temp_zip_name env = Some (ZipArchive members) /\
    length members = length succeeded /\
    members.*1 ≡ₚ output_name <$> succeeded.
Proof.
  intros succeeded Ho Hq Hnd.
  destruct (process_files_members input_paths w Ho Hq) as (w' & Hrun & Hfile).
  set (d := foldl (stage_step env interface temp_dir) ∅ input_paths) in *.
  exists w', (map_to_list d). split; [exact Hrun|]. split; [exact Hfile|].
  assert (Hperm : (map_to_list d).*1 ≡ₚ output_name <$> succeeded).
  { apply NoDup_Permutation.
    - apply NoDup_fst_map_to_list.
    - exact Hnd.
    - intros f.
      assert (Hdom : f ∈ (map_to_list d).*1 <-> f ∈ dom d).
      { rewrite elem_of_dom. split.
        - intros Hin. apply list_elem_of_fmap in Hin as [[k v] [-> Hin]].
          apply elem_of_map_to_list in Hin. eauto.
        - intros [v Hv]. apply list_elem_of_fmap. exists (f, v).
          split; [reflexivity|]. apply elem_of_map_to_list. exact Hv. }
      rewrite Hdom. unfold d. rewrite staged_dom, dom_empty_L. fold succeeded.
      rewrite elem_of_union, elem_of_list_to_set.
      split; [intros [Hin|Hin]; [|exact Hin] | auto].
      apply not_elem_of_empty in Hin. contradiction. }
  split; [|exact Hperm].
  rewrite <- (length_fmap fst (map_to_list d)), Hperm, length_fmap. reflexivity.
Qed.

End Members.

(** ** Two inputs with one stem *)

Lemma quiet_env_item_ok (path : string) :
  item_ok quiet_env (initialize_interface quiet_env false) (temp_dir_name quiet_env) path
  = true.
Proof.
  unfold item_ok, item_result.
  change (Image_open quiet_env path) with (Ok opaque_2x1).
  cbn [mbind result_bind rbind].
  destruct (process_image_returns quiet_env opaque_2x1
              (initialize_interface quiet_env false)
              (ensure_portrait_mode opaque_2x1) [] eq_refl) as [canvas Hc];
    [vm_compute; split; congruence | vm_compute; split; congruence
    | vm_compute; congruence | vm_compute; congruence |].
  rewrite Hc. reflexivity.
Qed.

(** C2 at two different files named [x.png]: both are decoded, processed
    and saved, nothing fails, and the archive has a single member: the
    second output replaced the first one under the name they share. *)
Theorem process_files_same_stem :
  NoDup same_stem_inputs /\
  Forall (fun path => item_ok quiet_env (initialize_interface quiet_env false)
                        (temp_dir_name quiet_env) path = true) same_stem_inputs /\
  exists w' members,
    _process_files quiet_env same_stem_inputs false
      {| files := ∅; directories := ∅; console := [] |}
      = (Ok {| name := "/tmp/tmpk3v9.zip" |}, w') /\
    files w' !! "/tmp/tmpk3v9.zip" = Some (ZipArchive members) /\
    members.*1 = ["x_processed.png"] /\
    length members = 1%nat /\ length same_stem_inputs = 2%nat.
Proof.
  split.
  { unfold same_stem_inputs. apply NoDup_cons. split.
    - intros Hin. apply list_elem_of_singleton in Hin. discriminate.
    - apply NoDup_singleton. }
  split.
  { unfold same_stem_inputs. repeat constructor; apply quiet_env_item_ok. }
  destruct (process_files_members quiet_env false same_stem_inputs
              {| files := ∅; directories := ∅; console := [] |} eq_refl
              (fun _ => eq_refl)) as (w' & Hrun & Hfile).
  unfold same_stem_inputs in Hfile. cbn [foldl] in Hfile.
  destruct (stage_step_ok quiet_env false ∅ "/photos/a/x.png"
              (quiet_env_item_ok _)) as [c1 H1].
  rewrite H1 in Hfile.
  destruct (stage_step_ok quiet_env false
              (<[output_name "/photos/a/x.png" := c1]> ∅) "/photos/b/x.png"
              (quiet_env_item_ok _)) as [c2 H2].
  rewrite H2 in Hfile.
  change (output_name "/photos/a/x.png") with "x_processed.png" in Hfile.
  change (output_name "/photos/b/x.png") with "x_processed.png" in Hfile.
  rewrite insert_insert_eq, insert_empty, map_to_list_singleton in Hfile.
  exists w', [("x_processed.png", c2)].
  split; [exact Hrun|]. split; [exact Hfile|]. repeat split.
Qed.

(** * Further properties of the code *)

(** ** Orientation *)

Lemma omap_length_all {A B} (f : A -> option B) (l : list A) :
  Forall (fun x => is_Some (f x)) l -> length (omap f l) = length l.
Proof.
  induction 1 as [|x l [y Hy] _ IH]; simpl; [reflexivity|].
  rewrite Hy. simpl. f_equal. exact IH.
Qed.

Lemma omap_Forall {A B} (f : A -> option B) (P : A -> Prop) (Q : B -> Prop) (l : list A) :
  (forall x y, P x -> f x = Some y -> Q y) -> Forall P l -> Forall Q (omap f l).
Proof.
  intros Hf. induction 1 as [|x l Hx _ IH]; simpl; [constructor|].
  destruct (f x) as [y|] eqn:E; [|exact IH].
  constructor; [exact (Hf x y Hx E) | exact IH].
Qed.

Lemma columns_length (w : nat) (rows : list (list Pixel)) : length (columns w rows) = w.
Proof. unfold columns. rewrite length_fmap, length_seq. reflexivity. Qed.

Lemma columns_rows (w : nat) (rows : list (list Pixel)) :
  Forall (fun row => length row = w) rows ->
  Forall (fun col => length col = length rows) (columns w rows).
Proof.
  intros Hrows. unfold columns. apply Forall_fmap, Forall_forall. intros x Hx. simpl.
  apply elem_of_seq in Hx. apply omap_length_all.
  eapply Forall_impl; [exact Hrows|]. intros row Hrow. simpl in Hrow.
  apply lookup_lt_is_Some. lia.
Qed.

Lemma columns_pixels (P : Pixel -> Prop) (w : nat) (rows : list (list Pixel)) :
  Forall (Forall P) rows -> Forall (Forall P) (columns w rows).
Proof.
  intros Hrows. unfold columns. apply Forall_fmap, Forall_forall. intros x _. simpl.
  eapply omap_Forall; [|exact Hrows]. intros row p Hrow Hp. simpl in Hrow.
  rewrite Forall_forall in Hrow. apply Hrow. eapply list_elem_of_lookup_2. exact Hp.
Qed.

(** The shape of transposed pixel rows. *)
Lemma transpose_data_shape (P : Pixel -> Prop) (method : Transpose) (w : nat)
    (rows : list (list Pixel)) :
  Forall (fun row => length row = w) rows -> Forall (Forall P) rows ->
  let rows' := transpose_data method w rows in
  length rows' = (if swaps_axes method then w else length rows) /\
  Forall (fun row => length row = if swaps_axes method then length rows else w) rows' /\
  Forall (Forall P) rows'.
Proof.
  intros Hw HP.
  pose proof (columns_length w rows) as Hcl.
  pose proof (columns_rows w rows Hw) as Hcr.
  pose proof (columns_pixels P w rows HP) as Hcp.
  assert (Hmap : forall (Q : list Pixel -> Prop) (l : list (list Pixel)),
            (forall r, Q r -> Q (reverse r)) -> Forall Q l -> Forall Q (reverse <$> l)).
  { intros Q l HQ Hl. apply Forall_fmap. eapply Forall_impl; [exact Hl|]. exact HQ. }
  assert (Hrev : forall (Q : list Pixel -> Prop) (l : list (list Pixel)),
            Forall Q l -> Forall Q (reverse l))
    by (intros Q l Hl; apply Forall_reverse; exact Hl).
  assert (Hlen : forall n (r : list Pixel), length r = n -> length (reverse r) = n)
    by (intros n r <-; apply length_reverse).
  assert (HPr : forall r : list Pixel, Forall P r -> Forall P (reverse r))
    by (intros r Hr; apply Forall_reverse; exact Hr).
  destruct method; simpl;
    rewrite ?length_reverse, ?length_fmap, ?Hcl;
    (split; [reflexivity|]); split; auto 6.
Qed.

(** [Image.transpose] keeps an image well formed. *)
Lemma transpose_wf (image : Image) (method : Transpose) :
  wf_image image -> wf_image (transpose image method).
Proof.
  intros [Hh Hw Hw0 Hb].
  assert (Hw' : Forall (fun row => length row = Z.to_nat (width image)) (data image)).
  { eapply Forall_impl; [exact Hw|]. intros row Hrow. simpl in Hrow. lia. }
  destruct (transpose_data_shape (fun p => length p = bands (mode image)) method
              (Z.to_nat (width image)) (data image) Hw' Hb) as (Hl & Hr & Hp).
  constructor; simpl.
  - rewrite Hl. destruct (swaps_axes method); lia.
  - eapply Forall_impl; [exact Hr|]. intros row Hrow. simpl in Hrow.
    rewrite Hrow. destruct (swaps_axes method); lia.
  - destruct (swaps_axes method); lia.
  - exact Hp.
Qed.

(** X1: [ensure_portrait_mode] returns a well-formed image that is not wider
    than high, with the mode, the metadata and the number of pixels of its
    input; applied again it changes nothing. *)
Theorem ensure_portrait_mode_portrait (image : Image) :
  wf_image image ->
  let portrait := ensure_portrait_mode image in
  wf_image portrait /\
  width portrait <= height portrait /\
  width portrait * height portrait = width image * height image /\
  mode portrait = mode image /\ orientation portrait = orientation image /\
  ensure_portrait_mode portrait = portrait.
Proof.
  intros Hwf. unfold ensure_portrait_mode.
  destruct (Z.ltb_spec (height image) (width image)) as [Hlt|Hle].
  - split; [apply transpose_wf; exact Hwf|]. simpl.
    split; [lia|]. split; [lia|]. split; [reflexivity|]. split; [reflexivity|].
    replace (width image <? height image) with false
      by (symmetry; apply Z.ltb_ge; lia).
    reflexivity.
  - split; [exact Hwf|]. split; [lia|]. split; [reflexivity|].
    split; [reflexivity|]. split; [reflexivity|].
    replace (height image <? width image) with false
      by (symmetry; apply Z.ltb_ge; lia).
    reflexivity.
Qed.

Lemma ensure_portrait_mode_portrait_witness :
  wf_image opaque_2x1 /\
  width (ensure_portrait_mode opaque_2x1) <= height (ensure_portrait_mode opaque_2x1).
Proof.
  assert (Hwf : wf_image opaque_2x1) by (constructor; simpl; repeat constructor; lia).
  split; [exact Hwf|].
  apply (ensure_portrait_mode_portrait opaque_2x1 Hwf).
Defined.

(** X2: [auto_rotate] returns a well-formed image whose orientation tag asks for
    no further transposition, so a second application changes nothing; the
    sides are those of the input, swapped exactly for the tags 5 to 8. *)
Theorem auto_rotate_normalizes (image : Image) :
  wf_image image ->
  let rotated := auto_rotate image in
  wf_image rotated /\
  exif_method (orientation rotated) = None /\
  auto_rotate rotated = rotated /\
  mode rotated = mode image /\
  size rotated = (if bool_decide (orientation image ∈ [Some 5; Some 6; Some 7; Some 8])
                  then (height image, width image) else size image).
Proof.
  intros Hwf. unfold auto_rotate, exif_transpose.
  destruct (exif_method (orientation image)) as [method|] eqn:E.
  - assert (Hwf' : wf_image (transpose image method)) by (apply transpose_wf; exact Hwf).
    split.
    { destruct Hwf' as [H1 H2 H3 H4]. constructor; assumption. }
    simpl. split; [reflexivity|]. split; [reflexivity|]. split; [reflexivity|].
    unfold size. simpl.
    unfold exif_method in E.
    repeat match type of E with
           | match ?x with _ => _ end = _ => destruct x; try discriminate
           end;
      injection E as <-; reflexivity.
  - split; [exact Hwf|]. split; [exact E|]. rewrite E.
    split; [reflexivity|]. split; [reflexivity|].
    rewrite bool_decide_eq_false_2; [reflexivity|].
    intros Hin. repeat (apply elem_of_cons in Hin as [Hin|Hin]);
      try (rewrite Hin in E; discriminate).
    inversion Hin.
Qed.

Lemma auto_rotate_normalizes_witness :
  wf_image sideways_2x1 /\ size (auto_rotate sideways_2x1) = (1, 2) /\
  auto_rotate (auto_rotate sideways_2x1) = auto_rotate sideways_2x1.
Proof.
  assert (Hwf : wf_image sideways_2x1) by (constructor; simpl; repeat constructor; lia).
  destruct (auto_rotate_normalizes sideways_2x1 Hwf) as (_ & _ & Hidem & _ & Hsize).
  split; [exact Hwf|]. split; [exact Hsize | exact Hidem].
Defined.

(** ** The bounding box *)

Section FindIndexFacts.

Context {A : Type} (p : A -> bool).

Lemma find_index_Some (l : list A) (i : nat) :
  find_index p l = Some i ->
  (exists x, l !! i = Some x /\ p x = true) /\
  (forall j y, (j < i)%nat -> l !! j = Some y -> p y = false).
Proof.
  revert i. induction l as [|x l IH]; intros i H; simpl in H; [discriminate|].
  destruct (p x) eqn:Hx.
  - injection H as <-. split; [exists x; auto|]. intros j y Hj. lia.
  - destruct (find_index p l) as [k|] eqn:Hk; [|discriminate].
    simpl in H. injection H as <-.
    destruct (IH k eq_refl) as [Hex Hmin]. split; [exact Hex|].
    intros [|j] y Hj Hy; simpl in Hy.
    + injection Hy as <-. exact Hx.
    + apply (Hmin j y); [lia | exact Hy].
Qed.

Lemma find_index_le (l : list A) (j : nat) (y : A) :
  l !! j = Some y -> p y = true ->
  exists i, find_index p l = Some i /\ (i <= j)%nat.
Proof.
  revert j. induction l as [|x l IH]; intros j Hy Hp; [discriminate|].
  simpl. destruct (p x) eqn:Hx; [exists O; split; [reflexivity | lia]|].
  destruct j as [|j]; simpl in Hy.
  - injection Hy as ->. congruence.
  - destruct (IH j Hy Hp) as (i & -> & Hi). exists (S i). split; [reflexivity | lia].
Qed.

Lemma find_last_index_Some (l : list A) (i : nat) :
  find_last_index p l = Some i ->
  (exists x, l !! i = Some x /\ p x = true) /\
  (forall j y, (i < j)%nat -> l !! j = Some y -> p y = false).
Proof.
  unfold find_last_index. intros H.
  destruct (find_index p (reverse l)) as [k|] eqn:Hk; [|discriminate].
  simpl in H. injection H as <-.
  destruct (find_index_Some _ _ Hk) as [(x & Hx & Hpx) Hmin].
  assert (Hlt : (k < length l)%nat)
    by (rewrite <- length_reverse; eapply lookup_lt_Some; exact Hx).
  rewrite reverse_lookup in Hx by exact Hlt.
  split.
  - exists x. split; [|exact Hpx]. rewrite <- Hx. f_equal. lia.
  - intros j y Hj Hy.
    assert (Hjl : (j < length l)%nat) by (eapply lookup_lt_Some; exact Hy).
    apply (Hmin (length l - S j)%nat y); [lia|].
    rewrite reverse_lookup by lia. rewrite <- Hy. f_equal. lia.
Qed.

Lemma find_last_index_ge (l : list A) (j : nat) (y : A) :
  l !! j = Some y -> p y = true ->
  exists i, find_last_index p l = Some i /\ (j <= i)%nat.
Proof.
  intros Hy Hp.
  assert (Hjl : (j < length l)%nat) by (eapply lookup_lt_Some; exact Hy).
  destruct (find_index_le (reverse l) (length l - S j)%nat y) as (k & Hk & Hle).
  - rewrite reverse_lookup by lia. rewrite <- Hy. f_equal. lia.
  - exact Hp.
  - unfold find_last_index. rewrite Hk. simpl. eexists. split; [reflexivity | lia].
Qed.

End FindIndexFacts.

Lemma foldr_min_le_init (m : nat) (l : list nat) : (foldr Nat.min m l <= m)%nat.
Proof. induction l as [|x l IH]; simpl; lia. Qed.

Lemma foldr_min_le (m x : nat) (l : list nat) : x ∈ l -> (foldr Nat.min m l <= x)%nat.
Proof.
  induction l as [|z l IH]; intros Hin; [inversion Hin|].
  apply elem_of_cons in Hin as [->|Hin]; simpl; [lia|]. specialize (IH Hin). lia.
Qed.

Lemma foldr_min_elem (m : nat) (l : list nat) :
  l <> [] -> (forall x, x ∈ l -> (x <= m)%nat) -> foldr Nat.min m l ∈ l.
Proof.
  induction l as [|z l IH]; intros Hne Hle; [congruence|]. simpl.
  destruct l as [|z' l].
  - simpl. assert (z <= m)%nat by (apply Hle; left).
    replace (Nat.min z m) with z by lia. left.
  - assert (Hin : foldr Nat.min m (z' :: l) ∈ z' :: l).
    { apply IH; [congruence|]. intros x Hx. apply Hle. right. exact Hx. }
    destruct (Nat.le_gt_cases z (foldr Nat.min m (z' :: l))).
    + replace (Nat.min z (foldr Nat.min m (z' :: l))) with z by lia. left.
    + replace (Nat.min z (foldr Nat.min m (z' :: l)))
        with (foldr Nat.min m (z' :: l)) by lia.
      right. exact Hin.
Qed.

Lemma foldr_max_ge (x : nat) (l : list nat) : x ∈ l -> (x <= foldr Nat.max O l)%nat.
Proof.
  induction l as [|z l IH]; intros Hin; [inversion Hin|].
  apply elem_of_cons in Hin as [->|Hin]; simpl; [lia|]. specialize (IH Hin). lia.
Qed.

Lemma foldr_max_elem (l : list nat) : l <> [] -> foldr Nat.max O l ∈ l.
Proof.
  induction l as [|z l IH]; intros Hne; [congruence|]. simpl.
  destruct l as [|z' l].
  - simpl. replace (Nat.max z 0) with z by lia. left.
  - assert (Hin : foldr Nat.max O (z' :: l) ∈ z' :: l) by (apply IH; congruence).
    destruct (Nat.le_gt_cases (foldr Nat.max O (z' :: l)) z).
    + replace (Nat.max z (foldr Nat.max O (z' :: l))) with z by lia. left.
    + replace (Nat.max z (foldr Nat.max O (z' :: l)))
        with (foldr Nat.max O (z' :: l)) by lia.
      right. exact Hin.
Qed.

Lemma row_has_data_true (m : Mode) (row : list Pixel) :
  row_has_data m row = true <->
  exists x p, row !! x = Some p /\ has_data m p = true.
Proof.
  unfold row_has_data. rewrite existsb_exists. split.
  - intros (p & Hin & Hp). apply list_elem_of_In, list_elem_of_lookup_1 in Hin as [x Hx].
    eauto.
  - intros (x & p & Hx & Hp). exists p. split; [|exact Hp].
    apply list_elem_of_In. eapply list_elem_of_lookup_2. exact Hx.
Qed.

Lemma pixel_data_row (image : Image) (x y : nat) :
  pixel_data image x y <->
  exists row p, data image !! y = Some row /\ row !! x = Some p /\
                has_data (mode image) p = true.
Proof.
  unfold pixel_data, getpixel. split.
  - intros (p & Hp & Hd). destruct (data image !! y) as [row|] eqn:E; [|discriminate].
    simpl in Hp. eauto.
  - intros (row & p & Hrow & Hp & Hd). exists p. rewrite Hrow. simpl. auto.
Qed.

(** What [getbbox] returns is the bounding box of the data. *)
Lemma getbbox_Some_fits (image : Image) (x0 y0 x1 y1 : Z) :
  wf_image image -> getbbox image = Some (x0, y0, x1, y1) ->
  exists l t r b : nat,
    x0 = Z.of_nat l /\ y0 = Z.of_nat t /\
    x1 = Z.of_nat r + 1 /\ y1 = Z.of_nat b + 1 /\
    bbox_fits image l t r b.
Proof.
  intros [Hh Hw Hw0 _] H. unfold getbbox in H.
  set (m := mode image) in *. set (rows := data image) in *.
  destruct (find_index (row_has_data m) rows) as [t|] eqn:Et; [|discriminate].
  destruct (find_last_index (row_has_data m) rows) as [b|] eqn:Eb; [|discriminate].
  set (lefts := omap (find_index (has_data m)) rows) in *.
  set (rights := omap (find_last_index (has_data m)) rows) in *.
  injection H as <- <- <- <-.
  destruct (find_index_Some _ _ _ Et) as [(rowt & Hrowt & Hdt) Hmin].
  destruct (find_last_index_Some _ _ _ Eb) as [(rowb & Hrowb & Hdb) Hmax].
  apply row_has_data_true in Hdt as (xt & pt & Hxt & Hpt).
  apply row_has_data_true in Hdb as (xb & pb & Hxb & Hpb).
  assert (Hlen : forall row, row ∈ rows -> length row = Z.to_nat (width image)).
  { intros row Hin. rewrite Forall_forall in Hw. specialize (Hw row Hin). simpl in Hw. lia. }
  assert (Hlefts : lefts <> []).
  { destruct (find_index_le (has_data m) rowt xt pt Hxt Hpt) as (i & Hi & _).
    intros Hnil. assert (Hin : i ∈ lefts).
    { apply list_elem_of_omap. exists rowt. split; [|exact Hi].
      eapply list_elem_of_lookup_2. exact Hrowt. }
    rewrite Hnil in Hin. inversion Hin. }
  assert (Hrights : rights <> []).
  { destruct (find_last_index_ge (has_data m) rowt xt pt Hxt Hpt) as (i & Hi & _).
    intros Hnil. assert (Hin : i ∈ rights).
    { apply list_elem_of_omap. exists rowt. split; [|exact Hi].
      eapply list_elem_of_lookup_2. exact Hrowt. }
    rewrite Hnil in Hin. inversion Hin. }
  exists (foldr Nat.min (Z.to_nat (width image)) lefts), t, (foldr Nat.max O rights), b.
  do 4 (split; [reflexivity|]).
  split; [|split; [|split; [|split]]].
  - intros x y Hxy. apply pixel_data_row in Hxy as (row & p & Hrow & Hp & Hd).
    fold rows in Hrow. fold m in Hd.
    assert (Hrd : row_has_data m row = true) by (apply row_has_data_true; eauto).
    destruct (find_index_le (has_data m) row x p Hp Hd) as (i & Hi & Hix).
    destruct (find_last_index_ge (has_data m) row x p Hp Hd) as (j & Hj & Hjx).
    assert (Hin : row ∈ rows) by (eapply list_elem_of_lookup_2; exact Hrow).
    assert (Hil : i ∈ lefts) by (apply list_elem_of_omap; eauto).
    assert (Hjr : j ∈ rights) by (apply list_elem_of_omap; eauto).
    pose proof (foldr_min_le (Z.to_nat (width image)) i lefts Hil).
    pose proof (foldr_max_ge j rights Hjr).
    split; [lia|]. split.
    + destruct (Nat.le_gt_cases t y) as [|Hlt]; [assumption|].
      rewrite (Hmin y row Hlt Hrow) in Hrd. discriminate.
    + destruct (Nat.le_gt_cases y b) as [|Hlt]; [assumption|].
      rewrite (Hmax y row Hlt Hrow) in Hrd. discriminate.
  - exists xt. apply pixel_data_row. eauto 6.
  - exists xb. apply pixel_data_row. eauto 6.
  - assert (Hin : foldr Nat.min (Z.to_nat (width image)) lefts ∈ lefts).
    { apply foldr_min_elem; [exact Hlefts|]. intros i Hi.
      apply list_elem_of_omap in Hi as (row & Hrow & Hi).
      destruct (find_index_Some _ _ _ Hi) as [(p & Hp & _) _].
      apply lookup_lt_Some in Hp. rewrite (Hlen row Hrow) in Hp. lia. }
    apply list_elem_of_omap in Hin as (row & Hrow & Hi).
    destruct (find_index_Some _ _ _ Hi) as [(p & Hp & Hd) _].
    apply list_elem_of_lookup_1 in Hrow as [y Hy].
    exists y. apply pixel_data_row. eauto 6.
  - assert (Hin : foldr Nat.max O rights ∈ rights) by (apply foldr_max_elem; exact Hrights).
    apply list_elem_of_omap in Hin as (row & Hrow & Hi).
    destruct (find_last_index_Some _ _ _ Hi) as [(p & Hp & Hd) _].
    apply list_elem_of_lookup_1 in Hrow as [y Hy].
    exists y. apply pixel_data_row. eauto 6.
Qed.

(** An image with data has a bounding box. *)
Lemma getbbox_is_Some (image : Image) (x y : nat) :
  pixel_data image x y -> is_Some (getbbox image).
Proof.
  intros Hxy. apply pixel_data_row in Hxy as (row & p & Hrow & Hp & Hd).
  assert (Hrd : row_has_data (mode image) row = true) by (apply row_has_data_true; eauto).
  destruct (find_index_le (row_has_data (mode image)) _ y row Hrow Hrd) as (t & Ht & _).
  destruct (find_last_index_ge (row_has_data (mode image)) _ y row Hrow Hrd) as (b & Hb & _).
  unfold getbbox. rewrite Ht, Hb. eauto.
Qed.

Lemma bbox_fits_unique (image : Image) (l t r b l' t' r' b' : nat) :
  bbox_fits image l t r b -> bbox_fits image l' t' r' b' ->
  l = l' /\ t = t' /\ r = r' /\ b = b'.
Proof.
  intros (Hs & [xt Ht] & [xb Hb] & [yl Hl] & [yr Hr])
         (Hs' & [xt' Ht'] & [xb' Hb'] & [yl' Hl'] & [yr' Hr']).
  pose proof (Hs _ _ Ht'). pose proof (Hs _ _ Hb').
  pose proof (Hs _ _ Hl'). pose proof (Hs _ _ Hr').
  pose proof (Hs' _ _ Ht). pose proof (Hs' _ _ Hb).
  pose proof (Hs' _ _ Hl). pose proof (Hs' _ _ Hr).
  lia.
Qed.

(** [getbbox] finds every bounding box. *)
Lemma getbbox_fits (image : Image) (l t r b : nat) :
  wf_image image -> bbox_fits image l t r b ->
  getbbox image = Some (Z.of_nat l, Z.of_nat t, Z.of_nat r + 1, Z.of_nat b + 1).
Proof.
  intros Hwf Hfit.
  destruct Hfit as (Hs & [xt Ht] & Hrest).
  destruct (getbbox_is_Some image xt t Ht) as [[[[x0 y0] x1] y1] Hbox].
  destruct (getbbox_Some_fits image x0 y0 x1 y1 Hwf Hbox)
    as (l' & t' & r' & b' & -> & -> & -> & -> & Hfit').
  destruct (bbox_fits_unique image l t r b l' t' r' b') as (-> & -> & -> & ->);
    [split; [exact Hs | split; [eauto | exact Hrest]] | exact Hfit' |].
  exact Hbox.
Qed.

(** ** Cropping to the bounding box *)

Lemma getpixel_crop (image : Image) (l t : nat) (x1 y1 : Z) (x y : nat) :
  getpixel (crop image (Z.of_nat l, Z.of_nat t, x1, y1)) x y =
  if decide ((x < Z.to_nat (x1 - Z.of_nat l))%nat /\ (y < Z.to_nat (y1 - Z.of_nat t))%nat)
  then getpixel image (l + x) (t + y) else None.
Proof.
  unfold getpixel, crop. simpl data. rewrite !Nat2Z.id.
  rewrite list_lookup_fmap, lookup_take, lookup_drop.
  destruct (decide (y < Z.to_nat (y1 - Z.of_nat t))%nat) as [Hy|Hy].
  - destruct (data image !! (t + y)%nat) as [row|]; simpl.
    + rewrite lookup_take, lookup_drop.
      destruct (decide (x < Z.to_nat (x1 - Z.of_nat l))%nat) as [Hx|Hx].
      * rewrite decide_True by auto. reflexivity.
      * rewrite decide_False by tauto. reflexivity.
    + destruct (decide _); reflexivity.
  - simpl. rewrite decide_False by tauto. reflexivity.
Qed.

Lemma crop_wf (image : Image) (l t : nat) (x1 y1 : Z) :
  wf_image image ->
  Z.of_nat l <= x1 <= width image -> Z.of_nat t <= y1 <= height image ->
  wf_image (crop image (Z.of_nat l, Z.of_nat t, x1, y1)).
Proof.
  intros [Hh Hw Hw0 Hb] Hx Hy. unfold crop. constructor; simpl.
  - rewrite length_fmap, length_take, length_drop. lia.
  - apply Forall_fmap, Forall_take, Forall_drop.
    eapply Forall_impl; [exact Hw|]. intros row Hrow. simpl in *.
    rewrite length_take, length_drop. lia.
  - lia.
  - apply Forall_fmap, Forall_take, Forall_drop.
    eapply Forall_impl; [exact Hb|]. intros row Hrow. simpl in *.
    apply Forall_take, Forall_drop. exact Hrow.
Qed.

Lemma pixel_data_inside (image : Image) (x y : nat) :
  wf_image image -> pixel_data image x y ->
  Z.of_nat x < width image /\ Z.of_nat y < height image.
Proof.
  intros [Hh Hw _ _] Hxy. apply pixel_data_row in Hxy as (row & p & Hrow & Hp & _).
  rewrite Forall_forall in Hw.
  assert (Hin : row ∈ data image) by (eapply list_elem_of_lookup_2; exact Hrow).
  specialize (Hw row Hin). simpl in Hw.
  apply lookup_lt_Some in Hrow, Hp. lia.
Qed.

(** The image cropped to its bounding box, seen from both sides. *)
Lemma trim_transparency_Some (image : Image) (l t r b : nat) :
  wf_image image -> bbox_fits image l t r b ->
  let trimmed := trim_transparency image in
  trimmed = crop image (Z.of_nat l, Z.of_nat t, Z.of_nat r + 1, Z.of_nat b + 1) /\
  wf_image trimmed /\
  width trimmed = Z.of_nat (r - l + 1) /\ height trimmed = Z.of_nat (b - t + 1) /\
  Z.of_nat r < width image /\ Z.of_nat b < height image /\
  (l <= r)%nat /\ (t <= b)%nat /\
  (forall x y, getpixel trimmed x y =
               if decide ((x <= r - l)%nat /\ (y <= b - t)%nat)
               then getpixel image (l + x) (t + y) else None).
Proof.
  intros Hwf Hfit trimmed.
  pose proof (getbbox_fits image l t r b Hwf Hfit) as Hbox.
  destruct Hfit as (Hs & [xt Ht] & [xb Hb] & [yl Hl] & [yr Hr]).
  pose proof (Hs _ _ Hr) as Hlr. pose proof (Hs _ _ Hb) as Htb.
  pose proof (pixel_data_inside image r yr Hwf Hr) as [Hrw _].
  pose proof (pixel_data_inside image xb b Hwf Hb) as [_ Hbh].
  assert (Ht' : trimmed = crop image (Z.of_nat l, Z.of_nat t, Z.of_nat r + 1, Z.of_nat b + 1))
    by (unfold trimmed, trim_transparency; rewrite Hbox; reflexivity).
  split; [exact Ht'|]. rewrite Ht'.
  split; [apply crop_wf; [exact Hwf | lia | lia]|].
  split; [simpl; lia|]. split; [simpl; lia|].
  split; [exact Hrw|]. split; [exact Hbh|]. split; [lia|]. split; [lia|].
  intros x y. rewrite getpixel_crop.
  destruct (decide ((x <= r - l)%nat /\ (y <= b - t)%nat)) as [Hin|Hout].
  - rewrite decide_True by lia. reflexivity.
  - rewrite decide_False by lia. reflexivity.
Qed.



(** X4: [trim_transparency] cuts a window out of the image: every pixel of the
    result is the pixel of the input at a fixed offset, and no pixel with
    data falls outside the window. *)
Theorem trim_transparency_keeps_data (image : Image) :
  wf_image image ->
  exists dx dy : nat,
    (forall x y p, getpixel (trim_transparency image) x y = Some p ->
                   getpixel image (dx + x) (dy + y) = Some p) /\
    (forall x y p, getpixel image x y = Some p -> has_data (mode image) p = true ->
                   (dx <= x)%nat /\ (dy <= y)%nat /\
                   getpixel (trim_transparency image) (x - dx) (y - dy) = Some p).
Proof.
  intros Hwf.
  destruct (getbbox image) as [[[[x0 y0] x1] y1]|] eqn:Hbox.
  - destruct (getbbox_Some_fits image x0 y0 x1 y1 Hwf Hbox)
      as (l & t & r & b & _ & _ & _ & _ & Hfit).
    destruct (trim_transparency_Some image l t r b Hwf Hfit)
      as (_ & _ & _ & _ & _ & _ & _ & _ & Hpix).
    exists l, t. split.
    + intros x y p Hp. rewrite Hpix in Hp.
      destruct (decide _); [exact Hp | discriminate].
    + intros x y p Hp Hd.
      destruct Hfit as (Hs & _).
      destruct (Hs x y) as [Hx Hy]; [exists p; auto|].
      split; [lia|]. split; [lia|].
      rewrite Hpix, decide_True by lia.
      replace (l + (x - l))%nat with x by lia.
      replace (t + (y - t))%nat with y by lia. exact Hp.
  - exists O, O.
    assert (Ht : trim_transparency image = image)
      by (unfold trim_transparency; rewrite Hbox; reflexivity).
    rewrite Ht. split.
    + intros x y p Hp. exact Hp.
    + intros x y p Hp Hd. rewrite !Nat.sub_0_r. split; [lia|]. split; [lia | exact Hp].
Qed.

Lemma trim_transparency_keeps_data_witness :
  exists dx dy : nat,
    (forall x y p, getpixel (trim_transparency black_white_rgb) x y = Some p ->
                   getpixel black_white_rgb (dx + x) (dy + y) = Some p) /\
    (forall x y p, getpixel black_white_rgb x y = Some p ->
                   has_data (mode black_white_rgb) p = true ->
                   (dx <= x)%nat /\ (dy <= y)%nat /\
                   getpixel (trim_transparency black_white_rgb) (x - dx) (y - dy) = Some p).
Proof.
  apply (trim_transparency_keeps_data black_white_rgb).
  constructor; simpl; repeat constructor; lia.
Defined.

(** X5: Trimming a trimmed image changes nothing. *)
Theorem trim_transparency_idempotent (image : Image) :
  wf_image image ->
  trim_transparency (trim_transparency image) = trim_transparency image.
Proof.
  intros Hwf.
  destruct (getbbox image) as [[[[x0 y0] x1] y1]|] eqn:Hbox.
  - destruct (getbbox_Some_fits image x0 y0 x1 y1 Hwf Hbox)
      as (l & t & r & b & _ & _ & _ & _ & Hfit).
    destruct (trim_transparency_Some image l t r b Hwf Hfit)
      as (Ht & Hwf' & Hw & Hh & _ & _ & Hlr & Htb & Hpix).
    set (trimmed := trim_transparency image) in *.
    assert (Hmode : mode trimmed = mode image) by (rewrite Ht; reflexivity).
    assert (Hdata : forall x y, pixel_data trimmed x y <->
                      (x <= r - l)%nat /\ (y <= b - t)%nat /\
                      pixel_data image (l + x) (t + y)).
    { intros x y. unfold pixel_data. rewrite Hmode, Hpix.
      destruct (decide ((x <= r - l)%nat /\ (y <= b - t)%nat)) as [Hin|Hout].
      - tauto.
      - split; [intros (p & Hp & _); discriminate | tauto]. }
    destruct Hfit as (Hs & [xt Hdt] & [xb Hdb] & [yl Hdl] & [yr Hdr]).
    assert (Hfit' : bbox_fits trimmed O O (r - l) (b - t)).
    { split; [|split; [|split; [|split]]].
      - intros x y Hxy. apply Hdata in Hxy. lia.
      - destruct (Hs _ _ Hdt). exists (xt - l)%nat. apply Hdata.
        split; [lia|]. split; [lia|].
        replace (l + (xt - l))%nat with xt by lia.
        replace (t + 0)%nat with t by lia. exact Hdt.
      - destruct (Hs _ _ Hdb). exists (xb - l)%nat. apply Hdata.
        split; [lia|]. split; [lia|].
        replace (l + (xb - l))%nat with xb by lia.
        replace (t + (b - t))%nat with b by lia. exact Hdb.
      - destruct (Hs _ _ Hdl). exists (yl - t)%nat. apply Hdata.
        split; [lia|]. split; [lia|].
        replace (l + 0)%nat with l by lia.
        replace (t + (yl - t))%nat with yl by lia. exact Hdl.
      - destruct (Hs _ _ Hdr). exists (yr - t)%nat. apply Hdata.
        split; [lia|]. split; [lia|].
        replace (l + (r - l))%nat with r by lia.
        replace (t + (yr - t))%nat with yr by lia. exact Hdr. }
    pose proof (getbbox_fits trimmed _ _ _ _ Hwf' Hfit') as Hbox'.
    replace (Z.of_nat (r - l) + 1) with (width trimmed) in Hbox' by lia.
    replace (Z.of_nat (b - t) + 1) with (height trimmed) in Hbox' by lia.
    unfold trim_transparency at 1. rewrite Hbox'. apply crop_whole. exact Hwf'.
  - assert (Ht : trim_transparency image = image)
      by (unfold trim_transparency; rewrite Hbox; reflexivity).
    rewrite !Ht. reflexivity.
Qed.

Lemma trim_transparency_idempotent_witness :
  trim_transparency (trim_transparency black_white_rgb) = trim_transparency black_white_rgb.
Proof.
  apply (trim_transparency_idempotent black_white_rgb).
  constructor; simpl; repeat constructor; lia.
Defined.

(** ** The sizing rule: how the box is filled *)

Lemma to_int_nonneg (m : positive) (e r : Z) :
  PyFloat.to_int (S754_finite false m e) = Ok r -> 0 <= r.
Proof.
  unfold PyFloat.to_int. intros H. apply Ok_inj in H. subst r.
  destruct e as [|p|p]; cbv beta iota zeta.
  - apply Z.shiftl_nonneg. lia.
  - apply Z.shiftl_nonneg. lia.
  - apply Z.shiftr_nonneg. lia.
Qed.

(** No side of the result is negative. *)
Lemma calculate_target_size_nonneg (w h w' h' : Z) :
  0 < w < 2 ^ 31 -> 0 < h < 2 ^ 31 ->
  calculate_target_size (w, h) = Ok (w', h') -> 0 <= w' /\ 0 <= h'.
Proof.
  intros Hw Hh H.
  destruct (Rounding.scale_approx w h Hw Hh)
    as (qw & qh & ms & es & Hqw & Hqh & Hmin & Hms & Hes & _).
  destruct (Rounding.int_mul_approx w ms es) as (mw & ew & Hfw & _); [lia | exact Hms | lia |].
  destruct (Rounding.int_mul_approx h ms es) as (mh & eh & Hfh & _); [lia | exact Hms | lia |].
  unfold calculate_target_size in H.
  apply rbind_Ok in H as (qw' & E1 & H). rewrite Hqw in E1. apply Ok_inj in E1. subst qw'.
  apply rbind_Ok in H as (qh' & E2 & H). rewrite Hqh in E2. apply Ok_inj in E2. subst qh'.
  rewrite Hmin in H.
  apply rbind_Ok in H as (fw & E3 & H). rewrite Hfw in E3. apply Ok_inj in E3. subst fw.
  apply rbind_Ok in H as (nw & E4 & H).
  apply rbind_Ok in H as (fh & E5 & H). rewrite Hfh in E5. apply Ok_inj in E5. subst fh.
  apply rbind_Ok in H as (nh & E6 & H).
  apply Ok_inj in H. injection H as <- <-.
  apply to_int_nonneg in E4, E6. lia.
Qed.

(** X6: For sides below [2^31] the result lies in the box and touches it: an
    input at least as wide as 7 : 12 gets a width of 1399 or 1400, any
    other input a height of 2399 or 2400. *)
Theorem calculate_target_size_fills_box (w h : Z) :
  0 < w < 2 ^ 31 -> 0 < h < 2 ^ 31 ->
  exists w' h' : Z,
    calculate_target_size (w, h) = Ok (w', h') /\
    0 <= w' <= 1400 /\ 0 <= h' <= 2400 /\
    (if 1400 * h <=? 2400 * w then 1399 <= w' else 2399 <= h').
Proof.
  intros Hw Hh.
  destruct (calculate_target_size_bracket w h Hw Hh) as (w' & h' & Hc & Hbw & Hbh).
  destruct (calculate_target_size_nonneg w h w' h' Hw Hh Hc) as [Hw0 Hh0].
  exists w', h'. split; [exact Hc|].
  rewrite spec_target_size_closed in Hbw, Hbh by lia.
  assert (Hkw : w * 1400 / w = 1400) by (rewrite Z.mul_comm; apply Z.div_mul; lia).
  assert (Hkh : h * 2400 / h = 2400) by (rewrite Z.mul_comm; apply Z.div_mul; lia).
  destruct (1400 * h <=? 2400 * w); simpl in Hbw, Hbh; lia.
Qed.

Lemma calculate_target_size_fills_box_witness :
  exists w' h' : Z,
    calculate_target_size (4032, 3024) = Ok (w', h') /\
    0 <= w' <= 1400 /\ 0 <= h' <= 2400 /\
    (if 1400 * 3024 <=? 2400 * 4032 then 1399 <= w' else 2399 <= h').
Proof. apply (calculate_target_size_fills_box 4032 3024); lia. Defined.

(** A side that the scaling brings below one pixel comes out as 0. *)
Lemma calculate_target_size_sliver_sides (w h : Z) :
  0 < w < 2 ^ 31 -> 0 < h < 2 ^ 31 ->
  exists w' h' : Z,
    calculate_target_size (w, h) = Ok (w', h') /\
    (2400 * w < h -> w' = 0) /\ (1400 * h < w -> h' = 0).
Proof.
  intros Hw Hh.
  destruct (calculate_target_size_bracket w h Hw Hh) as (w' & h' & Hc & Hbw & Hbh).
  destruct (calculate_target_size_nonneg w h w' h' Hw Hh Hc) as [Hw0 Hh0].
  exists w', h'. split; [exact Hc|].
  rewrite spec_target_size_closed in Hbw, Hbh by lia.
  split.
  - intros Hthin.
    assert (Hk : w * 2400 / h = 0) by (apply Z.div_small; lia).
    replace (1400 * h <=? 2400 * w) with false in Hbw by (symmetry; apply Z.leb_gt; lia).
    simpl in Hbw. lia.
  - intros Hflat.
    assert (Hk : h * 1400 / w = 0) by (apply Z.div_small; lia).
    replace (1400 * h <=? 2400 * w) with true in Hbh by (symmetry; apply Z.leb_le; lia).
    simpl in Hbh. lia.
Qed.

(** X7: A subject thinner than 1 : 2400 gets the width 0, one flatter than
    1400 : 1 the height 0. *)
Theorem calculate_target_size_sliver (w h : Z) :
  0 < w < 2 ^ 31 -> 0 < h < 2 ^ 31 ->
  (2400 * w < h -> exists h', calculate_target_size (w, h) = Ok (0, h')) /\
  (1400 * h < w -> exists w', calculate_target_size (w, h) = Ok (w', 0)).
Proof.
  intros Hw Hh.
  destruct (calculate_target_size_sliver_sides w h Hw Hh) as (w' & h' & Hc & Hthin & Hflat).
  split.
  - intros H. exists h'. rewrite <- (Hthin H). exact Hc.
  - intros H. exists w'. rewrite <- (Hflat H). exact Hc.
Qed.

Lemma calculate_target_size_sliver_witness :
  exists h', calculate_target_size (1, 2401) = Ok (0, h').
Proof.
  apply (proj1 (calculate_target_size_sliver 1 2401 ltac:(lia) ltac:(lia))). lia.
Defined.

(** ** The canvas *)

Lemma resize_size (env : Env) (image resized : Image) (new_size : Z * Z) :
  resize env image new_size = Ok resized -> size resized = new_size.
Proof.
  unfold resize. intros H.
  destruct (decide (size image = new_size)) as [Heq|_].
  - apply Ok_inj in H. subst resized. exact Heq.
  - destruct ((new_size.1 <? 1) || (new_size.2 <? 1)); [discriminate|].
    apply Ok_inj in H. subst resized. destruct new_size. reflexivity.
Qed.

Lemma calculate_target_size_le (original_size : Z * Z) (w' h' : Z) :
  calculate_target_size original_size = Ok (w', h') -> w' <= 1400 /\ h' <= 2400.
Proof.
  destruct original_size as [w h]. intros H. unfold calculate_target_size in H.
  repeat (apply rbind_Ok in H; destruct H as (? & _ & H)).
  injection H as <- <-. lia.
Qed.

(** Outside the box of the pasted image the canvas keeps its pixels. *)
Lemma getpixel_paste_outside (canvas im : Image) (x0 y0 : Z) (mask : option Image)
    (cx cy : nat) :
  Z.of_nat cx < x0 \/ x0 + width im <= Z.of_nat cx \/
  Z.of_nat cy < y0 \/ y0 + height im <= Z.of_nat cy ->
  getpixel (paste canvas im (x0, y0) mask) cx cy = getpixel canvas cx cy.
Proof.
  intros Hout. unfold paste, getpixel. cbn [data].
  rewrite list_lookup_imap. destruct (data canvas !! cy) as [row|]; [|reflexivity].
  cbn [fmap option_fmap option_map mbind option_bind].
  rewrite list_lookup_imap. destruct (row !! cx) as [old|]; [|reflexivity].
  cbn [fmap option_fmap option_map].
  replace ((0 <=? Z.of_nat cx - x0) && (Z.of_nat cx - x0 <? width im)
           && (0 <=? Z.of_nat cy - y0) && (Z.of_nat cy - y0 <? height im))
    with false; [reflexivity|].
  symmetry. rewrite !andb_false_iff, !Z.leb_gt, !Z.ltb_ge. lia.
Qed.

Lemma getpixel_Image_new (m : Mode) (w h : Z) (color : Pixel) (x y : nat) :
  Z.of_nat x < w -> Z.of_nat y < h ->
  getpixel (Image_new m (w, h) color) x y = Some color.
Proof.
  intros Hx Hy. unfold Image_new, getpixel. cbn [data fst snd].
  rewrite lookup_replicate_2 by lia. cbn [mbind option_bind].
  apply lookup_replicate_2. lia.
Qed.

(** X8: The canvas that [process_image] returns is white outside its central
    1400 x 2400 region: 324 columns on either side and 166 rows above and
    below are never painted. *)
Theorem process_image_white_border (env : Env) (image : Image) (interface : HiInterface)
    (canvas : Image) :
  process_image env image interface = Ok canvas ->
  forall x y : nat,
    Z.of_nat x < 2048 -> Z.of_nat y < 2732 ->
    Z.of_nat x < 324 \/ 1724 <= Z.of_nat x \/ Z.of_nat y < 166 \/ 2566 <= Z.of_nat y ->
    getpixel canvas x y = Some [255; 255; 255].
Proof.
  intros H x y Hx Hy Hborder. unfold process_image in H.
  apply rbind_Ok in H as (outputs & _ & H).
  apply rbind_Ok in H as (bg_removed & _ & H).
  apply rbind_Ok in H as ([tw th] & Htarget & H).
  apply rbind_Ok in H as (resized & Hresized & H).
  apply Ok_inj in H. subst canvas.
  apply calculate_target_size_le in Htarget as [Htw Hth].
  apply resize_size in Hresized. unfold size in Hresized.
  injection Hresized as Hw Hh.
  set (x0 := (2048 - width resized) / 2).
  set (y0 := (2732 - height resized) / 2).
  assert (Hx0 : 2 * x0 <= 2048 - width resized < 2 * x0 + 2).
  { unfold x0. split; [apply Z.mul_div_le; lia|].
    pose proof (Z.mul_succ_div_gt (2048 - width resized) 2 ltac:(lia)). lia. }
  assert (Hy0 : 2 * y0 <= 2732 - height resized < 2 * y0 + 2).
  { unfold y0. split; [apply Z.mul_div_le; lia|].
    pose proof (Z.mul_succ_div_gt (2732 - height resized) 2 ltac:(lia)). lia. }
  rewrite getpixel_paste_outside by lia.
  apply getpixel_Image_new; assumption.
Qed.

Lemma process_image_white_border_witness :
  exists canvas,
    process_image quiet_env opaque_2x1 (initialize_interface quiet_env false) = Ok canvas /\
    getpixel canvas 100 2700 = Some [255; 255; 255].
Proof.
  destruct (process_image_returns quiet_env opaque_2x1
              (initialize_interface quiet_env false)
              (ensure_portrait_mode opaque_2x1) [] eq_refl) as [canvas Hc];
    [vm_compute; split; congruence | vm_compute; split; congruence
    | vm_compute; congruence | vm_compute; congruence |].
  exists canvas. split; [exact Hc|].
  apply (process_image_white_border quiet_env opaque_2x1
           (initialize_interface quiet_env false) canvas Hc 100%nat 2700%nat); lia.
Defined.

(** X9: A subject thinner than 1 : 2400 or flatter than 1400 : 1 cannot be
    resized: [process_image] raises [ValueError] for it. *)
Theorem process_image_sliver_fails (env : Env) (image : Image) (interface : HiInterface)
    (out : Image) (rest : list Image) :
  carvekit env interface [ensure_portrait_mode image] = Ok (out :: rest) ->
  let subject := auto_rotate (trim_transparency out) in
  0 < width subject < 2 ^ 31 -> 0 < height subject < 2 ^ 31 ->
  2400 * width subject < height subject \/ 1400 * height subject < width subject ->
  process_image env image interface = Raise ValueError.
Proof.
  intros Hcall subject Hw Hh Hsliver.
  destruct (calculate_target_size_sliver_sides _ _ Hw Hh) as (tw & th & Hc & Hthin & Hflat).
  unfold process_image. rewrite Hcall.
  cbn [mbind result_bind rbind item0]. fold subject.
  change (size subject) with (width subject, height subject). rewrite Hc.
  cbn [mbind result_bind rbind].
  assert (Hr : resize env subject (tw, th) = Raise ValueError).
  { unfold resize. rewrite decide_False.
    - cbn [fst snd]. destruct Hsliver as [H|H].
      + rewrite (Hthin H). reflexivity.
      + rewrite (Hflat H), orb_true_r. reflexivity.
    - unfold size. intros Heq. injection Heq as E1 E2.
      destruct Hsliver as [H|H]; [specialize (Hthin H) | specialize (Hflat H)]; lia. }
  rewrite Hr. reflexivity.
Qed.

Lemma process_image_sliver_fails_witness :
  process_image quiet_env sliver_1x2401 (initialize_interface quiet_env false)
    = Raise ValueError.
Proof.
  apply (process_image_sliver_fails quiet_env sliver_1x2401
           (initialize_interface quiet_env false) sliver_1x2401 []).
  - reflexivity.
  - vm_compute. split; congruence.
  - vm_compute. split; congruence.
  - left. vm_compute. reflexivity.
Defined.

(** ** The subject on the canvas *)

Lemma getpixel_inside (image : Image) (x y : nat) (p : Pixel) :
  wf_image image -> getpixel image x y = Some p ->
  Z.of_nat x < width image /\ Z.of_nat y < height image.
Proof.
  intros [Hh Hw _ _] Hp. unfold getpixel in Hp.
  destruct (data image !! y) as [row|] eqn:Hrow; [|discriminate].
  cbn [mbind option_bind] in Hp.
  pose proof (lookup_lt_Some _ _ _ Hrow) as Hy.
  pose proof (lookup_lt_Some _ _ _ Hp) as Hx.
  rewrite Forall_forall in Hw.
  specialize (Hw row (list_elem_of_lookup_2 _ _ _ Hrow)). lia.
Qed.

Lemma getpixel_convert_RGBA (image : Image) (x y : nat) :
  getpixel (convert_RGBA image) x y =
  (fun p => to_rgb (mode image) p ++ [alpha_of (mode image) p]) <$> getpixel image x y.
Proof.
  unfold convert_RGBA, getpixel. cbn [data]. rewrite list_lookup_fmap.
  destruct (data image !! y) as [row|]; [|reflexivity].
  cbn [fmap option_fmap option_map mbind option_bind].
  rewrite list_lookup_fmap. reflexivity.
Qed.

(** Inside the box of the pasted image: its colour, blended through the
    alpha band of the mask. *)
Lemma getpixel_paste_inside (canvas im mk : Image) (x0 y0 : Z) (i j : nat)
    (old p q : Pixel) :
  0 <= x0 -> 0 <= y0 ->
  Z.of_nat i < width im -> Z.of_nat j < height im ->
  getpixel canvas (Z.to_nat x0 + i) (Z.to_nat y0 + j) = Some old ->
  getpixel im i j = Some p -> getpixel mk i j = Some q ->
  getpixel (paste canvas im (x0, y0) (Some mk)) (Z.to_nat x0 + i) (Z.to_nat y0 + j)
  = Some (zip_with (blend (alpha_of (mode mk) q)) old (to_rgb (mode im) p)).
Proof.
  intros Hx0 Hy0 Hi Hj Hold Hp Hq. unfold paste. unfold getpixel at 1. cbn [data].
  unfold getpixel in Hold.
  rewrite list_lookup_imap.
  destruct (data canvas !! (Z.to_nat y0 + j)%nat) as [row|]; [|discriminate].
  cbn [fmap option_fmap option_map mbind option_bind] in *.
  rewrite list_lookup_imap, Hold. cbn [fmap option_fmap option_map].
  replace (Z.of_nat (Z.to_nat x0 + i) - x0) with (Z.of_nat i) by lia.
  replace (Z.of_nat (Z.to_nat y0 + j) - y0) with (Z.of_nat j) by lia.
  replace ((0 <=? Z.of_nat i) && (Z.of_nat i <? width im)
           && (0 <=? Z.of_nat j) && (Z.of_nat j <? height im)) with true.
  - rewrite !Nat2Z.id, Hp, Hq. reflexivity.
  - symmetry. rewrite !andb_true_iff, !Z.leb_le, !Z.ltb_lt. lia.
Qed.

Lemma blend_transparent (old new : Z) : blend 0 old new = blend 0 old 0.
Proof. unfold blend. rewrite !Z.mul_0_r. reflexivity. Qed.

Lemma blend_opaque (old new : Z) : 0 <= new <= 255 -> blend 255 old new = new.
Proof.
  intros Hn. unfold blend. rewrite Z.sub_diag, Z.mul_0_r, Z.add_0_l.
  rewrite !Z.shiftr_div_pow2 by lia. change (2 ^ 8) with 256.
  set (t := new * 255 + 128).
  assert (Hq : new - 128 <= t / 256 <= new).
  { split.
    - apply Z.div_le_lower_bound; lia.
    - assert (t / 256 < new + 1); [|lia]. apply Z.div_lt_upper_bound; lia. }
  symmetry. apply Z.div_unique with (r := t / 256 + t - 256 * new); lia.
Qed.

(** X10: When the resized subject is an RGBA image, [process_image] returns the
    canvas with the subject composited over white: where the subject is
    fully transparent the canvas stays white, where it is fully opaque the
    canvas takes its colour. *)
Theorem process_image_composites (env : Env) (image : Image) (interface : HiInterface)
    (out : Image) (rest : list Image) (resized : Image) :
  carvekit env interface [ensure_portrait_mode image] = Ok (out :: rest) ->
  resized_subject env out = Ok resized ->
  wf_image resized -> mode resized = RGBA ->
  exists canvas,
    process_image env image interface = Ok canvas /\
    forall (i j : nat) (r g b a : Z),
      getpixel resized i j = Some [r; g; b; a] ->
      0 <= r <= 255 -> 0 <= g <= 255 -> 0 <= b <= 255 ->
      let x := (Z.to_nat ((2048 - width resized) / 2) + i)%nat in
      let y := (Z.to_nat ((2732 - height resized) / 2) + j)%nat in
      (a = 0 -> getpixel canvas x y = Some [255; 255; 255]) /\
      (a = 255 -> getpixel canvas x y = Some [r; g; b]).
Proof.
  intros Hcall Hsub Hwf Hmode.
  unfold resized_subject in Hsub. cbv zeta in Hsub.
  apply rbind_Ok in Hsub as ([tw th] & Htarget & Hresized).
  eexists. split.
  { unfold process_image. rewrite Hcall. cbn [mbind result_bind rbind item0].
    rewrite Htarget. cbn [mbind result_bind rbind]. rewrite Hresized.
    cbn [mbind result_bind rbind]. rewrite decide_True by exact Hmode. reflexivity. }
  intros i j r g b a Hp Hr Hg Hb x y.
  apply calculate_target_size_le in Htarget as [Htw Hth].
  apply resize_size in Hresized. unfold size in Hresized.
  injection Hresized as Hw Hh.
  destruct (getpixel_inside resized i j _ Hwf Hp) as [Hi Hj].
  set (x0 := (2048 - width resized) / 2) in *.
  set (y0 := (2732 - height resized) / 2) in *.
  assert (Hx0 : 2 * x0 <= 2048 - width resized < 2 * x0 + 2).
  { unfold x0. split; [apply Z.mul_div_le; lia|].
    pose proof (Z.mul_succ_div_gt (2048 - width resized) 2 ltac:(lia)). lia. }
  assert (Hy0 : 2 * y0 <= 2732 - height resized < 2 * y0 + 2).
  { unfold y0. split; [apply Z.mul_div_le; lia|].
    pose proof (Z.mul_succ_div_gt (2732 - height resized) 2 ltac:(lia)). lia. }
  assert (Hq : getpixel (convert_RGBA resized) i j = Some [r; g; b; a]).
  { rewrite getpixel_convert_RGBA, Hp, Hmode. reflexivity. }
  assert (Hold : getpixel (Image_new RGB (2048, 2732) [255; 255; 255]) x y
                 = Some [255; 255; 255])
    by (apply getpixel_Image_new; unfold x, y; lia).
  unfold x, y in *.
  rewrite (getpixel_paste_inside _ resized (convert_RGBA resized) x0 y0 i j
             [255; 255; 255] [r; g; b; a] [r; g; b; a]) by (assumption || lia).
  rewrite Hmode. cbn [mode convert_RGBA alpha_of has_alpha to_rgb List.last zip_with].
  split; intros ->.
  - rewrite (blend_transparent 255 r), (blend_transparent 255 g), (blend_transparent 255 b).
    reflexivity.
  - rewrite !blend_opaque by assumption. reflexivity.
Qed.

Lemma process_image_composites_witness :
  exists canvas,
    process_image quiet_env opaque_2x1 (initialize_interface quiet_env false) = Ok canvas /\
    getpixel canvas (Z.to_nat ((2048 - 1200) / 2) + 7) (Z.to_nat ((2732 - 2400) / 2) + 9)
    = Some [0; 0; 0].
Proof.
  assert (Hwf : wf_image black_1200x2400).
  { constructor; cbn [data width height mode black_1200x2400].
    - rewrite length_replicate. lia.
    - apply Forall_replicate. rewrite length_replicate. lia.
    - lia.
    - apply Forall_replicate, Forall_replicate. reflexivity. }
  assert (Hsub : resized_subject quiet_env (ensure_portrait_mode opaque_2x1)
                 = Ok black_1200x2400).
  { unfold resized_subject. cbv zeta.
    replace (auto_rotate (trim_transparency (ensure_portrait_mode opaque_2x1)))
      with (ensure_portrait_mode opaque_2x1) by (vm_compute; reflexivity).
    replace (calculate_target_size (size (ensure_portrait_mode opaque_2x1)))
      with (Ok (1200, 2400) : result (Z * Z)) by (vm_compute; reflexivity).
    cbn [mbind result_bind rbind]. unfold resize.
    rewrite decide_False by (vm_compute; congruence). reflexivity. }
  destruct (process_image_composites quiet_env opaque_2x1
              (initialize_interface quiet_env false)
              (ensure_portrait_mode opaque_2x1) [] black_1200x2400
              eq_refl Hsub Hwf eq_refl) as (canvas & Hc & Hpix).
  exists canvas. split; [exact Hc|].
  apply (Hpix 7%nat 9%nat 0 0 0 255); [|lia|lia|lia|reflexivity].
  unfold black_1200x2400, getpixel. cbn [data].
  rewrite lookup_replicate_2 by lia. cbn [mbind option_bind].
  apply lookup_replicate_2. lia.
Defined.

(** ** The batch: what it leaves behind *)

Section BatchFrame.

Variable env : Env.

(** One round of the staging loop. *)
Lemma stage_item_spec (interface : HiInterface) (temp_dir path : string) (w : World)
    (d : gmap string Image) :
  directories w !! temp_dir = Some d ->
  try_except
    (img ← lift (Image_open env path);
     processed ← lift (process_image env img interface);
     save env processed temp_dir (Path.stem path +:+ "_processed.png"))
    (fun e => print ("Error processing " +:+ path +:+ ": " +:+ exn_str e)) w
  = (Ok tt,
     {| files := files w;
        directories := <[temp_dir := stage_step env interface temp_dir d path]> (directories w);
        console := console w ++ match item_error env interface temp_dir path with
                                | Some e => [error_line path e]
                                | None => []
                                end |}).
Proof.
  intros Hd.
  unfold stage_step, item_error, item_result, error_line, try_except, lift, save, print,
    output_name.
  unfold mbind, M_bind, mbind', result_bind, rbind.
  destruct (Image_open env path) as [img|e]; cbv beta iota.
  - destruct (process_image env img interface) as [processed|e]; cbv beta iota.
    + destruct (save_fault env temp_dir _ processed) as [e|]; cbv beta iota.
      * cbn [files directories console]. rewrite (insert_id _ _ _ Hd). reflexivity.
      * rewrite Hd, app_nil_r. reflexivity.
    + cbn [files directories console]. rewrite (insert_id _ _ _ Hd). reflexivity.
  - cbn [files directories console]. rewrite (insert_id _ _ _ Hd). reflexivity.
Qed.

(** The staging loop prints one line for each input that failed, in the
    order of the inputs, and nothing else. *)
Lemma stage_inputs_console (interface : HiInterface) (temp_dir : string)
    (input_paths : list string) (w : World) (d : gmap string Image) :
  directories w !! temp_dir = Some d ->
  console (stage_inputs env interface temp_dir input_paths w).2 =
  console w ++ omap (fun path => error_line path <$> item_error env interface temp_dir path)
                 input_paths.
Proof.
  revert w d. induction input_paths as [|path paths IH]; intros w d Hd.
  - simpl. rewrite app_nil_r. reflexivity.
  - unfold stage_inputs in *. rewrite for_each_cons. cbv beta.
    rewrite (stage_item_spec interface temp_dir path w d Hd).
    erewrite IH by (cbn [directories]; apply lookup_insert_eq).
    cbn [console omap list_omap]. rewrite <- app_assoc. f_equal.
    destruct (item_error env interface temp_dir path);
      cbn [fmap option_fmap option_map]; reflexivity.
Qed.

(** Adding members changes the archive file and nothing else. *)
Lemma ZipFile_write_frame (zip_path temp_dir file arcname : string) (w : World) :
  let w' := (ZipFile_write env zip_path temp_dir file arcname w).2 in
  directories w' = directories w /\ console w' = console w /\
  forall p, p <> zip_path -> files w' !! p = files w !! p.
Proof.
  cbv zeta. unfold ZipFile_write.
  destruct (zip_write_fault env arcname); [simpl; auto|].
  destruct (directories w !! temp_dir ≫= (.!! file)) as [image|]; [|simpl; auto].
  destruct (files w !! zip_path) as [[|members]|]; [simpl; auto | | simpl; auto].
  cbn [snd files directories console].
  split; [reflexivity|]. split; [reflexivity|].
  intros p Hp. apply lookup_insert_ne. congruence.
Qed.

Lemma write_members_frame (zip_path temp_dir : string) (l : list string) (w : World) :
  let w' := (for_each l (fun file => ZipFile_write env zip_path temp_dir file file) w).2 in
  directories w' = directories w /\ console w' = console w /\
  forall p, p <> zip_path -> files w' !! p = files w !! p.
Proof.
  revert w. induction l as [|f l IH]; intros w; cbv zeta.
  - simpl. auto.
  - rewrite for_each_cons. cbv beta.
    destruct (ZipFile_write_frame zip_path temp_dir f f w) as (Hd & Hc & Hf).
    cbv zeta in Hd, Hc, Hf.
    destruct (ZipFile_write env zip_path temp_dir f f w) as [[[]|e] w1];
      cbn [snd] in Hd, Hc, Hf.
    + destruct (IH w1) as (Hd2 & Hc2 & Hf2). cbv zeta in Hd2, Hc2, Hf2.
      rewrite Hd2, Hc2. split; [exact Hd|]. split; [exact Hc|].
      intros p Hp. rewrite (Hf2 p Hp). apply Hf. exact Hp.
    + cbn [snd]. auto.
Qed.

Lemma write_archive_frame (zip_path temp_dir : string) (w : World) :
  let w' := (write_archive env zip_path temp_dir w).2 in
  directories w' = directories w /\ console w' = console w /\
  forall p, p <> zip_path -> files w' !! p = files w !! p.
Proof.
  cbv zeta. unfold write_archive, ZipFile_open, os_walk_files.
  unfold mbind, M_bind, mbind'.
  destruct (zip_open_fault env zip_path); [simpl; auto|].
  match goal with |- context [for_each ?l ?body ?w0] =>
    destruct (write_members_frame zip_path temp_dir l w0) as (Hd & Hc & Hf)
  end.
  cbv zeta in Hd, Hc, Hf. cbn [files directories console] in Hd, Hc, Hf.
  split; [exact Hd|]. split; [exact Hc|].
  intros p Hp. etransitivity; [apply (Hf p Hp)|].
  apply lookup_insert_ne. congruence.
Qed.

(** The world at the start of the archive writing, in full. *)
Lemma archive_start_world (input_paths : list string) (use_gpu : bool) (w : World) :
  let interface := initialize_interface env use_gpu in
  let w1 := archive_start env input_paths use_gpu w in
  files w1 = <[temp_zip_name env := Blank]> (files w) /\
  (exists d, directories w1 = <[temp_dir_name env := d]> (directories w)) /\
  console w1 = console w ++
    omap (fun path => error_line path
                        <$> item_error env interface (temp_dir_name env) path) input_paths.
Proof.
  intros interface w1.
  set (w0 := {| files := <[temp_zip_name env := Blank]> (files w);
                directories := <[temp_dir_name env := ∅]> (directories w);
                console := console w |}).
  destruct (stage_inputs_spec env interface (temp_dir_name env) input_paths w0 ∅)
    as (w' & Hrun & Hf & Hd); [apply lookup_insert_eq|].
  pose proof (stage_inputs_console interface (temp_dir_name env) input_paths w0 ∅
                ltac:(apply lookup_insert_eq)) as Hc.
  assert (Hw1 : w1 = w').
  { unfold w1, archive_start. fold interface. fold w0. rewrite Hrun. reflexivity. }
  rewrite Hrun in Hc. cbn [snd] in Hc. rewrite Hw1.
  split; [exact Hf|]. split; [|exact Hc].
  eexists. rewrite Hd. cbn [directories w0]. apply insert_insert_eq.
Qed.

(** What [_process_files] leaves behind, in either outcome. *)
Lemma process_files_final_world (input_paths : list string) (use_gpu : bool) (w : World) :
  let w1 := archive_start env input_paths use_gpu w in
  let w' := (_process_files env input_paths use_gpu w).2 in
  directories w' = delete (temp_dir_name env) (directories w1) /\
  console w' = console w1 /\
  forall p, p <> temp_zip_name env -> files w' !! p = files w1 !! p.
Proof.
  intros w1 w'. unfold w'. rewrite process_files_unfold. cbv zeta. fold w1.
  destruct (write_archive_frame (temp_zip_name env) (temp_dir_name env) w1)
    as (Hd & Hc & Hf). cbv zeta in Hd, Hc, Hf.
  destruct (write_archive env (temp_zip_name env) (temp_dir_name env) w1) as [[[]|e] w2];
    cbn [snd] in Hd, Hc, Hf.
  - cbn [snd files directories console]. rewrite Hd, Hc. auto.
  - unfold os_remove. cbn [files directories console].
    destruct (files w2 !! temp_zip_name env);
      cbn [snd files directories console]; rewrite Hd, Hc.
    + split; [reflexivity|]. split; [reflexivity|].
      intros p Hp. rewrite lookup_delete_ne by congruence. auto.
    + auto.
Qed.

End BatchFrame.

(** X11: Whatever happens, [_process_files] removes its temporary directory
    and touches no other directory and no file but its temporary
    archive. *)
Theorem process_files_leaves_no_trace (env : Env) (input_paths : list string)
    (use_gpu : bool) (w : World) :
  let w' := (_process_files env input_paths use_gpu w).2 in
  directories w' !! temp_dir_name env = None /\
  directories w' = delete (temp_dir_name env) (directories w) /\
  forall p, p <> temp_zip_name env -> files w' !! p = files w !! p.
Proof.
  intros w'.
  destruct (process_files_final_world env input_paths use_gpu w) as (Hd & _ & Hf).
  destruct (archive_start_world env input_paths use_gpu w) as (Hf1 & [d Hd1] & _).
  cbv zeta in Hd, Hf, Hf1, Hd1. fold w' in Hd, Hf.
  assert (Hdir : directories w' = delete (temp_dir_name env) (directories w))
    by (rewrite Hd, Hd1; apply delete_insert_eq).
  split; [rewrite Hdir; apply lookup_delete_eq|]. split; [exact Hdir|].
  intros p Hp. rewrite (Hf p Hp), Hf1. apply lookup_insert_ne. congruence.
Qed.

(** X12: What [_process_files] prints: one line for each input that could not
    be decoded, processed or saved, with the path and the error, in the
    order of the inputs; nothing for the other inputs and nothing about
    the archive. *)
Theorem process_files_reports_failures (env : Env) (input_paths : list string)
    (use_gpu : bool) (w : World) :
  console (_process_files env input_paths use_gpu w).2 =
  console w ++
    omap (fun path =>
            error_line path
              <$> item_error env (initialize_interface env use_gpu) (temp_dir_name env) path)
         input_paths.
Proof.
  destruct (process_files_final_world env input_paths use_gpu w) as (_ & Hc & _).
  destruct (archive_start_world env input_paths use_gpu w) as (_ & _ & Hc1).
  cbv zeta in Hc, Hc1. rewrite Hc. exact Hc1.
Qed.

(** ** The batch: what the archive holds *)

Lemma quiet_env_succeeded (paths : list string) :
  filter (fun p => item_ok quiet_env (initialize_interface quiet_env false)
                     (temp_dir_name quiet_env) p = true) paths = paths.
Proof.
  induction paths as [|path paths IH]; [reflexivity|].
  rewrite filter_cons_True by apply quiet_env_item_ok. rewrite IH. reflexivity.
Qed.

Lemma process_files_one_member_per_success_witness :
  exists w' members,
    _process_files quiet_env ["/in/a.png"; "/in/b.jpg"] false
      {| files := ∅; directories := ∅; console := [] |}
      = (Ok {| name := "/tmp/tmpk3v9.zip" |}, w') /\
    files w' !! "/tmp/tmpk3v9.zip" = Some (ZipArchive members) /\
    length members = 2%nat /\
    members.*1 ≡ₚ ["a_processed.png"; "b_processed.png"].
Proof.
  pose proof (process_files_one_member_per_success quiet_env false
                ["/in/a.png"; "/in/b.jpg"]
                {| files := ∅; directories := ∅; console := [] |}) as H.
  cbv zeta in H. rewrite quiet_env_succeeded in H.
  apply H; [reflexivity | reflexivity |].
  apply NoDup_cons. split.
  - intros Hin. apply list_elem_of_singleton in Hin. discriminate.
  - apply NoDup_singleton.
Defined.

Section Canvases.

Variable env : Env.
Variable use_gpu : bool.

Let interface := initialize_interface env use_gpu.
Let temp_dir := temp_dir_name env.

(** Every file of the staging directory is what [process_image] returned
    for one of the inputs, under the output name of that input. *)
Lemma staged_from_inputs (paths : list string) (d : gmap string Image)
    (P : string -> Image -> Prop) :
  (forall f c, d !! f = Some c -> P f c) ->
  (forall path c, path ∈ paths -> item_result env interface path = Ok c ->
                  P (output_name path) c) ->
  forall f c, foldl (stage_step env interface temp_dir) d paths !! f = Some c -> P f c.
Proof.
  revert d. induction paths as [|path paths IH]; intros d Hd Hin f c Hf.
  - apply Hd. exact Hf.
  - cbn [foldl] in Hf. apply (IH (stage_step env interface temp_dir d path)); try assumption.
    + intros f' c' Hf'. unfold stage_step in Hf'.
      destruct (item_result env interface path) as [c0|e] eqn:Hres; [|apply Hd; exact Hf'].
      destruct (save_fault env temp_dir (output_name path) c0); [apply Hd; exact Hf'|].
      destruct (decide (f' = output_name path)) as [->|Hne].
      * rewrite lookup_insert_eq in Hf'. injection Hf' as <-.
        apply Hin; [apply list_elem_of_here | exact Hres].
      * rewrite lookup_insert_ne in Hf' by congruence. apply Hd. exact Hf'.
    + intros path' c' Hp. apply Hin. apply list_elem_of_further. exact Hp.
Qed.

(** Without archive faults [_process_files] returns the archive whatever
    the inputs do, and what it holds. *)
Lemma process_files_members_from_inputs (input_paths : list string) (w : World) :
  zip_open_fault env (temp_zip_name env) = None ->
  (forall f, zip_write_fault env f = None) ->
  exists w' members,
    _process_files env input_paths use_gpu w
      = (Ok {| name := temp_zip_name env |}, w') /\
    files w' !! temp_zip_name env = Some (ZipArchive members) /\
    NoDup members.*1 /\
    Forall (fun member : string * Image =>
              exists input_path,
                input_path ∈ input_paths /\
                member.1 = output_name input_path /\
                item_result env interface input_path = Ok member.2) members.
Proof.
  intros Ho Hq.
  destruct (process_files_members env use_gpu input_paths w Ho Hq) as (w' & Hrun & Hfile).
  fold interface temp_dir in Hfile.
  set (d := foldl (stage_step env interface temp_dir) ∅ input_paths) in *.
  exists w', (map_to_list d).
  split; [exact Hrun|]. split; [exact Hfile|].
  split; [apply NoDup_fst_map_to_list|].
  apply Forall_forall. intros [f c] Hin. apply elem_of_map_to_list in Hin.
  cbn [fst snd].
  apply (staged_from_inputs input_paths ∅
           (fun f c => exists input_path, input_path ∈ input_paths /\
                         f = output_name input_path /\
                         item_result env interface input_path = Ok c)) with (f := f) (c := c).
  - intros f' c' Hf'. rewrite lookup_empty in Hf'. discriminate.
  - intros path c' Hp Hres. exists path. auto.
  - exact Hin.
Qed.

End Canvases.

(** X14: When the archive can be written, [_process_files] returns it whatever
    happens to the inputs: no member name occurs twice, there are at most
    as many members as inputs, and every member is the well-formed
    2048 x 2732 RGB canvas that [process_image] returned for an input with
    that output name. *)
Theorem process_files_members_are_canvases (env : Env) (input_paths : list string)
    (use_gpu : bool) (w : World) :
  zip_open_fault env (temp_zip_name env) = None ->
  (forall f, zip_write_fault env f = None) ->
  exists w' members,
    _process_files env input_paths use_gpu w
      = (Ok {| name := temp_zip_name env |}, w') /\
    files w' !! temp_zip_name env = Some (ZipArchive members) /\
    NoDup members.*1 /\
    (length members <= length input_paths)%nat /\
    Forall (fun member : string * Image =>
              (exists input_path img,
                 input_path ∈ input_paths /\
                 member.1 = Path.stem input_path +:+ "_processed.png" /\
                 Image_open env input_path = Ok img /\
                 process_image env img (initialize_interface env use_gpu) = Ok member.2) /\
              size member.2 = (2048, 2732) /\ mode member.2 = RGB /\
              wf_image member.2) members.
Proof.
  intros Ho Hq.
  destruct (process_files_members_from_inputs env use_gpu input_paths w Ho Hq)
    as (w' & members & Hrun & Hfile & Hnd & Hall).
  exists w', members.
  split; [exact Hrun|]. split; [exact Hfile|]. split; [exact Hnd|]. split.
  - rewrite <- (length_fmap fst members), <- (length_fmap output_name input_paths).
    apply submseteq_length, NoDup_submseteq; [exact Hnd|].
    intros f Hf. apply list_elem_of_fmap in Hf as [[f' c] [-> Hin]].
    rewrite Forall_forall in Hall. destruct (Hall _ Hin) as (path & Hp & Hname & _).
    cbn [fst] in *. rewrite Hname. apply list_elem_of_fmap. eauto.
  - eapply Forall_impl; [exact Hall|].
    intros [f c] (path & Hp & Hname & Hres). cbn [fst snd] in *.
    unfold item_result in Hres. apply rbind_Ok in Hres as (img & Hopen & Hproc).
    split; [exists path, img; auto|].
    exact (process_image_invariant env img _ c Hproc).
Qed.

Lemma process_files_members_are_canvases_witness :
  exists w' members,
    _process_files quiet_env ["/in/a.png"; "/in/b.jpg"] false
      {| files := ∅; directories := ∅; console := [] |}
      = (Ok {| name := "/tmp/tmpk3v9.zip" |}, w') /\
    files w' !! "/tmp/tmpk3v9.zip" = Some (ZipArchive members) /\
    NoDup members.*1 /\
    (length members <= 2)%nat /\
    Forall (fun member : string * Image =>
              (exists input_path img,
                 input_path ∈ ["/in/a.png"; "/in/b.jpg"] /\
                 member.1 = Path.stem input_path +:+ "_processed.png" /\
                 Image_open quiet_env input_path = Ok img /\
                 process_image quiet_env img (initialize_interface quiet_env false)
                 = Ok member.2) /\
              size member.2 = (2048, 2732) /\ mode member.2 = RGB /\
              wf_image member.2) members.
Proof.
  apply (process_files_members_are_canvases quiet_env ["/in/a.png"; "/in/b.jpg"] false
           {| files := ∅; directories := ∅; console := [] |});
    reflexivity.
Defined.

(** ** The application window: the file list *)

Section FileList.

Variable desktop : FileUploaderApp.Desktop.

(** The warning of line 188. *)
Let warning (clean_path : string) : FileUploaderApp.Dialog :=
  FileUploaderApp.showwarning "Unsupported File Type"
    ("The file '" +:+ FileUploaderApp.basename desktop clean_path +:+ "' is not supported.").

Lemma add_file_loop (existing_files : list string) (file_paths : list string)
    (app : FileUploaderApp.State) :
  let clean := FileUploaderApp.normpath desktop <$> file_paths in
  let added := filter (fun p => FileUploaderApp.supported desktop p = true /\ p ∉ existing_files)
                 clean in
  let refused := filter (fun p => FileUploaderApp.supported desktop p = false) clean in
  foldl (FileUploaderApp.add_file desktop existing_files) app file_paths =
  {| FileUploaderApp.valid_files := FileUploaderApp.valid_files app ++ added;
     FileUploaderApp.file_listbox :=
       FileUploaderApp.file_listbox app ++ (FileUploaderApp.basename desktop <$> added);
     FileUploaderApp.current_zip_path := FileUploaderApp.current_zip_path app;
     FileUploaderApp.background_process := FileUploaderApp.background_process app;
     FileUploaderApp.use_gpu := FileUploaderApp.use_gpu app;
     FileUploaderApp.controls := FileUploaderApp.controls app;
     FileUploaderApp.disabled_overlay := FileUploaderApp.disabled_overlay app;
     FileUploaderApp.download_frame_placed := FileUploaderApp.download_frame_placed app;
     FileUploaderApp.destroyed := FileUploaderApp.destroyed app;
     FileUploaderApp.messagebox := FileUploaderApp.messagebox app ++ (warning <$> refused) |}.
Proof.
  cbv zeta. revert app. induction file_paths as [|path paths IH]; intros app.
  - cbn [foldl fmap list_fmap filter list_filter]. rewrite !app_nil_r.
    destruct app; reflexivity.
  - cbn [foldl]. rewrite IH. rewrite fmap_cons.
    unfold FileUploaderApp.add_file.
    destruct (FileUploaderApp.supported desktop (FileUploaderApp.normpath desktop path))
      eqn:Hs.
    + rewrite (filter_cons_False (fun p => FileUploaderApp.supported desktop p = false))
        by (rewrite Hs; discriminate).
      destruct (bool_decide_reflect
                  (FileUploaderApp.normpath desktop path ∈ existing_files)) as [Hin|Hout].
      * rewrite filter_cons_False by (intros [_ Hn]; contradiction). reflexivity.
      * rewrite filter_cons_True by (split; assumption).
        cbn [FileUploaderApp.valid_files FileUploaderApp.file_listbox
             FileUploaderApp.current_zip_path FileUploaderApp.background_process
             FileUploaderApp.use_gpu FileUploaderApp.controls
             FileUploaderApp.disabled_overlay FileUploaderApp.download_frame_placed
             FileUploaderApp.destroyed FileUploaderApp.messagebox].
        rewrite fmap_cons, <- !app_assoc. reflexivity.
    + rewrite filter_cons_False by (intros [Hn _]; rewrite Hs in Hn; discriminate).
      rewrite (filter_cons_True (fun p => FileUploaderApp.supported desktop p = false))
        by exact Hs.
      unfold FileUploaderApp.show.
      cbn [FileUploaderApp.valid_files FileUploaderApp.file_listbox
           FileUploaderApp.current_zip_path FileUploaderApp.background_process
           FileUploaderApp.use_gpu FileUploaderApp.controls
           FileUploaderApp.disabled_overlay FileUploaderApp.download_frame_placed
           FileUploaderApp.destroyed FileUploaderApp.messagebox].
      rewrite fmap_cons, <- !app_assoc. reflexivity.
Qed.

End FileList.

(** X15: [add_files] appends, in the order given, the normalised paths that
    have a supported extension and were not in the list before the call;
    the listbox receives their base names; every path of another type is
    answered by one warning; nothing else changes. *)
Theorem add_files_appends (desktop : FileUploaderApp.Desktop) (file_paths : list string)
    (app : FileUploaderApp.State) :
  let clean := FileUploaderApp.normpath desktop <$> file_paths in
  let added :=
    filter (fun p => FileUploaderApp.supported desktop p = true /\
                     p ∉ FileUploaderApp.valid_files app) clean in
  let refused := filter (fun p => FileUploaderApp.supported desktop p = false) clean in
  let app' := FileUploaderApp.add_files desktop file_paths app in
  FileUploaderApp.valid_files app' = FileUploaderApp.valid_files app ++ added /\
  FileUploaderApp.file_listbox app' =
    FileUploaderApp.file_listbox app ++ (FileUploaderApp.basename desktop <$> added) /\
  length (FileUploaderApp.messagebox app') =
    (length (FileUploaderApp.messagebox app) + length refused)%nat /\
  FileUploaderApp.current_zip_path app' = FileUploaderApp.current_zip_path app /\
  FileUploaderApp.use_gpu app' = FileUploaderApp.use_gpu app /\
  FileUploaderApp.controls app' = FileUploaderApp.controls app /\
  FileUploaderApp.download_frame_placed app' = FileUploaderApp.download_frame_placed app.
Proof.
  cbv zeta. unfold FileUploaderApp.add_files. rewrite add_file_loop.
  cbn [FileUploaderApp.valid_files FileUploaderApp.file_listbox
       FileUploaderApp.current_zip_path FileUploaderApp.use_gpu FileUploaderApp.controls
       FileUploaderApp.download_frame_placed FileUploaderApp.messagebox].
  rewrite length_app, length_fmap. repeat split.
Qed.

(** X16: A list without repetitions stays one when the paths that are added
    differ from each other once normalised. *)
Theorem add_files_no_duplicates (desktop : FileUploaderApp.Desktop)
    (file_paths : list string) (app : FileUploaderApp.State) :
  NoDup (FileUploaderApp.valid_files app) ->
  NoDup (FileUploaderApp.normpath desktop <$> file_paths) ->
  NoDup (FileUploaderApp.valid_files (FileUploaderApp.add_files desktop file_paths app)).
Proof.
  intros Hold Hnew. unfold FileUploaderApp.add_files. rewrite add_file_loop.
  cbn [FileUploaderApp.valid_files].
  apply NoDup_app. split; [exact Hold|]. split.
  - intros p Hp Hadded. apply list_elem_of_filter in Hadded as [[_ Hout] _].
    contradiction.
  - apply NoDup_filter. exact Hnew.
Qed.

Lemma add_files_no_duplicates_witness :
  NoDup (FileUploaderApp.valid_files
           (FileUploaderApp.add_files posix_desktop
              ["/in/a.PNG"; "/in/notes.txt"; "/in/b.heic"]
              (FileUploaderApp.add_files posix_desktop ["/in/a.PNG"] FileUploaderApp.init))).
Proof.
  apply (add_files_no_duplicates posix_desktop).
  - vm_compute. apply NoDup_singleton.
  - apply (bool_decide_unpack _). vm_compute. exact I.
Defined.

(** ** The application window: reset and download *)

(** [reset] in one step: it cannot fail, and what it leaves. *)
Lemma reset_run (app : FileUploaderApp.State) (w : World) :
  exists app',
    FileUploaderApp.reset app w =
      (Ok app',
       {| files := match FileUploaderApp.current_zip_path app with
                   | Some zip => delete (name zip) (files w)
                   | None => files w
                   end;
          directories := directories w;
          console := console w |}) /\
    FileUploaderApp.valid_files app' = [] /\
    FileUploaderApp.file_listbox app' = [] /\
    FileUploaderApp.current_zip_path app' = None /\
    FileUploaderApp.download_frame_placed app' = false /\
    FileUploaderApp.use_gpu app' = false /\
    FileUploaderApp.controls app' = FileUploaderApp.normal /\
    FileUploaderApp.disabled_overlay app' =
      match FileUploaderApp.disabled_overlay app with
      | None => None
      | Some _ => Some false
      end /\
    FileUploaderApp.destroyed app' = FileUploaderApp.destroyed app /\
    FileUploaderApp.messagebox app' = FileUploaderApp.messagebox app /\
    FileUploaderApp.background_process app' =
      match FileUploaderApp.background_process app with
      | Some _ => Some {| FileUploaderApp.is_disposed := true |}
      | None => None
      end.
Proof.
  unfold FileUploaderApp.reset, FileUploaderApp.os_path_exists, os_remove.
  unfold mbind, M_bind, mbind', mret, M_ret.
  destruct (FileUploaderApp.current_zip_path app) as [zip|].
  - destruct (files w !! name zip) as [file|] eqn:Hfile.
    + rewrite bool_decide_eq_true_2 by eauto. rewrite Hfile.
      eexists. split; [reflexivity|]. repeat split.
    + rewrite bool_decide_eq_false_2 by (intros [? ?]; discriminate).
      rewrite (delete_id _ _ Hfile).
      eexists. split; [destruct w; reflexivity|]. repeat split.
  - eexists. split; [destruct w; reflexivity|]. repeat split.
Qed.

(** X17: [reset] never fails. It empties the file list and the listbox, forgets
    the archive and removes its file from the disk, hides the download
    button, enables the controls and unticks the GPU box; no other file
    and no directory is touched, no dialog is shown. *)
Theorem reset_clears (app : FileUploaderApp.State) (w : World) :
  exists app' w',
    FileUploaderApp.reset app w = (Ok app', w') /\
    FileUploaderApp.valid_files app' = [] /\
    FileUploaderApp.file_listbox app' = [] /\
    FileUploaderApp.current_zip_path app' = None /\
    FileUploaderApp.download_frame_placed app' = false /\
    FileUploaderApp.use_gpu app' = false /\
    FileUploaderApp.controls app' = FileUploaderApp.normal /\
    FileUploaderApp.messagebox app' = FileUploaderApp.messagebox app /\
    (forall zip, FileUploaderApp.current_zip_path app = Some zip ->
                 files w' !! name zip = None) /\
    (forall p, FileUploaderApp.current_zip_path app <> Some {| name := p |} ->
               files w' !! p = files w !! p) /\
    directories w' = directories w /\
    FileUploaderApp.reset app' w' = (Ok app', w').
Proof.
  destruct (reset_run app w)
    as (app' & Hrun & Hv & Hl & Hz & Hd & Hg & Hc & Ho & Hx & Hm & Hb).
  exists app'. eexists. split; [exact Hrun|].
  do 7 (split; [assumption|]).
  split; [|split; [|split]].
  - intros zip Hzip. cbn [files]. rewrite Hzip. apply lookup_delete_eq.
  - intros p Hp. cbn [files].
    destruct (FileUploaderApp.current_zip_path app) as [[zip]|]; [|reflexivity].
    cbn [name]. apply lookup_delete_ne. congruence.
  - reflexivity.
  - match goal with |- FileUploaderApp.reset app' ?w1 = _ =>
      destruct (reset_run app' w1) as (app'' & Hrun2 & Hv2 & Hl2 & Hz2 & Hd2 & Hg2 & Hc2
                                       & Ho2 & Hx2 & Hm2 & Hb2)
    end.
    rewrite Hrun2, Hz. cbn [files directories console].
    assert (Ho3 : FileUploaderApp.disabled_overlay app''
                  = FileUploaderApp.disabled_overlay app')
      by (rewrite Ho2, Ho; destruct (FileUploaderApp.disabled_overlay app); reflexivity).
    assert (Hb3 : FileUploaderApp.background_process app''
                  = FileUploaderApp.background_process app')
      by (rewrite Hb2, Hb; destruct (FileUploaderApp.background_process app); reflexivity).
    f_equal. f_equal. destruct app', app''.
    cbn [FileUploaderApp.valid_files FileUploaderApp.file_listbox
         FileUploaderApp.current_zip_path FileUploaderApp.background_process
         FileUploaderApp.use_gpu FileUploaderApp.controls
         FileUploaderApp.disabled_overlay FileUploaderApp.download_frame_placed
         FileUploaderApp.destroyed FileUploaderApp.messagebox] in *.
    congruence.
Qed.

Lemma show_fields (dialog : FileUploaderApp.Dialog) (app : FileUploaderApp.State) :
  FileUploaderApp.valid_files (FileUploaderApp.show dialog app)
    = FileUploaderApp.valid_files app /\
  FileUploaderApp.file_listbox (FileUploaderApp.show dialog app)
    = FileUploaderApp.file_listbox app /\
  FileUploaderApp.current_zip_path (FileUploaderApp.show dialog app)
    = FileUploaderApp.current_zip_path app /\
  FileUploaderApp.download_frame_placed (FileUploaderApp.show dialog app)
    = FileUploaderApp.download_frame_placed app /\
  FileUploaderApp.disabled_overlay (FileUploaderApp.show dialog app)
    = FileUploaderApp.disabled_overlay app /\
  FileUploaderApp.messagebox (FileUploaderApp.show dialog app)
    = FileUploaderApp.messagebox app ++ [dialog].
Proof. repeat split. Qed.

(** The successful download: the archive is copied to the chosen path,
    the success dialog is shown and the session is reset. *)
Lemma download_files_run (desktop : FileUploaderApp.Desktop) (save_path : string)
    (app : FileUploaderApp.State) (w : World) (zip : NamedTemporaryFile) (archive : File) :
  FileUploaderApp.current_zip_path app = Some zip ->
  files w !! name zip = Some archive ->
  save_path <> "" ->
  FileUploaderApp.copy2_fault desktop (name zip) save_path = None ->
  FileUploaderApp.download_files desktop save_path app w =
  FileUploaderApp.reset
    (FileUploaderApp.show (FileUploaderApp.showinfo "Success" "Files downloaded successfully!")
       app)
    {| files := <[save_path := archive]> (files w);
       directories := directories w;
       console := console w |}.
Proof.
  intros Hzip Hfile Hsave Hcopy.
  unfold FileUploaderApp.download_files, FileUploaderApp.os_path_exists, try_except,
    FileUploaderApp.copy2.
  rewrite Hzip. unfold mbind, M_bind, mbind'.
  rewrite bool_decide_eq_true_2 by eauto. cbn [negb].
  rewrite bool_decide_eq_false_2 by exact Hsave.
  rewrite Hcopy, Hfile.
  match goal with |- context [FileUploaderApp.reset ?a ?w1] =>
    destruct (reset_run a w1) as (app' & Hrun & _)
  end.
  rewrite Hrun. reflexivity.
Qed.

(** X18: After a successful batch the user saves the archive: the file at the
    chosen path is the archive, the temporary file is gone, and the session
    is back in its cleared state. *)
Theorem download_files_saves (desktop : FileUploaderApp.Desktop) (save_path : string)
    (app : FileUploaderApp.State) (w : World) (zip : NamedTemporaryFile) (archive : File) :
  FileUploaderApp.current_zip_path app = Some zip ->
  files w !! name zip = Some archive ->
  save_path <> "" -> save_path <> name zip ->
  FileUploaderApp.copy2_fault desktop (name zip) save_path = None ->
  exists app' w',
    FileUploaderApp.download_files desktop save_path app w = (Ok app', w') /\
    files w' !! save_path = Some archive /\
    files w' !! name zip = None /\
    (forall p, p <> save_path -> p <> name zip -> files w' !! p = files w !! p) /\
    directories w' = directories w /\
    FileUploaderApp.valid_files app' = [] /\
    FileUploaderApp.file_listbox app' = [] /\
    FileUploaderApp.current_zip_path app' = None /\
    FileUploaderApp.download_frame_placed app' = false /\
    FileUploaderApp.messagebox app' =
      FileUploaderApp.messagebox app
        ++ [FileUploaderApp.showinfo "Success" "Files downloaded successfully!"].
Proof.
  intros Hzip Hfile Hsave Hne Hcopy.
  rewrite (download_files_run desktop save_path app w zip archive Hzip Hfile Hsave Hcopy).
  match goal with |- context [FileUploaderApp.reset ?a ?w1] =>
    destruct (reset_run a w1) as (app' & Hrun & Hv & Hl & Hz & Hd & _ & _ & _ & _ & Hm & _)
  end.
  exists app'. eexists. split; [exact Hrun|].
  cbn [files directories FileUploaderApp.show FileUploaderApp.current_zip_path] in *.
  rewrite Hzip.
  split; [rewrite lookup_delete_ne by congruence; apply lookup_insert_eq|].
  split; [apply lookup_delete_eq|].
  split.
  { intros p Hp1 Hp2. rewrite lookup_delete_ne by congruence.
    apply lookup_insert_ne. congruence. }
  split; [reflexivity|].
  do 4 (split; [assumption|]). exact Hm.
Qed.

Lemma download_files_saves_witness :
  exists app' w',
    FileUploaderApp.download_files posix_desktop "/home/out.zip"
      (FileUploaderApp.enable_download {| name := "/tmp/tmpk3v9.zip" |} FileUploaderApp.init)
      {| files := {["/tmp/tmpk3v9.zip" := ZipArchive []]}; directories := ∅; console := [] |}
      = (Ok app', w') /\
    files w' !! "/home/out.zip" = Some (ZipArchive []) /\
    files w' !! "/tmp/tmpk3v9.zip" = None.
Proof.
  destruct (download_files_saves posix_desktop "/home/out.zip"
              (FileUploaderApp.enable_download {| name := "/tmp/tmpk3v9.zip" |}
                 FileUploaderApp.init)
              {| files := {["/tmp/tmpk3v9.zip" := ZipArchive []]}; directories := ∅;
                 console := [] |}
              {| name := "/tmp/tmpk3v9.zip" |} (ZipArchive []))
    as (app' & w' & Hrun & Hsaved & Hgone & _);
    [reflexivity | apply lookup_singleton_eq | discriminate | discriminate | reflexivity |].
  exists app', w'. split; [exact Hrun|]. split; [exact Hsaved | exact Hgone].
Defined.



(** ** The application window: every reachable state *)

Section Reachable.

Variable desktop : FileUploaderApp.Desktop.

(** The listbox shows the base names of the listed files, every listed
    file has a supported extension, and the download button is only there
    while an archive is. *)
Let consistent (app : FileUploaderApp.State) : Prop :=
  FileUploaderApp.file_listbox app
    = (FileUploaderApp.basename desktop <$> FileUploaderApp.valid_files app) /\
  Forall (fun p => FileUploaderApp.supported desktop p = true)
    (FileUploaderApp.valid_files app) /\
  (FileUploaderApp.download_frame_placed app = true ->
   is_Some (FileUploaderApp.current_zip_path app)).

(** What survives every handler: the list, the listbox, the archive and
    the overlay either stay, or the session is cleared. *)
Let kept (app app' : FileUploaderApp.State) : Prop :=
  FileUploaderApp.valid_files app' = FileUploaderApp.valid_files app /\
  FileUploaderApp.file_listbox app' = FileUploaderApp.file_listbox app /\
  FileUploaderApp.current_zip_path app' = FileUploaderApp.current_zip_path app /\
  FileUploaderApp.download_frame_placed app' = FileUploaderApp.download_frame_placed app.

Let cleared (app' : FileUploaderApp.State) : Prop :=
  FileUploaderApp.valid_files app' = [] /\
  FileUploaderApp.file_listbox app' = [] /\
  FileUploaderApp.current_zip_path app' = None /\
  FileUploaderApp.download_frame_placed app' = false.

Lemma kept_consistent (app app' : FileUploaderApp.State) :
  consistent app -> kept app app' -> consistent app'.
Proof.
  intros (Hl & Hs & Hd) (Hv' & Hl' & Hz' & Hd').
  unfold consistent. rewrite Hv', Hl', Hz', Hd'. auto.
Qed.

Lemma cleared_consistent (app' : FileUploaderApp.State) : cleared app' -> consistent app'.
Proof.
  intros (Hv & Hl & Hz & Hd). unfold consistent. rewrite Hv, Hl, Hd.
  split; [reflexivity|]. split; [constructor | discriminate].
Qed.

Lemma add_files_consistent (file_paths : list string) (app : FileUploaderApp.State) :
  consistent app -> consistent (FileUploaderApp.add_files desktop file_paths app).
Proof.
  intros (Hl & Hs & Hd). unfold FileUploaderApp.add_files. rewrite add_file_loop.
  unfold consistent.
  cbn [FileUploaderApp.valid_files FileUploaderApp.file_listbox
       FileUploaderApp.current_zip_path FileUploaderApp.download_frame_placed].
  split; [rewrite fmap_app, Hl; reflexivity|]. split; [|exact Hd].
  apply Forall_app. split; [exact Hs|].
  apply Forall_forall. intros p Hp. apply list_elem_of_filter in Hp as [[Hp _] _].
  exact Hp.
Qed.

Lemma add_files_overlay (file_paths : list string) (app : FileUploaderApp.State) :
  FileUploaderApp.disabled_overlay (FileUploaderApp.add_files desktop file_paths app)
  = FileUploaderApp.disabled_overlay app.
Proof. unfold FileUploaderApp.add_files. rewrite add_file_loop. reflexivity. Qed.

Lemma reset_cleared (app : FileUploaderApp.State) (w : World) :
  exists app' w',
    FileUploaderApp.reset app w = (Ok app', w') /\ cleared app' /\
    FileUploaderApp.destroyed app' = FileUploaderApp.destroyed app /\
    (FileUploaderApp.disabled_overlay app = Some false ->
     FileUploaderApp.disabled_overlay app' = Some false).
Proof.
  destruct (reset_run app w) as (app' & Hrun & Hv & Hl & Hz & Hd & _ & _ & Ho & Hx & _).
  exists app'. eexists. split; [exact Hrun|]. split; [repeat split; assumption|].
  split; [exact Hx|]. intros H. rewrite Ho, H. reflexivity.
Qed.

(** No handler fails; each keeps a consistent state consistent and a
    destroyed overlay destroyed. *)
Lemma handle_preserves (event : FileUploaderApp.Event) (app : FileUploaderApp.State)
    (w : World) :
  exists app' w',
    FileUploaderApp.handle desktop event app w = (Ok app', w') /\
    (consistent app -> consistent app') /\
    (FileUploaderApp.disabled_overlay app = Some false ->
     FileUploaderApp.disabled_overlay app' = Some false).
Proof.
  destruct event as [paths|paths|value| | |save_path|[zip|e|]|];
    cbn [FileUploaderApp.handle].
  - exists (FileUploaderApp.browse_files desktop paths app), w.
    split; [reflexivity|]. unfold FileUploaderApp.browse_files.
    destruct paths as [|path paths]; [auto|].
    split; [apply add_files_consistent | rewrite add_files_overlay; auto].
  - exists (FileUploaderApp.handle_drop desktop paths app), w.
    split; [reflexivity|]. unfold FileUploaderApp.handle_drop.
    split; [apply add_files_consistent | rewrite add_files_overlay; auto].
  - eexists _, w. split; [reflexivity|]. split; [|auto].
    intros Hc. apply (kept_consistent app); [exact Hc|]. repeat split.
  - eexists _, w. split; [reflexivity|]. unfold FileUploaderApp.process_files.
    destruct (FileUploaderApp.valid_files app) as [|path paths] eqn:Hv.
    + split; [|auto]. intros Hc. apply (kept_consistent app); [exact Hc|]. repeat split.
    + cbn [fst]. split.
      * intros Hc. apply (kept_consistent app); [exact Hc|]. repeat split.
      * intros Ho.
        cbn [FileUploaderApp.disabled_overlay FileUploaderApp.show
             FileUploaderApp.set_ui_state].
        rewrite Ho. reflexivity.
  - destruct (reset_cleared app w) as (app' & w' & Hrun & Hcl & _ & Ho).
    exists app', w'. split; [exact Hrun|]. split; [|exact Ho].
    intros _. apply cleared_consistent. exact Hcl.
  - unfold FileUploaderApp.download_files, FileUploaderApp.os_path_exists, try_except,
      FileUploaderApp.copy2.
    unfold mbind, M_bind, mbind', mret, M_ret.
    assert (Hshow : forall dialog, exists app' w',
              (Ok (FileUploaderApp.show dialog app), w) = (Ok app', w') /\
              (consistent app -> consistent app') /\
              (FileUploaderApp.disabled_overlay app = Some false ->
               FileUploaderApp.disabled_overlay app' = Some false)).
    { intros dialog. eexists _, _. split; [reflexivity|]. split; [|auto].
      intros Hc. apply (kept_consistent app); [exact Hc|]. repeat split. }
    destruct (FileUploaderApp.current_zip_path app) as [zip|]; [|apply Hshow].
    destruct (bool_decide (is_Some (files w !! name zip))); cbn [negb]; [|apply Hshow].
    destruct (bool_decide (save_path = "")); [eexists _, _; split; [reflexivity|]; auto|].
    destruct (FileUploaderApp.copy2_fault desktop (name zip) save_path); [apply Hshow|].
    destruct (files w !! name zip); [|apply Hshow].
    match goal with |- context [FileUploaderApp.reset ?a ?w1] =>
      destruct (reset_cleared a w1) as (app' & w' & Hrun & Hcl & _ & Ho)
    end.
    rewrite Hrun. exists app', w'. split; [reflexivity|]. split; [|exact Ho].
    intros _. apply cleared_consistent. exact Hcl.
  - eexists _, w. split; [reflexivity|]. split; [|auto].
    intros (Hl & Hs & _). unfold consistent.
    cbn [FileUploaderApp.enable_download FileUploaderApp.show FileUploaderApp.valid_files
         FileUploaderApp.file_listbox FileUploaderApp.current_zip_path
         FileUploaderApp.download_frame_placed].
    eauto.
  - unfold FileUploaderApp.handle_error.
    match goal with |- context [FileUploaderApp.reset ?a ?w1] =>
      destruct (reset_cleared a w1) as (app' & w' & Hrun & Hcl & _ & Ho)
    end.
    exists app', w'. split; [exact Hrun|]. split; [|exact Ho].
    intros _. apply cleared_consistent. exact Hcl.
  - eexists _, w. split; [reflexivity|]. split.
    + intros Hc. apply (kept_consistent app); [exact Hc|]. repeat split.
    + intros Ho. cbn [FileUploaderApp.disabled_overlay FileUploaderApp.set_ui_state].
      rewrite Ho. reflexivity.
  - unfold FileUploaderApp.on_close. unfold mbind, M_bind, mbind', mret, M_ret.
    destruct (reset_cleared app w) as (app' & w' & Hrun & Hcl & _ & Ho).
    rewrite Hrun. eexists _, w'. split; [reflexivity|]. split; [|exact Ho].
    intros _. apply cleared_consistent. exact Hcl.
Qed.

Lemma mainloop_preserves (events : list FileUploaderApp.Event)
    (app : FileUploaderApp.State) (w : World) :
  exists app' w',
    FileUploaderApp.mainloop desktop events app w = (Ok app', w') /\
    (consistent app -> consistent app') /\
    (FileUploaderApp.disabled_overlay app = Some false ->
     FileUploaderApp.disabled_overlay app' = Some false).
Proof.
  revert app w. induction events as [|event events IH]; intros app w.
  - exists app, w. split; [reflexivity|]. auto.
  - cbn [FileUploaderApp.mainloop].
    destruct (FileUploaderApp.destroyed app); [exists app, w; split; [reflexivity|]; auto|].
    destruct (handle_preserves event app w) as (app1 & w1 & Hrun1 & Hc1 & Ho1).
    destruct (IH app1 w1) as (app2 & w2 & Hrun2 & Hc2 & Ho2).
    exists app2, w2. split; [|auto].
    unfold mbind, M_bind, mbind' in *.
    rewrite Hrun1. exact Hrun2.
Qed.

Lemma init_consistent : consistent FileUploaderApp.init.
Proof.
  unfold consistent. cbn. split; [reflexivity|]. split; [constructor | discriminate].
Qed.

(** From the initial state every sequence of events runs to its end and
    ends in a consistent state. *)
Lemma mainloop_consistent (events : list FileUploaderApp.Event) (w : World) :
  exists app w',
    FileUploaderApp.mainloop desktop events FileUploaderApp.init w = (Ok app, w') /\
    FileUploaderApp.file_listbox app
      = (FileUploaderApp.basename desktop <$> FileUploaderApp.valid_files app) /\
    Forall (fun p => FileUploaderApp.supported desktop p = true)
      (FileUploaderApp.valid_files app) /\
    (FileUploaderApp.download_frame_placed app = true ->
     is_Some (FileUploaderApp.current_zip_path app)).
Proof.
  destruct (mainloop_preserves events FileUploaderApp.init w) as (app & w' & Hrun & Hc & _).
  exists app, w'. split; [exact Hrun|]. apply Hc, init_consistent.
Qed.

Lemma mainloop_overlay (events : list FileUploaderApp.Event)
    (app : FileUploaderApp.State) (w : World) :
  FileUploaderApp.disabled_overlay app = Some false ->
  exists app' w',
    FileUploaderApp.mainloop desktop events app w = (Ok app', w') /\
    FileUploaderApp.disabled_overlay app' = Some false.
Proof.
  intros Ho. destruct (mainloop_preserves events app w) as (app' & w' & Hrun & _ & Ho').
  exists app', w'. split; [exact Hrun | exact (Ho' Ho)].
Qed.

End Reachable.

(** X20: Whatever the user does, no handler fails, and in every state that the
    window reaches the listbox shows the base names of the listed files,
    every listed file has one of the four supported extensions, and the
    download button is only there while an archive is. *)
Theorem window_stays_consistent (desktop : FileUploaderApp.Desktop)
    (events : list FileUploaderApp.Event) (w : World) :
  exists app w',
    FileUploaderApp.mainloop desktop events FileUploaderApp.init w = (Ok app, w') /\
    FileUploaderApp.file_listbox app
      = (FileUploaderApp.basename desktop <$> FileUploaderApp.valid_files app) /\
    Forall (fun p => exists suffix,
              suffix ∈ [".png"; ".jpeg"; ".jpg"; ".heic"] /\
              FileUploaderApp.endswith (FileUploaderApp.lower desktop p) suffix = true)
      (FileUploaderApp.valid_files app) /\
    (FileUploaderApp.download_frame_placed app = true ->
     is_Some (FileUploaderApp.current_zip_path app)).
Proof.
  destruct (mainloop_consistent desktop events w) as (app & w' & Hrun & Hl & Hs & Hd).
  exists app, w'. split; [exact Hrun|]. split; [exact Hl|]. split; [|exact Hd].
  eapply Forall_impl; [exact Hs|]. intros p Hp.
  unfold FileUploaderApp.supported in Hp. apply existsb_exists in Hp as (suffix & Hin & He).
  exists suffix. split; [|exact He]. apply list_elem_of_In. exact Hin.
Qed.



(** X22: The overlay of the drop area is shown during the first batch only:
    once the end of a batch has destroyed it, no event brings it back. *)
Theorem overlay_never_returns (desktop : FileUploaderApp.Desktop)
    (events : list FileUploaderApp.Event) (app : FileUploaderApp.State) (w : World) :
  FileUploaderApp.destroyed app = false ->
  FileUploaderApp.disabled_overlay app <> None ->
  exists app' w',
    FileUploaderApp.mainloop desktop
      (FileUploaderApp.Notify OnCompleted :: events) app w = (Ok app', w') /\
    FileUploaderApp.disabled_overlay app' = Some false.
Proof.
  intros Hopen Ho.
  assert (Ho1 : FileUploaderApp.disabled_overlay (FileUploaderApp.set_ui_state false app)
                = Some false).
  { cbn [FileUploaderApp.set_ui_state FileUploaderApp.disabled_overlay].
    destruct (FileUploaderApp.disabled_overlay app); [reflexivity | contradiction]. }
  destruct (mainloop_overlay desktop events _ w Ho1) as (app' & w' & Hrun & Ho').
  exists app', w'. split; [|exact Ho'].
  cbn [FileUploaderApp.mainloop FileUploaderApp.handle]. rewrite Hopen.
  unfold mbind, M_bind, mbind', mret, M_ret. exact Hrun.
Qed.

Lemma overlay_never_returns_witness :
  exists app' w',
    FileUploaderApp.mainloop posix_desktop
      [FileUploaderApp.Notify OnCompleted; FileUploaderApp.Drop ["/in/b.jpg"];
       FileUploaderApp.Submit]
      (FileUploaderApp.process_files
         (FileUploaderApp.add_files posix_desktop ["/in/a.png"] FileUploaderApp.init)).1
      {| files := ∅; directories := ∅; console := [] |} = (Ok app', w') /\
    FileUploaderApp.disabled_overlay app' = Some false.
Proof.
  apply (overlay_never_returns posix_desktop
           [FileUploaderApp.Drop ["/in/b.jpg"]; FileUploaderApp.Submit]).
  - reflexivity.
  - vm_compute. discriminate.
Defined.

(** ** A whole session *)

(** The two outcomes of [_process_files]: the archive is returned and is
    on the disk, or the error of the archive writing is raised and the
    temporary file is gone. *)
Lemma process_files_outcome (env : Env) (input_paths : list string) (use_gpu : bool)
    (w : World) :
  let writing := write_archive env (temp_zip_name env) (temp_dir_name env)
                   (archive_start env input_paths use_gpu w) in
  let run := _process_files env input_paths use_gpu w in
  match writing.1 with
  | Ok _ => run.1 = Ok {| name := temp_zip_name env |} /\
            files run.2 = files writing.2 /\
            is_Some (files run.2 !! temp_zip_name env)
  | Raise e => run.1 = Raise e /\ files run.2 !! temp_zip_name env = None
  end.
Proof.
  cbv zeta. rewrite process_files_unfold. cbv zeta.
  pose proof (write_archive_keeps_file env (temp_zip_name env) (temp_dir_name env)
                (archive_start env input_paths use_gpu w)) as Hkeep.
  destruct (archive_start_spec env input_paths use_gpu w) as (_ & Hf & _).
  rewrite Hf, lookup_insert_eq in Hkeep. specialize (Hkeep ltac:(eauto)).
  destruct (write_archive env (temp_zip_name env) (temp_dir_name env)
              (archive_start env input_paths use_gpu w)) as [[[]|e] w2];
    cbn [fst snd] in *.
  - cbn [files]. auto.
  - unfold os_remove. cbn [files]. destruct Hkeep as [file Hfile]. rewrite Hfile.
    cbn [fst snd files]. split; [reflexivity | apply lookup_delete_eq].
Qed.

(** X23: A session that goes well. The user submits a list that is not empty,
    the archive can be written, and the user then saves it: the callbacks
    and the download run without error, the chosen path holds the archive
    that the batch returned, the temporary archive and the temporary
    directory are gone, no other file has changed, and the window is back
    in its cleared state with the controls enabled. *)
Theorem session_delivers_archive (env : Env) (desktop : FileUploaderApp.Desktop)
    (app : FileUploaderApp.State) (w : World) (save_path : string) :
  FileUploaderApp.destroyed app = false ->
  FileUploaderApp.valid_files app <> [] ->
  zip_open_fault env (temp_zip_name env) = None ->
  (forall f, zip_write_fault env f = None) ->
  save_path <> "" -> save_path <> temp_zip_name env ->
  FileUploaderApp.copy2_fault desktop (temp_zip_name env) save_path = None ->
  let submitted := FileUploaderApp.process_files app in
  let run := process_files env (FileUploaderApp.valid_files app)
               (FileUploaderApp.use_gpu app) w in
  exists app' w' members,
    submitted.2 = Some (FileUploaderApp.valid_files app, FileUploaderApp.use_gpu app) /\
    FileUploaderApp.mainloop desktop
      ((FileUploaderApp.Notify <$> run.1) ++ [FileUploaderApp.Download save_path])
      submitted.1 run.2 = (Ok app', w') /\
    files run.2 !! temp_zip_name env = Some (ZipArchive members) /\
    files w' !! save_path = Some (ZipArchive members) /\
    files w' !! temp_zip_name env = None /\
    (forall p, p <> save_path -> p <> temp_zip_name env -> files w' !! p = files w !! p) /\
    directories w' = delete (temp_dir_name env) (directories w) /\
    FileUploaderApp.valid_files app' = [] /\
    FileUploaderApp.file_listbox app' = [] /\
    FileUploaderApp.current_zip_path app' = None /\
    FileUploaderApp.download_frame_placed app' = false /\
    FileUploaderApp.controls app' = FileUploaderApp.normal.
Proof.
  intros Hopen Hne Ho Hq Hsave Hdiff Hcopy submitted run.
  assert (Hopen1 : FileUploaderApp.destroyed submitted.1 = false).
  { unfold submitted, FileUploaderApp.process_files.
    destruct (FileUploaderApp.valid_files app); exact Hopen. }
  assert (Hsub : submitted.2
                 = Some (FileUploaderApp.valid_files app, FileUploaderApp.use_gpu app)).
  { unfold submitted, FileUploaderApp.process_files.
    destruct (FileUploaderApp.valid_files app) eqn:Hv; [contradiction|].
    cbn [snd FileUploaderApp.valid_files FileUploaderApp.use_gpu FileUploaderApp.show
         FileUploaderApp.set_ui_state].
    rewrite Hv. reflexivity. }
  destruct (process_files_members env (FileUploaderApp.use_gpu app)
              (FileUploaderApp.valid_files app) w Ho Hq) as (w1 & Hrun & Hfile).
  destruct (process_files_final_world env (FileUploaderApp.valid_files app)
              (FileUploaderApp.use_gpu app) w) as (Hd & _ & Hf).
  destruct (archive_start_world env (FileUploaderApp.valid_files app)
              (FileUploaderApp.use_gpu app) w) as (Hf1 & [d Hd1] & _).
  cbv zeta in Hd, Hf, Hf1, Hd1. rewrite Hrun in Hd, Hf. cbn [snd] in Hd, Hf.
  assert (Hrun' : run = ([OnNext {| name := temp_zip_name env |}; OnCompleted], w1))
    by (unfold run, process_files; rewrite Hrun; reflexivity).
  rewrite Hrun'. cbn [fst snd].
  set (app3 := FileUploaderApp.set_ui_state false
                 (FileUploaderApp.enable_download {| name := temp_zip_name env |}
                    submitted.1)).
  pose proof (download_files_run desktop save_path app3 w1 {| name := temp_zip_name env |}
                _ eq_refl Hfile Hsave Hcopy) as Hdl.
  match type of Hdl with _ = FileUploaderApp.reset ?a ?w2 =>
    destruct (reset_run a w2) as (app' & Hreset & Hv & Hl & Hz & Hp & _ & Hc & _)
  end.
  rewrite Hreset in Hdl.
  exists app'. eexists. eexists. split; [exact Hsub|].
  split.
  { cbn [fmap list_fmap List.app FileUploaderApp.mainloop FileUploaderApp.handle].
    rewrite Hopen1. unfold mbind, M_bind, mbind', mret, M_ret.
    cbn [FileUploaderApp.destroyed FileUploaderApp.enable_download FileUploaderApp.show
         FileUploaderApp.set_ui_state].
    rewrite Hopen1. fold app3. rewrite Hdl. reflexivity. }
  cbn [files directories FileUploaderApp.current_zip_path FileUploaderApp.show app3
       FileUploaderApp.set_ui_state FileUploaderApp.enable_download name].
  split; [exact Hfile|].
  split; [rewrite lookup_delete_ne by congruence; apply lookup_insert_eq|].
  split; [apply lookup_delete_eq|].
  split.
  { intros p Hp1 Hp2. rewrite lookup_delete_ne by congruence.
    rewrite lookup_insert_ne by congruence. rewrite (Hf p Hp2), Hf1.
    apply lookup_insert_ne. congruence. }
  split; [rewrite Hd, Hd1; apply delete_insert_eq|].
  auto.
Qed.

Lemma session_delivers_archive_witness :
  exists app' w' members,
    FileUploaderApp.mainloop posix_desktop
      ((FileUploaderApp.Notify
          <$> (process_files quiet_env ["/in/a.png"] false
                 {| files := ∅; directories := ∅; console := [] |}).1)
       ++ [FileUploaderApp.Download "/home/out.zip"])
      (FileUploaderApp.process_files
         (FileUploaderApp.add_files posix_desktop ["/in/a.png"] FileUploaderApp.init)).1
      (process_files quiet_env ["/in/a.png"] false
         {| files := ∅; directories := ∅; console := [] |}).2 = (Ok app', w') /\
    files w' !! "/home/out.zip" = Some (ZipArchive members) /\
    files w' !! "/tmp/tmpk3v9.zip" = None /\
    directories w' = ∅.
Proof.
  destruct (session_delivers_archive quiet_env posix_desktop
              (FileUploaderApp.add_files posix_desktop ["/in/a.png"] FileUploaderApp.init)
              {| files := ∅; directories := ∅; console := [] |} "/home/out.zip")
    as (app' & w' & members & _ & Hrun & _ & Hsaved & Hgone & _ & Hdir & _);
    [reflexivity | vm_compute; discriminate | reflexivity | reflexivity | discriminate
    | discriminate | reflexivity |].
  exists app', w', members. split; [exact Hrun|].
  split; [exact Hsaved|]. split; [exact Hgone|].
  rewrite Hdir. apply delete_empty.
Defined.

(** X24: A session in which the archive cannot be written. The error reaches
    the window as its only callback: one error dialog names it, and the
    window is cleared with the controls enabled; the temporary archive and
    the temporary directory are gone. *)
Theorem session_failure_resets (env : Env) (desktop : FileUploaderApp.Desktop)
    (app : FileUploaderApp.State) (w : World) (e : exn) :
  FileUploaderApp.destroyed app = false ->
  FileUploaderApp.valid_files app <> [] ->
  (write_archive env (temp_zip_name env) (temp_dir_name env)
     (archive_start env (FileUploaderApp.valid_files app) (FileUploaderApp.use_gpu app) w)).1
  = Raise e ->
  let submitted := FileUploaderApp.process_files app in
  let run := process_files env (FileUploaderApp.valid_files app)
               (FileUploaderApp.use_gpu app) w in
  exists app' w',
    run.1 = [OnError e] /\
    FileUploaderApp.mainloop desktop (FileUploaderApp.Notify <$> run.1) submitted.1 run.2
      = (Ok app', w') /\
    files w' !! temp_zip_name env = None /\
    directories w' !! temp_dir_name env = None /\
    FileUploaderApp.valid_files app' = [] /\
    FileUploaderApp.file_listbox app' = [] /\
    FileUploaderApp.current_zip_path app' = None /\
    FileUploaderApp.download_frame_placed app' = false /\
    FileUploaderApp.controls app' = FileUploaderApp.normal /\
    FileUploaderApp.messagebox app' =
      FileUploaderApp.messagebox submitted.1
        ++ [FileUploaderApp.showerror "Processing Error"
              ("An error occurred: " +:+ exn_str e
               +:+ String "010"%char "Please try again.")].
Proof.
  intros Hopen Hne Hfail submitted run.
  assert (Hopen1 : FileUploaderApp.destroyed submitted.1 = false).
  { unfold submitted, FileUploaderApp.process_files.
    destruct (FileUploaderApp.valid_files app); exact Hopen. }
  pose proof (process_files_outcome env (FileUploaderApp.valid_files app)
                (FileUploaderApp.use_gpu app) w) as Hout.
  cbv zeta in Hout. rewrite Hfail in Hout. destruct Hout as [Hraise Hgone].
  destruct (process_files_final_world env (FileUploaderApp.valid_files app)
              (FileUploaderApp.use_gpu app) w) as (Hd & _ & _).
  cbv zeta in Hd.
  destruct (_process_files env (FileUploaderApp.valid_files app)
              (FileUploaderApp.use_gpu app) w) as [r w1] eqn:Hrun.
  cbn [fst snd] in Hraise, Hgone, Hd. subst r.
  assert (Hrun' : run = ([OnError e], w1))
    by (unfold run, process_files; rewrite Hrun; reflexivity).
  rewrite Hrun'. cbn [fst snd].
  match goal with |- context [FileUploaderApp.showerror ?t ?m] =>
    destruct (reset_run (FileUploaderApp.show (FileUploaderApp.showerror t m) submitted.1) w1)
      as (app' & Hreset & Hv & Hl & Hz & Hp & _ & Hc & _ & _ & Hm & _)
  end.
  exists app'. eexists. split; [reflexivity|]. split.
  { cbn [fmap list_fmap FileUploaderApp.mainloop FileUploaderApp.handle].
    rewrite Hopen1.
    unfold FileUploaderApp.handle_error. unfold mbind, M_bind, mbind', mret, M_ret.
    rewrite Hreset. reflexivity. }
  cbn [files directories].
  split.
  { destruct (FileUploaderApp.current_zip_path _) as [zip|]; [|exact Hgone].
    destruct (decide (name zip = temp_zip_name env)) as [->|Hne'].
    - apply lookup_delete_eq.
    - rewrite lookup_delete_ne by exact Hne'. exact Hgone. }
  split; [rewrite Hd; apply lookup_delete_eq|].
  do 5 (split; [assumption|]). exact Hm.
Qed.

Lemma session_failure_resets_witness :
  exists app' w',
    FileUploaderApp.mainloop posix_desktop
      (FileUploaderApp.Notify
         <$> (process_files full_disk_env ["/in/a.png"] false
                {| files := ∅; directories := ∅; console := [] |}).1)
      (FileUploaderApp.process_files
         (FileUploaderApp.add_files posix_desktop ["/in/a.png"] FileUploaderApp.init)).1
      (process_files full_disk_env ["/in/a.png"] false
         {| files := ∅; directories := ∅; console := [] |}).2 = (Ok app', w') /\
    files w' !! "/tmp/tmpk3v9.zip" = None /\
    FileUploaderApp.valid_files app' = [] /\
    FileUploaderApp.controls app' = FileUploaderApp.normal.
Proof.
  destruct (session_failure_resets full_disk_env posix_desktop
              (FileUploaderApp.add_files posix_desktop ["/in/a.png"] FileUploaderApp.init)
              {| files := ∅; directories := ∅; console := [] |}
              (ExternalError "No space left on device"))
    as (app' & w' & _ & Hrun & Hgone & _ & Hv & _ & _ & _ & Hc & _);
    [reflexivity | vm_compute; discriminate | reflexivity |].
  exists app', w'. split; [exact Hrun|]. split; [exact Hgone|]. split; [exact Hv | exact Hc].
Defined.

(** ** The model interface *)

(** The model runs on the GPU only when that was asked for and a GPU is
    there, and on the CPU otherwise; half precision goes with the GPU; a
    request that ends on the CPU gives the interface of a run without the
    request; the other settings never vary. *)
Lemma initialize_interface_device (env : Env) (use_gpu : bool) :
  let interface := initialize_interface env use_gpu in
  (device interface = "cuda" <-> use_gpu = true /\ cuda_is_available env = true) /\
  (device interface = "cpu" <-> use_gpu = false \/ cuda_is_available env = false) /\
  (fp16 interface = true <-> device interface = "cuda") /\
  (device interface = "cpu" -> interface = initialize_interface env false) /\
  object_type interface = "object" /\ batch_size_seg interface = 2 /\
  batch_size_matting interface = 1 /\ seg_mask_size interface = 640.
Proof.
  cbv zeta. unfold initialize_interface.
  destruct use_gpu, (cuda_is_available env);
    cbn [device fp16 object_type batch_size_seg batch_size_matting seg_mask_size];
    repeat split; try (intros [? ?] || intros [?|?] || intros ?);
    try discriminate; try reflexivity; auto.
Qed.

(** X25: On a machine without a GPU the request for one changes nothing: the
    batch runs as it does without the request, with the same result and
    the same effects. *)
Theorem process_files_gpu_request_without_gpu (env : Env) (input_paths : list string)
    (w : World) :
  cuda_is_available env = false ->
  _process_files env input_paths true w = _process_files env input_paths false w /\
  process_files env input_paths true w = process_files env input_paths false w.
Proof.
  intros Hcuda.
  destruct (initialize_interface_device env true) as (_ & Hcpu & _ & Hsame & _).
  cbv zeta in Hcpu, Hsame.
  assert (Hi : initialize_interface env true = initialize_interface env false)
    by (apply Hsame, Hcpu; right; exact Hcuda).
  assert (Hp : _process_files env input_paths true w = _process_files env input_paths false w)
    by (unfold _process_files; rewrite Hi; reflexivity).
  split; [exact Hp|]. unfold process_files. rewrite Hp. reflexivity.
Qed.

Lemma process_files_gpu_request_without_gpu_witness :
  _process_files quiet_env ["/in/a.png"] true
    {| files := ∅; directories := ∅; console := [] |}
  = _process_files quiet_env ["/in/a.png"] false
      {| files := ∅; directories := ∅; console := [] |}.
Proof.
  apply (process_files_gpu_request_without_gpu quiet_env ["/in/a.png"]
           {| files := ∅; directories := ∅; console := [] |}).
  reflexivity.
Defined.
